(** * DocumentManagementSystem: the OCR queue, text extraction, the upload,
      reprocess, delete and search routes, document search and the page links,
      embedded from [server/queue.ts], [server/routes.ts],
      [server/storage.ts], [shared/schema.ts] and
      [client/src/components/document-results.tsx]. *)

From Stdlib Require Import ZArith NArith Bool List Lia Ascii String DecimalString Sorting.Sorted.
From stdpp Require Import base option list.
Import ListNotations.

Local Open Scope N_scope.

(** ** JavaScript strings

    A JavaScript string is a sequence of UTF-16 code units; [length],
    [startsWith], [includes], [trim] and regular expressions without the [u]
    flag all work on code units. *)

Abbreviation jsstring := (list N).

Module Js.

(** Literals of the TypeScript sources are written as Rocq strings, whose
    bytes are the UTF-8 encoding of the source text; [utf8_decode] turns
    them into code units (one-, two- and three-byte sequences, which covers
    every literal of the sources). *)
Fixpoint utf8_decode (bs : list N) : jsstring :=
  match bs with
  | [] => []
  | b :: r =>
      if b <? 128 then b :: utf8_decode r
      else if b <? 224 then
        match r with
        | b1 :: r1 => ((b - 192) * 64 + (b1 - 128)) :: utf8_decode r1
        | [] => []
        end
      else
        match r with
        | b1 :: b2 :: r2 =>
            ((b - 224) * 4096 + (b1 - 128) * 64 + (b2 - 128)) :: utf8_decode r2
        | _ => []
        end
  end.

Definition lit (s : string) : jsstring :=
  utf8_decode (List.map N_of_ascii (list_ascii_of_string s)).

(** [a === b] on strings *)
Fixpoint eqb (a b : jsstring) : bool :=
  match a, b with
  | [], [] => true
  | x :: a', y :: b' => (x =? y) && eqb a' b'
  | _, _ => false
  end.

(** [s.startsWith(p)] *)
Fixpoint startsWith (s p : jsstring) : bool :=
  match p, s with
  | [], _ => true
  | _ :: _, [] => false
  | x :: p', y :: s' => (x =? y) && startsWith s' p'
  end.

(** [s.includes(p)] *)
Fixpoint includes (s p : jsstring) : bool :=
  startsWith s p ||
  match s with
  | [] => false
  | _ :: s' => includes s' p
  end.

(** White space of ECMAScript: the [WhiteSpace] and [LineTerminator]
    productions. Both [\s] and [String.prototype.trim] use this set. *)
Definition is_ws (c : N) : bool :=
  existsb (N.eqb c) [9; 10; 11; 12; 13; 32; 160; 5760; 8232; 8233; 8239; 8287; 12288; 65279]
  || ((8192 <=? c) && (c <=? 8202)).

(** [\w] without the [i] and [u] flags: [[A-Za-z0-9_]]. *)
Definition is_word (c : N) : bool :=
  ((48 <=? c) && (c <=? 57)) || ((65 <=? c) && (c <=? 90))
  || (c =? 95) || ((97 <=? c) && (c <=? 122)).

Fixpoint dropWhile (p : N -> bool) (s : jsstring) : jsstring :=
  match s with
  | [] => []
  | c :: r => if p c then dropWhile p r else s
  end.

Fixpoint takeWhile (p : N -> bool) (s : jsstring) : jsstring :=
  match s with
  | [] => []
  | c :: r => if p c then c :: takeWhile p r else []
  end.

Definition trimStart (s : jsstring) : jsstring := dropWhile is_ws s.
Definition trimEnd (s : jsstring) : jsstring := rev (dropWhile is_ws (rev s)).
(** [s.trim()] *)
Definition trim (s : jsstring) : jsstring := trimEnd (trimStart s).

(** *** [String.prototype.replace] with a global regular expression

    A pattern is given by its matcher: [m s] is the length of the match of
    the pattern anchored at the start of [s], if there is one. The scan is
    the one of [RegExp.prototype[Symbol.replace]] with the [g] flag: matches
    are taken leftmost first and do not overlap; after an empty match the
    scan moves on by one code unit. *)
Definition matcher := jsstring -> option nat.

Fixpoint replace_fuel (m : matcher) (r : jsstring) (fuel : nat) (s : jsstring)
  : jsstring :=
  match fuel with
  | O => s
  | S f =>
      match s with
      | [] => match m [] with Some _ => r | None => [] end
      | c :: rest =>
          match m s with
          | Some (S n) => r ++ replace_fuel m r f (drop n rest)
          | Some O => r ++ c :: replace_fuel m r f rest
          | None => c :: replace_fuel m r f rest
          end
      end
  end.

Definition replace_g (m : matcher) (r : jsstring) (s : jsstring) : jsstring :=
  replace_fuel m r (S (length s)) s.

End Js.

(** ** [server/queue.ts]: text cleaning *)

Module Clean.
Import Js.

(** Index of the last line feed of [s], if any. *)
Fixpoint last_lf (s : jsstring) : option nat :=
  match s with
  | [] => None
  | c :: r =>
      match last_lf r with
      | Some k => Some (S k)
      | None => if c =? 10 then Some O else None
      end
  end.

(** [/\n\s*\n/]: a line feed, then the greedy [\s*], which backtracks to
    the last line feed of the run of white space that follows. *)
Definition re_blank_lines : matcher := fun s =>
  match s with
  | 10 :: rest =>
      match last_lf (takeWhile is_ws rest) with
      | Some k => Some (S (S k))
      | None => None
      end
  | _ => None
  end.

(** The characters listed in the class besides [\w] and [\s]. *)
Definition class_chars : jsstring :=
  lit ".,!?;:-()[]{}áéíóúàèìòùâêîôûãõçÁÉÍÓÚÀÈÌÒÙÂÊÎÔÛÃÕÇ".

Definition in_class (c : N) : bool :=
  is_word c || is_ws c || existsb (N.eqb c) class_chars.

(** [/[^\w\s\.,!?;:\-()[\]{}áéí...]/]: one code unit outside the class. *)
Definition re_special : matcher := fun s =>
  match s with
  | c :: _ => if in_class c then None else Some 1%nat
  | [] => None
  end.

(** [/\s+/]: a maximal run of white space. *)
Definition re_spaces : matcher := fun s =>
  match takeWhile is_ws s with
  | [] => None
  | run => Some (length run)
  end.

(** [OCRQueue.cleanOCRText] *)
Definition cleanOCRText (text : jsstring) : jsstring :=
  trim
    (replace_g re_spaces [32]
       (replace_g re_special []
          (replace_g re_blank_lines [10] text))).

(** A one-pass description of [.replace(/\s+/g, ' ')], shown equal to it
    below: [prev] tells whether the previous code unit was white space. *)
Fixpoint collapse (prev : bool) (s : jsstring) : jsstring :=
  match s with
  | [] => []
  | c :: r =>
      if is_ws c then (if prev then collapse true r else 32 :: collapse true r)
      else c :: collapse false r
  end.

(** The shape of a cleaned text: every code unit is in the class, the only
    white space is the space, no two spaces are adjacent, and neither end is
    a space. *)
Fixpoint single_spaced (s : jsstring) : Prop :=
  match s with
  | [] => True
  | c :: r =>
      (is_ws c = true -> c = 32 /\ match r with [] => True | d :: _ => is_ws d = false end)
      /\ single_spaced r
  end.

Definition trimmed (s : jsstring) : Prop :=
  (forall c r, s = c :: r -> is_ws c = false)
  /\ (forall c r, s = r ++ [c] -> is_ws c = false).

Definition clean_form (s : jsstring) : Prop :=
  Forall (fun c => in_class c = true) s
  /\ ~ In 10 s
  /\ single_spaced s
  /\ trimmed s.

End Clean.

(** ** [shared/schema.ts] and [server/storage.ts]: the documents table *)

Module Storage.

(** A row of the [documents] table. Nullable columns are options;
    timestamps are milliseconds since the epoch. *)
Record Document := {
  doc_id : Z;
  doc_title : jsstring;
  doc_description : option jsstring;
  doc_subject : option jsstring;
  doc_tags : option (list jsstring);
  doc_category : jsstring;
  doc_department : option jsstring;
  doc_documentDate : option Z;
  doc_fileName : jsstring;
  doc_originalName : jsstring;
  doc_mimeType : jsstring;
  doc_fileSize : Z;
  doc_filePath : jsstring;
  doc_extractedText : option jsstring;
  doc_ocrProcessed : option bool;
  doc_createdAt : Z;
  doc_updatedAt : Z
}.

(** [InsertDocument]: a row without [id], [createdAt] and [updatedAt]. *)
Record InsertDocument := {
  ins_title : jsstring;
  ins_description : option jsstring;
  ins_subject : option jsstring;
  ins_tags : option (list jsstring);
  ins_category : jsstring;
  ins_department : option jsstring;
  ins_documentDate : option Z;
  ins_fileName : jsstring;
  ins_originalName : jsstring;
  ins_mimeType : jsstring;
  ins_fileSize : Z;
  ins_filePath : jsstring;
  ins_extractedText : option jsstring;
  ins_ocrProcessed : option bool
}.

(** The columns [id] and [file_size] are [integer]s of the database: for a
    number outside that range a statement raises. The functions below take
    their [id] argument within the range; what a route does with another
    parameter is in the route. *)
Definition int4 (n : Z) : bool := ((-2147483648 <=? n) && (n <=? 2147483647))%Z.

(** [Partial<Document>], the updates [updateDocument] takes: every column may
    be set, the key [id] included ([updatedAt] too, but the function
    overwrites it). [None] is a key that is absent; texts, dates and flags
    have the types of their columns, a [documentDate] given as a string having
    been converted by the function. *)
Record DocumentUpdate := {
  upd_id : option Z;
  upd_title : option jsstring;
  upd_description : option (option jsstring);
  upd_subject : option (option jsstring);
  upd_tags : option (option (list jsstring));
  upd_category : option jsstring;
  upd_department : option (option jsstring);
  upd_documentDate : option (option Z);
  upd_fileName : option jsstring;
  upd_originalName : option jsstring;
  upd_mimeType : option jsstring;
  upd_fileSize : option Z;
  upd_filePath : option jsstring;
  upd_extractedText : option (option jsstring);
  upd_ocrProcessed : option (option bool);
  upd_createdAt : option Z
}.

(** The table: its rows in insertion order and the next value of the
    [serial] key. *)
Record Db := { rows : list Document; next_id : Z }.

Definition empty_db : Db := {| rows := []; next_id := 1 |}.

(** [DatabaseStorage.createDocument]; [now] is both [new Date()] and the
    column default [defaultNow()]. *)
Definition createDocument (d : InsertDocument) (now : Z) (db : Db) : Document * Db :=
  let row := {|
    doc_id := next_id db;
    doc_title := ins_title d;
    doc_description := ins_description d;
    doc_subject := ins_subject d;
    doc_tags := ins_tags d;
    doc_category := ins_category d;
    doc_department := ins_department d;
    doc_documentDate := ins_documentDate d;
    doc_fileName := ins_fileName d;
    doc_originalName := ins_originalName d;
    doc_mimeType := ins_mimeType d;
    doc_fileSize := ins_fileSize d;
    doc_filePath := ins_filePath d;
    doc_extractedText := ins_extractedText d;
    doc_ocrProcessed := ins_ocrProcessed d;
    doc_createdAt := now;
    doc_updatedAt := now |} in
  (row, {| rows := rows db ++ [row]; next_id := (next_id db + 1)%Z |}).

(** [DatabaseStorage.getDocument] *)
Definition getDocument (id : Z) (db : Db) : option Document :=
  List.find (fun d => (doc_id d =? id)%Z) (rows db).

Definition or_keep {A : Type} (new : option A) (old : A) : A :=
  match new with Some v => v | None => old end.

(** [.set({ ...processedUpdates, updatedAt: new Date() })] on one row. *)
Definition apply_update (u : DocumentUpdate) (now : Z) (d : Document) : Document := {|
  doc_id := or_keep (upd_id u) (doc_id d);
  doc_title := or_keep (upd_title u) (doc_title d);
  doc_description := or_keep (upd_description u) (doc_description d);
  doc_subject := or_keep (upd_subject u) (doc_subject d);
  doc_tags := or_keep (upd_tags u) (doc_tags d);
  doc_category := or_keep (upd_category u) (doc_category d);
  doc_department := or_keep (upd_department u) (doc_department d);
  doc_documentDate := or_keep (upd_documentDate u) (doc_documentDate d);
  doc_fileName := or_keep (upd_fileName u) (doc_fileName d);
  doc_originalName := or_keep (upd_originalName u) (doc_originalName d);
  doc_mimeType := or_keep (upd_mimeType u) (doc_mimeType d);
  doc_fileSize := or_keep (upd_fileSize u) (doc_fileSize d);
  doc_filePath := or_keep (upd_filePath u) (doc_filePath d);
  doc_extractedText := or_keep (upd_extractedText u) (doc_extractedText d);
  doc_ocrProcessed := or_keep (upd_ocrProcessed u) (doc_ocrProcessed d);
  doc_createdAt := or_keep (upd_createdAt u) (doc_createdAt d);
  doc_updatedAt := now |}.

(** The rows after [UPDATE documents SET ... WHERE id = $1]. *)
Definition update_rows (id : Z) (u : DocumentUpdate) (now : Z) (l : list Document)
  : list Document :=
  List.map (fun d => if (doc_id d =? id)%Z then apply_update u now d else d) l.

(** The primary key refuses the statement when it would give the row with
    key [id] the key of another row. *)
Definition key_conflict (id : Z) (u : DocumentUpdate) (db : Db) : bool :=
  match upd_id u with
  | Some id' =>
      negb (id' =? id)%Z
      && existsb (fun d => (doc_id d =? id)%Z) (rows db)
      && existsb (fun d => (doc_id d =? id')%Z) (rows db)
  | None => false
  end.

(** A number of the update does not fit its [integer] column. *)
Definition out_of_range (u : DocumentUpdate) : bool :=
  match upd_id u with Some n => negb (int4 n) | None => false end
  || match upd_fileSize u with Some n => negb (int4 n) | None => false end.

(** [DatabaseStorage.updateDocument]: [UPDATE ... WHERE id = $1 RETURNING *]
    and the first row returned. [None] when the database refuses the
    statement, in which case the promise is rejected and the table is as
    before. *)
Definition updateDocument (id : Z) (u : DocumentUpdate) (now : Z) (db : Db)
  : option (option Document * Db) :=
  if out_of_range u || key_conflict id u db then None
  else
    Some (head (List.map (apply_update u now)
                  (List.filter (fun d => (doc_id d =? id)%Z) (rows db))),
          {| rows := update_rows id u now (rows db); next_id := next_id db |}).

(** [DatabaseStorage.deleteDocument] *)
Definition deleteDocument (id : Z) (db : Db) : bool * Db :=
  (existsb (fun d => (doc_id d =? id)%Z) (rows db),
   {| rows := List.filter (fun d => negb (doc_id d =? id)%Z) (rows db);
      next_id := next_id db |}).

Definition no_update : DocumentUpdate := {|
  upd_id := None; upd_title := None; upd_description := None; upd_subject := None;
  upd_tags := None; upd_category := None; upd_department := None;
  upd_documentDate := None; upd_fileName := None; upd_originalName := None;
  upd_mimeType := None; upd_fileSize := None; upd_filePath := None;
  upd_extractedText := None; upd_ocrProcessed := None; upd_createdAt := None |}.

End Storage.

(** ** Text extraction: [extractText] of [server/routes.ts] and
       [OCRQueue.extractTextAdvanced] of [server/queue.ts] *)

Module Extract.
Import Js.

(** What a [throw] carries: an [Error] object with its message, or any
    other value. *)
Inductive Thrown := ErrorObject (message : jsstring) | OtherValue.

Inductive Result := Ok (value : jsstring) | Throw (e : Thrown).

(** The outcomes of the external tools during one extraction: [sharp]
    (image preprocessing into a temporary PNG), [tesseract.recognize],
    [mammoth.extractRawText] and the removal of the temporary PNG, each by
    the path handed to it. [unlink] stands for
    [if (fs.existsSync(path)) fs.unlinkSync(path)]: [None] when the file is
    removed or was not there, [Some e] when [unlinkSync] throws [e]. *)
Record Tools := {
  sharp_ok : jsstring -> bool;
  recognize : jsstring -> Result;
  extractRawText : jsstring -> Result;
  unlink : jsstring -> option Thrown
}.

Definition mime_pdf : jsstring := lit "application/pdf".
Definition mime_jpeg : jsstring := lit "image/jpeg".
Definition mime_png : jsstring := lit "image/png".
Definition mime_doc : jsstring := lit "application/msword".
Definition mime_docx : jsstring :=
  lit "application/vnd.openxmlformats-officedocument.wordprocessingml.document".

(** The test of the "Word documents" branch. *)
Definition is_wordprocessingml (mimeType : jsstring) : bool :=
  includes mimeType (lit "wordprocessingml")
  || includes mimeType (lit "application/vnd.openxmlformats-officedocument.wordprocessingml").

(** The test of the "other Office documents" branch. *)
Definition is_other_office (mimeType : jsstring) : bool :=
  includes mimeType (lit "document") || includes mimeType (lit "word")
  || includes mimeType (lit "msword").

(** [error instanceof Error ? error.message : fallback] *)
Definition message_or (fallback : jsstring) (e : Thrown) : jsstring :=
  match e with ErrorObject msg => msg | OtherValue => fallback end.

Definition quick_pdf_text : jsstring :=
  lit "PDF detectado - processamento de texto em desenvolvimento".
Definition quick_office_sentinel : jsstring :=
  lit "Documento Office detectado - texto requer processamento adicional".
Definition quick_error_prefix : jsstring := lit "Erro na extração de texto: ".

(** The clean-up after a recognition:
    [if (processedPath !== filePath && fs.existsSync(processedPath))
       fs.unlinkSync(processedPath)]; [None] when it goes through. *)
Definition remove_processed (tools : Tools) (processedPath filePath : jsstring)
  : option Thrown :=
  if negb (eqb processedPath filePath) then unlink tools processedPath else None.

(** [extractText] of [server/routes.ts]: the quick pass. The outer
    [catch] turns every failure into a text. *)
Definition extractText (tools : Tools) (filePath mimeType : jsstring) : jsstring :=
  let body : Result :=
    if startsWith mimeType (lit "image/") then
      let processedPath :=
        if (eqb mimeType mime_png || eqb mimeType mime_jpeg) && sharp_ok tools filePath
        then filePath ++ lit "_processed.png" else filePath in
      match recognize tools processedPath with
      | Ok text =>
          match remove_processed tools processedPath filePath with
          | None => Ok (trim text)
          | Some e => Throw e
          end
      | Throw e => Throw e
      end
    else if eqb mimeType mime_pdf then Ok quick_pdf_text
    else if is_wordprocessingml mimeType then extractRawText tools filePath
    else if is_other_office mimeType then
      match extractRawText tools filePath with
      | Ok value => Ok value
      | Throw _ => Ok quick_office_sentinel
      end
    else Ok [] in
  match body with
  | Ok text => text
  | Throw e => quick_error_prefix ++ message_or (lit "Erro desconhecido") e
  end.

Definition advanced_pdf_text : jsstring :=
  lit "PDF processado - extração avançada de texto em desenvolvimento".
Definition advanced_office_sentinel : jsstring :=
  lit "Documento Office - formato não suportado para extração automática".

(** [OCRQueue.extractTextAdvanced]: the advanced pass. The outer [catch]
    logs and rethrows, also what the removal of the temporary PNG throws. *)
Definition extractTextAdvanced (tools : Tools) (filePath mimeType : jsstring) : Result :=
  if startsWith mimeType (lit "image/") then
    let processedPath :=
      if sharp_ok tools filePath then filePath ++ lit "_processed.png" else filePath in
    match recognize tools processedPath with
    | Ok text =>
        match remove_processed tools processedPath filePath with
        | None => Ok (Clean.cleanOCRText text)
        | Some e => Throw e
        end
    | Throw e => Throw e
    end
  else if eqb mimeType mime_pdf then Ok advanced_pdf_text
  else if is_wordprocessingml mimeType then extractRawText tools filePath
  else if is_other_office mimeType then
    match extractRawText tools filePath with
    | Ok value => Ok value
    | Throw _ => Ok advanced_office_sentinel
    end
  else Ok [].

End Extract.

(** ** [server/queue.ts]: the OCR queue

    JavaScript runs one synchronous segment at a time; an [async] function
    gives up control at each [await]. The job objects live in a heap and the
    array [this.queue] holds references to them, so that the worker, which
    keeps a reference to its job across an [await], and the array see the same
    object. *)

Module Queue.
Import Js Storage Extract.

Inductive Status := Pending | Processing | Completed | Failed.

Definition Status_eqb (a b : Status) : bool :=
  match a, b with
  | Pending, Pending | Processing, Processing
  | Completed, Completed | Failed, Failed => true
  | _, _ => false
  end.

Record QueueJob := {
  job_id : jsstring;
  job_documentId : Z;
  job_filePath : jsstring;
  job_mimeType : jsstring;
  job_status : Status;
  job_createdAt : Z;
  job_processedAt : option Z;
  job_error : option jsstring
}.

(** Where [processQueue] is suspended: not running, at
    [await this.extractTextAdvanced(...)] or at
    [await storage.updateDocument(...)], holding its [job]; in the last case
    the update [{ extractedText, ocrProcessed: true }] is on its way to the
    store, stamped with the time of the call. *)
Inductive Worker :=
| Idle
| AwaitExtract (job : nat)
| AwaitUpdate (job : nat) (extractedText : jsstring) (sentAt : Z).

Record State := {
  heap : list QueueJob;
  queue : list nat;
  processing : bool;
  worker : Worker;
  db : Db
}.

Definition init : State :=
  {| heap := []; queue := []; processing := false; worker := Idle; db := empty_db |}.

(** Decimal text of an integer, as a template literal prints it. *)
Definition show_int (z : Z) : jsstring := lit (NilEmpty.string_of_int (Z.to_int z)).

(** [`${documentId}-${Date.now()}`] *)
Definition make_job_id (documentId now : Z) : jsstring :=
  show_int documentId ++ lit "-" ++ show_int now.

Definition set_status (st : Status) (j : QueueJob) : QueueJob := {|
  job_id := job_id j; job_documentId := job_documentId j;
  job_filePath := job_filePath j; job_mimeType := job_mimeType j;
  job_status := st; job_createdAt := job_createdAt j;
  job_processedAt := job_processedAt j; job_error := job_error j |}.

(** [job.status = 'completed'; job.processedAt = new Date()] *)
Definition mark_completed (now : Z) (j : QueueJob) : QueueJob := {|
  job_id := job_id j; job_documentId := job_documentId j;
  job_filePath := job_filePath j; job_mimeType := job_mimeType j;
  job_status := Completed; job_createdAt := job_createdAt j;
  job_processedAt := Some now; job_error := job_error j |}.

(** The [catch] block: [job.status = 'failed'], [job.error] and
    [job.processedAt]. *)
Definition mark_failed (e : Thrown) (now : Z) (j : QueueJob) : QueueJob := {|
  job_id := job_id j; job_documentId := job_documentId j;
  job_filePath := job_filePath j; job_mimeType := job_mimeType j;
  job_status := Failed; job_createdAt := job_createdAt j;
  job_processedAt := Some now;
  job_error := Some (message_or (lit "Unknown error") e) |}.

Definition status_at (h : list QueueJob) (r : nat) : option Status :=
  job_status <$> h !! r.

Definition has_status (h : list QueueJob) (st : Status) (r : nat) : bool :=
  match h !! r with
  | Some j => Status_eqb (job_status j) st
  | None => false
  end.

(** [this.queue.find(j => j.status === 'pending')] *)
Definition find_pending (h : list QueueJob) (q : list nat) : option nat :=
  List.find (has_status h Pending) q.

Definition one_hour : Z := (60 * 60 * 1000)%Z.

(** The predicate of the clean-up filter, with [oneHourAgo] as [cutoff]. *)
Definition keep (h : list QueueJob) (cutoff : Z) (r : nat) : bool :=
  match h !! r with
  | Some j =>
      Status_eqb (job_status j) Pending
      || Status_eqb (job_status j) Processing
      || match job_processedAt j with
         | Some t => (cutoff <? t)%Z
         | None => false
         end
  | None => false
  end.

(** The clean-up at the end of [processQueue]. *)
Definition cleanup (now : Z) (h : list QueueJob) (q : list nat) : list nat :=
  List.filter (keep h (now - one_hour)%Z) q.

(** The end of [processQueue], after the loop: the clean-up, then
    [this.processing = false]. *)
Definition finish (now : Z) (s : State) : State :=
  {| heap := heap s;
     queue := cleanup now (heap s) (queue s);
     processing := false;
     worker := Idle;
     db := db s |}.

(** The head of the [while] loop, run to the next [await] or to the end
    of [processQueue]: take the first pending job and start its extraction,
    or leave the loop and finish. *)
Definition loop_head (now : Z) (s : State) : State :=
  match (if (0 <? length (queue s))%nat then find_pending (heap s) (queue s) else None) with
  | Some r =>
      {| heap := alter (set_status Processing) r (heap s);
         queue := queue s;
         processing := processing s;
         worker := AwaitExtract r;
         db := db s |}
  | None => finish now s
  end.

(** [OCRQueue.processQueue], from its call to its first [await] (or to
    its end). *)
Definition processQueue (now : Z) (s : State) : State :=
  if processing s then s
  else loop_head now
         {| heap := heap s; queue := queue s; processing := true;
            worker := worker s; db := db s |}.

(** [OCRQueue.addJob]; the new job object gets the next heap address. *)
Definition addJob (documentId : Z) (filePath mimeType : jsstring) (now : Z) (s : State)
  : jsstring * State :=
  let job := {|
    job_id := make_job_id documentId now;
    job_documentId := documentId;
    job_filePath := filePath;
    job_mimeType := mimeType;
    job_status := Pending;
    job_createdAt := now;
    job_processedAt := None;
    job_error := None |} in
  let s1 := {| heap := heap s ++ [job];
               queue := queue s ++ [length (heap s)];
               processing := processing s;
               worker := worker s;
               db := db s |} in
  (job_id job, if negb (processing s1) then processQueue now s1 else s1).

(** The update the worker sends to the store. *)
Definition ocr_update (extractedText : jsstring) : DocumentUpdate := {|
  upd_id := None; upd_title := None; upd_description := None; upd_subject := None;
  upd_tags := None; upd_category := None; upd_department := None;
  upd_documentDate := None; upd_fileName := None; upd_originalName := None;
  upd_mimeType := None; upd_fileSize := None; upd_filePath := None;
  upd_extractedText := Some (Some extractedText);
  upd_ocrProcessed := Some (Some true);
  upd_createdAt := None |}.

(** [processQueue] resumed when the extraction settles: on success it
    sends the update to the store and waits for the answer; on failure it runs
    the [catch] block and goes round the loop. *)
Definition resume_extract (tools : Tools) (now : Z) (s : State) : State :=
  match worker s with
  | AwaitExtract r =>
      match heap s !! r with
      | Some j =>
          match extractTextAdvanced tools (job_filePath j) (job_mimeType j) with
          | Ok extractedText =>
              {| heap := heap s; queue := queue s; processing := processing s;
                 worker := AwaitUpdate r extractedText now;
                 db := db s |}
          | Throw e =>
              loop_head now
                {| heap := alter (mark_failed e now) r (heap s);
                   queue := queue s; processing := processing s;
                   worker := worker s; db := db s |}
          end
      | None => s
      end
  | _ => s
  end.

(** [processQueue] resumed when the promise of [storage.updateDocument]
    is fulfilled: the store has run the update on the table as it then is, the
    job is completed and the loop goes on. (The update of the worker sets no
    key, so the store never refuses it; a refused statement fulfils no
    promise.) *)
Definition resume_update (now : Z) (s : State) : State :=
  match worker s with
  | AwaitUpdate r extractedText sentAt =>
      match heap s !! r with
      | Some j =>
          match updateDocument (job_documentId j) (ocr_update extractedText) sentAt (db s) with
          | Some (_, db') =>
              loop_head now
                {| heap := alter (mark_completed now) r (heap s);
                   queue := queue s; processing := processing s;
                   worker := worker s; db := db' |}
          | None => s
          end
      | None => s
      end
  | _ => s
  end.

(** [processQueue] resumed when the promise of [storage.updateDocument]
    is rejected with [e] (the store is down, the connection is lost): the same
    [catch] block as for a failed extraction; the table is as it was. *)
Definition reject_update (e : Thrown) (now : Z) (s : State) : State :=
  match worker s with
  | AwaitUpdate r _ _ =>
      loop_head now
        {| heap := alter (mark_failed e now) r (heap s);
           queue := queue s; processing := processing s;
           worker := worker s; db := db s |}
  | _ => s
  end.

(** What can happen to the queue, each with the clock reading of its
    segment. *)
Inductive Event :=
| AddJob (documentId : Z) (filePath mimeType : jsstring) (now : Z)
| ExtractDone (tools : Tools) (now : Z)
| UpdateDone (now : Z)
| UpdateFailed (e : Thrown) (now : Z).

Definition step (ev : Event) (s : State) : State :=
  match ev with
  | AddJob d p m now => snd (addJob d p m now s)
  | ExtractDone tools now => resume_extract tools now s
  | UpdateDone now => resume_update now s
  | UpdateFailed e now => reject_update e now s
  end.

(** The same queue beside another table. *)
Definition with_db (s : State) (d : Db) : State :=
  {| heap := heap s; queue := queue s; processing := processing s;
     worker := worker s; db := d |}.

(** The clock reading of an event. *)
Definition clock (ev : Event) : Z :=
  match ev with
  | AddJob _ _ _ now | ExtractDone _ now | UpdateDone now | UpdateFailed _ now => now
  end.

(** The events in the order they happen. *)
Definition run (evs : list Event) (s : State) : State :=
  fold_left (fun s ev => step ev s) evs s.

Definition reachable (s : State) : Prop := exists evs, s = run evs init.

(** [this.queue.find(j => j.id === jobId)], as the address of the job. *)
Definition find_job (s : State) (jobId : jsstring) : option nat :=
  List.find (fun r => match heap s !! r with
                      | Some j => eqb (job_id j) jobId
                      | None => false
                      end) (queue s).

(** [OCRQueue.getJobStatus] *)
Definition getJobStatus (s : State) (jobId : jsstring) : option QueueJob :=
  match find_job s jobId with
  | Some r => heap s !! r
  | None => None
  end.

Record QueueStatus := {
  qs_total : nat; qs_pending : nat; qs_processing : nat;
  qs_completed : nat; qs_failed : nat
}.

Definition count_status (s : State) (st : Status) : nat :=
  length (List.filter (has_status (heap s) st) (queue s)).

(** [OCRQueue.getQueueStatus] *)
Definition getQueueStatus (s : State) : QueueStatus := {|
  qs_total := length (queue s);
  qs_pending := count_status s Pending;
  qs_processing := count_status s Processing;
  qs_completed := count_status s Completed;
  qs_failed := count_status s Failed |}.


Definition is_open (st : Status) : bool :=
  Status_eqb st Pending || Status_eqb st Processing.

Definition worker_job (w : Worker) : option nat :=
  match w with
  | Idle => None
  | AwaitExtract r | AwaitUpdate r _ _ => Some r
  end.

Definition is_AddJob (ev : Event) : bool :=
  match ev with AddJob _ _ _ _ => true | _ => false end.

(** What holds of every state the queue can reach. *)
Record invariant (s : State) : Prop := {
  inv_nodup : NoDup (queue s);
  inv_bound : forall r, In r (queue s) -> (r < length (heap s))%nat;
  inv_flag : processing s = true <-> worker s <> Idle;
  inv_worker : forall r, worker_job (worker s) = Some r ->
               In r (queue s) /\ status_at (heap s) r = Some Processing;
  inv_processing : forall r, status_at (heap s) r = Some Processing ->
                   worker_job (worker s) = Some r;
  inv_pending : forall r, status_at (heap s) r = Some Pending ->
                In r (queue s) /\ worker s <> Idle
}.

(** The state in which the loop head is entered: the flag is set and no
    job is being processed. *)
Record at_loop_head (s : State) : Prop := {
  lh_nodup : NoDup (queue s);
  lh_bound : forall r, In r (queue s) -> (r < length (heap s))%nat;
  lh_flag : processing s = true;
  lh_none : forall r, status_at (heap s) r <> Some Processing;
  lh_pending : forall r, status_at (heap s) r = Some Pending -> In r (queue s)
}.


End Queue.

(** ** [server/routes.ts]: upload and reprocess *)

Module Routes.
Import Js Storage Extract Queue.

(** The media types multer's [fileFilter] lets through. *)
Definition allowedTypes : list jsstring :=
  [ lit "application/pdf";
    lit "image/jpeg";
    lit "image/png";
    lit "application/msword";
    lit "application/vnd.openxmlformats-officedocument.wordprocessingml.document";
    lit "application/vnd.ms-excel";
    lit "application/vnd.openxmlformats-officedocument.spreadsheetml.sheet";
    lit "application/vnd.ms-powerpoint";
    lit "application/vnd.openxmlformats-officedocument.presentationml.presentation" ].

(** [allowedTypes.includes(file.mimetype)] *)
Definition fileFilter (mimetype : jsstring) : bool :=
  existsb (eqb mimetype) allowedTypes.

(** An uploaded file as multer hands it over. *)
Record File := {
  originalname : jsstring;
  mimetype : jsstring;
  size : Z
}.

(** The result of [metadataSchema.parse]. *)
Record Metadata := {
  meta_title : jsstring;
  meta_description : option jsstring;
  meta_subject : option jsstring;
  meta_category : jsstring;
  meta_department : option jsstring;
  meta_documentDate : option Z;
  meta_tags : option (list jsstring)
}.

Inductive Body :=
| Message (message : jsstring)
| Documents (documents : list Document)
| Queued (message jobId : jsstring).

Record Response := { res_status : Z; res_body : Body }.

(** [path.join(uploadDir, fileName)] for a plain file name. *)
Definition upload_path (uploadDir : jsstring) (now : Z) (file : File) : jsstring :=
  uploadDir ++ lit "/" ++ (show_int now ++ lit "-" ++ originalname file).

(** [!quickText]: a string is falsy when it is empty. *)
Definition falsy (s : jsstring) : bool :=
  match s with [] => true | _ => false end.

(** The condition under which the upload adds the document to the OCR queue:
    [file.mimetype.startsWith("image/") ||
     (file.mimetype === "application/pdf" && (!quickText || quickText.length < 100))]. *)
Definition needs_advanced (mimetype quickText : jsstring) : bool :=
  startsWith mimetype (lit "image/")
  || (eqb mimetype mime_pdf && (falsy quickText || (length quickText <? 100)%nat)).

(** The body of the loop over the uploaded files: the quick extraction, the
    new row, and the enqueue if needed. The whole iteration reads the clock as
    [now]. *)
Definition upload_file (uploadDir : jsstring) (meta : Metadata) (tools : Tools) (now : Z)
    (file : File) (s : State) : Document * State :=
  let fileName := show_int now ++ lit "-" ++ originalname file in
  let filePath := upload_path uploadDir now file in
  let quickText := extractText tools filePath (mimetype file) in
  let (document, db') :=
    createDocument
      {| ins_title := meta_title meta;
         ins_description := meta_description meta;
         ins_subject := meta_subject meta;
         ins_tags := meta_tags meta;
         ins_category := meta_category meta;
         ins_department := meta_department meta;
         ins_documentDate := meta_documentDate meta;
         ins_fileName := fileName;
         ins_originalName := originalname file;
         ins_mimeType := mimetype file;
         ins_fileSize := size file;
         ins_filePath := filePath;
         ins_extractedText := Some quickText;
         ins_ocrProcessed := Some false |} now (db s) in
  let s1 := {| heap := heap s; queue := queue s; processing := processing s;
               worker := worker s; db := db' |} in
  (document,
   if needs_advanced (mimetype file) quickText
   then snd (addJob (doc_id document) filePath (mimetype file) now s1)
   else s1).

(** The loop of [POST /api/documents]; each file comes with the outcomes
    of the tools on it and the clock of its iteration. *)
Fixpoint upload_files (uploadDir : jsstring) (meta : Metadata)
    (files : list (File * Tools * Z)) (s : State) : list Document * State :=
  match files with
  | [] => ([], s)
  | (file, tools, now) :: rest =>
      let (document, s1) := upload_file uploadDir meta tools now file s in
      let (documents, s2) := upload_files uploadDir meta rest s1 in
      (document :: documents, s2)
  end.

(** [POST /api/documents] for metadata that passed validation. *)
Definition upload (uploadDir : jsstring) (meta : Metadata)
    (files : list (File * Tools * Z)) (s : State) : Response * State :=
  match files with
  | [] => ({| res_status := 400; res_body := Message (lit "No files uploaded") |}, s)
  | _ =>
      let (documents, s') := upload_files uploadDir meta files s in
      ({| res_status := 200; res_body := Documents documents |}, s')
  end.

(** [POST /api/documents/:id/reprocess]; [existsSync] is [fs.existsSync]
    and [id] the parsed parameter, a number. A row that is found has a key
    within [integer]; when none is found for an [id] outside [integer], the
    lookup has raised and the [catch] answers 500. *)
Definition reprocess (existsSync : jsstring -> bool) (id : Z) (now : Z) (s : State)
    : Response * State :=
  match getDocument id (db s) with
  | None =>
      if int4 id
      then ({| res_status := 404; res_body := Message (lit "Document not found") |}, s)
      else ({| res_status := 500; res_body := Message (lit "Reprocessing failed") |}, s)
  | Some document =>
      if negb (existsSync (doc_filePath document)) then
        ({| res_status := 404; res_body := Message (lit "File not found on disk") |}, s)
      else
        let (jobId, s') :=
          addJob (doc_id document) (doc_filePath document) (doc_mimeType document) now s in
        ({| res_status := 200;
            res_body := Queued (lit "Document queued for reprocessing") jobId |}, s')
  end.

(** The number of job records created between two states. *)
Definition jobs_created (s s' : State) : nat := (length (heap s') - length (heap s))%nat.

End Routes.

(** ** [server/storage.ts]: [searchDocuments]

    The query runs in the database. Its operators are modelled after
    PostgreSQL: conditions are three-valued ([None] is NULL) and a row is
    selected when the WHERE clause is true; [ILIKE] is [LIKE] up to the
    database's lower-casing; [ORDER BY ... DESC] puts NULL first and [ASC]
    puts it last, and rows that tie on the column of ORDER BY come in whatever
    order the executor of that query delivers them. *)

Module Search.
Import Js Storage.

Record SearchParams := {
  sp_query : option jsstring;
  sp_category : option jsstring;
  sp_department : option jsstring;
  sp_dateFrom : option jsstring;
  sp_dateTo : option jsstring;
  sp_page : Z;
  sp_limit : Z;
  sp_sortBy : jsstring
}.

(** [if (x)] on an optional string: [undefined] and the empty string are
    falsy. *)
Definition provided (x : option jsstring) : option jsstring :=
  match x with
  | Some (c :: r) => Some (c :: r)
  | _ => None
  end.

(** *** LIKE patterns *)

Inductive LikeTok := AnySeq | AnyOne | Lit (c : N).

Definition percent : N := 37.
Definition underscore : N := 95.
Definition backslash : N := 92.

(** [%] matches any sequence, [_] any one character, and a backslash makes
    the next character literal. (A pattern ending in a lone backslash is an
    error in the database; the patterns built below end in [%].) *)
Fixpoint like_tokens (p : jsstring) : list LikeTok :=
  match p with
  | [] => []
  | c :: r =>
      if c =? backslash then
        match r with
        | [] => []
        | d :: r' => Lit d :: like_tokens r'
        end
      else if c =? percent then AnySeq :: like_tokens r
      else if c =? underscore then AnyOne :: like_tokens r
      else Lit c :: like_tokens r
  end.

Section Engine.

(** The lower-casing of the database's locale, the order of its collation
    on [text], and [new Date(string)] ([None] for an invalid date, which
    makes the query fail). *)
Variable lower : N -> N.
Variable collate_le : jsstring -> jsstring -> bool.
Variable parseDate : jsstring -> option Z.

(** The order in which the executor of a query delivers the selected rows
    to the sort: some rearrangement of them, which may differ from one query to
    the next. *)
Variable scan : list Document -> list Document.

Fixpoint like_match (toks : list LikeTok) (s : jsstring) : bool :=
  match toks with
  | [] => match s with [] => true | _ :: _ => false end
  | AnySeq :: t =>
      (fix any (s : jsstring) : bool :=
         like_match t s || match s with [] => false | _ :: s' => any s' end) s
  | AnyOne :: t => match s with [] => false | _ :: s' => like_match t s' end
  | Lit c :: t =>
      match s with
      | [] => false
      | d :: s' => (lower c =? lower d) && like_match t s'
      end
  end.

(** [ilike(column, pattern)] *)
Definition ilike (column : option jsstring) (pattern : jsstring) : option bool :=
  match column with
  | None => None
  | Some v => Some (like_match (like_tokens pattern) v)
  end.

(** SQL [OR] and [AND] *)
Definition sql_or (a b : option bool) : option bool :=
  match a, b with
  | Some true, _ | _, Some true => Some true
  | Some false, Some false => Some false
  | _, _ => None
  end.

Definition sql_and (a b : option bool) : option bool :=
  match a, b with
  | Some false, _ | _, Some false => Some false
  | Some true, Some true => Some true
  | _, _ => None
  end.

(** [eq(column, value)], [gte(column, value)], [lte(column, value)] *)
Definition sql_eq (column : option jsstring) (value : jsstring) : option bool :=
  match column with None => None | Some v => Some (eqb v value) end.

Definition sql_gte (column : option Z) (value : Z) : option bool :=
  match column with None => None | Some v => Some (value <=? v)%Z end.

Definition sql_lte (column : option Z) (value : Z) : option bool :=
  match column with None => None | Some v => Some (v <=? value)%Z end.

(** [`%${query}%`] *)
Definition contains_pattern (query : jsstring) : jsstring :=
  percent :: query ++ [percent].

(** The condition pushed for a free-text query. *)
Definition query_condition (query : jsstring) (d : Document) : option bool :=
  sql_or (ilike (Some (doc_title d)) (contains_pattern query))
    (sql_or (ilike (doc_description d) (contains_pattern query))
       (sql_or (ilike (doc_subject d) (contains_pattern query))
          (ilike (doc_extractedText d) (contains_pattern query)))).

Definition Condition := Document -> option bool.

(** One optional condition of the WHERE clause. *)
Definition push {A : Type} (x : option A) (c : A -> Condition) : list Condition :=
  match x with Some v => [c v] | None => [] end.

(** [whereConditions], given the parsed date bounds. *)
Definition whereConditions (p : SearchParams) (from to : option Z) : list Condition :=
  push (provided (sp_query p)) query_condition
  ++ push (provided (sp_category p)) (fun c d => sql_eq (Some (doc_category d)) c)
  ++ push (provided (sp_department p)) (fun c d => sql_eq (doc_department d) c)
  ++ push from (fun t d => sql_gte (doc_documentDate d) t)
  ++ push to (fun t d => sql_lte (doc_documentDate d) t).

(** [and(...whereConditions)] on a row; with no condition there is no WHERE
    clause. *)
Definition whereClause (conds : list Condition) (d : Document) : option bool :=
  fold_right (fun c acc => sql_and (c d) acc) (Some true) conds.

Definition selected (conds : list Condition) (d : Document) : bool :=
  match whereClause conds d with Some true => true | _ => false end.

(** *** ORDER BY *)

Definition date_desc_le (a b : Document) : bool :=
  match doc_documentDate a, doc_documentDate b with
  | None, _ => true
  | Some _, None => false
  | Some x, Some y => (y <=? x)%Z
  end.

Definition date_asc_le (a b : Document) : bool :=
  match doc_documentDate a, doc_documentDate b with
  | _, None => true
  | None, Some _ => false
  | Some x, Some y => (x <=? y)%Z
  end.

Definition title_asc_le (a b : Document) : bool := collate_le (doc_title a) (doc_title b).

Definition size_desc_le (a b : Document) : bool := (doc_fileSize b <=? doc_fileSize a)%Z.

Definition created_desc_le (a b : Document) : bool :=
  (doc_createdAt b <=? doc_createdAt a)%Z.

(** The [switch (sortBy)]: which row may come before which. *)
Definition orderBy (sortBy : jsstring) : Document -> Document -> bool :=
  if eqb sortBy (lit "date-desc") then date_desc_le
  else if eqb sortBy (lit "date-asc") then date_asc_le
  else if eqb sortBy (lit "title") then title_asc_le
  else if eqb sortBy (lit "size") then size_desc_le
  else created_desc_le.

(** The sort of the database, applied to the rows as they are delivered:
    an insertion sort, which keeps rows that compare equal in the order of
    their delivery. *)
Fixpoint insert_by (le : Document -> Document -> bool) (x : Document) (l : list Document)
  : list Document :=
  match l with
  | [] => [x]
  | y :: l' => if le x y then x :: l else y :: insert_by le x l'
  end.

Definition order_by (le : Document -> Document -> bool) (l : list Document) : list Document :=
  fold_right (insert_by le) [] l.


(** The date bound of a filter: absent, parsed, or invalid. *)
Definition date_bound (x : option jsstring) : option (option Z) :=
  match provided x with
  | None => Some None
  | Some str => match parseDate str with Some t => Some (Some t) | None => None end
  end.

(** [DatabaseStorage.searchDocuments]: the page of documents and the total
    count; [None] when a date filter does not parse. The route hands over
    [page >= 1] and [1 <= limit <= 100]. The page comes from the query with
    ORDER BY, LIMIT and OFFSET, the total from the separate count query. *)
Definition searchDocuments (p : SearchParams) (d : Db) : option (list Document * nat) :=
  match date_bound (sp_dateFrom p), date_bound (sp_dateTo p) with
  | Some from, Some to =>
      let offset := ((sp_page p - 1) * sp_limit p)%Z in
      let conds := whereConditions p from to in
      let matching := List.filter (selected conds) (rows d) in
      Some (take (Z.to_nat (sp_limit p))
              (drop (Z.to_nat offset)
                 (order_by (orderBy (sp_sortBy p)) (scan matching))),
            length matching)
  | _, _ => None
  end.

(** *** The filters in the words of the specification *)

(** [query] is a case-insensitive substring of [v]. *)
Definition ci_substring (query v : jsstring) : bool :=
  includes (List.map lower v) (List.map lower query).

(** The text fields a free-text query is matched against. *)
Definition text_fields (d : Document) : list (option jsstring) :=
  [Some (doc_title d); doc_description d; doc_subject d; doc_extractedText d].

Definition is_meta (c : N) : bool :=
  (c =? percent) || (c =? underscore) || (c =? backslash).

(** The free-text filter as the database applies it: the pattern matches
    one of the text fields. *)
Definition query_matches (query : jsstring) (d : Document) : Prop :=
  exists v, In (Some v) (text_fields d)
            /\ like_match (like_tokens (contains_pattern query)) v = true.

(** The free-text filter as the specification words it. *)
Definition query_is_substring (query : jsstring) (d : Document) : Prop :=
  exists v, In (Some v) (text_fields d) /\ ci_substring query v = true.

(** A document satisfies every provided filter. *)
Definition satisfies (p : SearchParams) (d : Document) : Prop :=
  (forall q, provided (sp_query p) = Some q -> query_matches q d)
  /\ (forall c, provided (sp_category p) = Some c -> doc_category d = c)
  /\ (forall c, provided (sp_department p) = Some c -> doc_department d = Some c)
  /\ (forall str, provided (sp_dateFrom p) = Some str ->
        exists t0 t, parseDate str = Some t0 /\ doc_documentDate d = Some t /\ (t0 <= t)%Z)
  /\ (forall str, provided (sp_dateTo p) = Some str ->
        exists t1 t, parseDate str = Some t1 /\ doc_documentDate d = Some t /\ (t <= t1)%Z).


End Engine.

(** Lower-casing of ASCII letters, and the order of strings by code
    units: the behaviour of a database in the C locale. *)
Definition ascii_lower (c : N) : N :=
  if (65 <=? c) && (c <=? 90) then c + 32 else c.

Fixpoint codeunit_le (a b : jsstring) : bool :=
  match a, b with
  | [], _ => true
  | _ :: _, [] => false
  | x :: a', y :: b' => (x <? y) || ((x =? y) && codeunit_le a' b')
  end.

(** Two deliveries: in table order, and in reverse table order. *)
Definition table_order (l : list Storage.Document) : list Storage.Document := l.
Definition reverse_order (l : list Storage.Document) : list Storage.Document := rev l.

End Search.

(** ** Sample inputs *)

Module Sample.
Import Js Storage Extract Queue.

(** Every tool succeeds and finds [text]. *)
Definition tools_ok (text : jsstring) : Tools :=
  {| sharp_ok := fun _ => true;
     recognize := fun _ => Ok text;
     extractRawText := fun _ => Ok text;
     unlink := fun _ => None |}.

(** Recognition and raw-text extraction throw [new Error(msg)]. *)
Definition tools_fail (msg : jsstring) : Tools :=
  {| sharp_ok := fun _ => true;
     recognize := fun _ => Throw (ErrorObject msg);
     extractRawText := fun _ => Throw (ErrorObject msg);
     unlink := fun _ => None |}.

Definition photo_path : jsstring := lit "/app/uploads/1700000000000-photo.jpg".
Definition docx_path : jsstring := lit "/app/uploads/1700000000000-contract.docx".
Definition doc_path : jsstring := lit "/app/uploads/1700000000000-letter.doc".


(** Two jobs for different documents; the first one fails. *)
Definition two_jobs : list Event :=
  [AddJob 7 photo_path mime_jpeg 1700000000500;
   AddJob 8 photo_path mime_jpeg 1700000000500;
   ExtractDone (tools_fail (lit "tesseract: no such file")) 1700000002000].

(** An upload of one JPEG photo into the empty system; the quick OCR finds
    120 characters. *)
Definition uploadDir : jsstring := lit "/app/uploads".

Definition meta0 : Routes.Metadata :=
  {| Routes.meta_title := lit "Contract A";
     Routes.meta_description := None;
     Routes.meta_subject := None;
     Routes.meta_category := lit "contrato";
     Routes.meta_department := None;
     Routes.meta_documentDate := None;
     Routes.meta_tags := None |}.

Definition photo : Routes.File :=
  {| Routes.originalname := lit "photo.jpg";
     Routes.mimetype := mime_jpeg;
     Routes.size := 2048 |}.

Definition long_text : jsstring := List.repeat 97 120.

Definition after_photo : State :=
  snd (Routes.upload_file uploadDir meta0 (tools_ok long_text) 1700000000000 photo init).

(** The job of that upload, as the worker holds it. *)
Definition photo_job : QueueJob :=
  {| job_id := lit "1-1700000000000";
     job_documentId := 1;
     job_filePath := lit "/app/uploads/1700000000000-photo.jpg";
     job_mimeType := mime_jpeg;
     job_status := Processing;
     job_createdAt := 1700000000000;
     job_processedAt := None;
     job_error := None |}.

(** The advanced pass on the photo succeeds and the job completes. *)
Definition photo_done : State :=
  run [ExtractDone (tools_ok long_text) 1700000001000; UpdateDone 1700000002000]
      after_photo.

(** Two hours after the photo's job completed. *)
Definition two_hours_later : Z := 1700000002000 + 2 * one_hour.

(** A small table for the search, in the C locale. *)
Definition row (id : Z) (title : string) (category : string) (department : option string)
    (date : option Z) (fileSize created : Z) : Document :=
  {| doc_id := id; doc_title := lit title; doc_description := None; doc_subject := None;
     doc_tags := None; doc_category := lit category;
     doc_department := option_map lit department; doc_documentDate := date;
     doc_fileName := lit "f"; doc_originalName := lit "f"; doc_mimeType := mime_pdf;
     doc_fileSize := fileSize; doc_filePath := lit "/app/uploads/f";
     doc_extractedText := None; doc_ocrProcessed := Some false;
     doc_createdAt := created; doc_updatedAt := created |}.

Definition doc_abc : Document :=
  row 1 "abc" "contrato" (Some "legal"%string) (Some 1704067200000%Z) 300 1700000000000.
Definition doc_memo : Document :=
  row 2 "Memo" "memo" None None 900 1700000100000.
Definition doc_plan : Document :=
  row 3 "Zoning plan" "contrato" (Some "urban"%string) (Some 1718000000000%Z) 100 1700000200000.

Definition table : Db := {| rows := [doc_abc; doc_memo; doc_plan]; next_id := 4 |}.

(** [new Date(string)] on the two date strings used below. *)
Definition parse_sample (str : jsstring) : option Z :=
  if eqb str (lit "2024-01-01") then Some 1704067200000%Z
  else if eqb str (lit "2024-12-31") then Some 1735603200000%Z
  else None.

Definition search (query : option string) (sortBy : string) : Search.SearchParams :=
  {| Search.sp_query := option_map lit query; Search.sp_category := None;
     Search.sp_department := None; Search.sp_dateFrom := None; Search.sp_dateTo := None;
     Search.sp_page := 1; Search.sp_limit := 10; Search.sp_sortBy := lit sortBy |}.

End Sample.

(** ** Further properties: definitions *)

Module QueueLaws.
Import Js Storage Extract Queue.

(** The queue lists the jobs in the order of their creation, and the
    pending jobs are the youngest ones: a job created after a pending job is
    pending too. *)
Record fifo_invariant (s : State) : Prop := {
  fi_sorted : StronglySorted lt (queue s);
  fi_order : forall r1 r2 st, (r1 < r2)%nat ->
             status_at (heap s) r1 = Some Pending ->
             status_at (heap s) r2 = Some st -> st = Pending
}.

(** Three enqueues in a row. *)
Definition three_jobs : list Event :=
  [AddJob 7 Sample.photo_path mime_jpeg 1700000000500;
   AddJob 8 Sample.photo_path mime_jpeg 1700000000600;
   AddJob 9 Sample.photo_path mime_pdf 1700000000700].

End QueueLaws.

Module CleanLaws.
Import Js Clean.

(** The code units that carry text: in the class and not white space. *)
Definition visible (c : N) : bool := in_class c && negb (is_ws c).

Definition not_ws (c : N) : bool := negb (is_ws c).

End CleanLaws.

Module StorageLaws.
Import Js Storage.

(** The primary key of the table: the ids of the rows are pairwise
    distinct and below the next value of the sequence. *)
Definition db_wf (d : Db) : Prop :=
  List.NoDup (List.map doc_id (rows d))
  /\ Forall (fun row => (doc_id row < next_id d)%Z) (rows d).

(** An insert with the given title and nothing else of interest. *)
Definition sample_insert : InsertDocument :=
  {| ins_title := lit "Invoice 12"; ins_description := None; ins_subject := None;
     ins_tags := None; ins_category := lit "financeiro"; ins_department := None;
     ins_documentDate := None; ins_fileName := lit "1700000300000-invoice.pdf";
     ins_originalName := lit "invoice.pdf"; ins_mimeType := Extract.mime_pdf;
     ins_fileSize := 5120; ins_filePath := lit "/app/uploads/1700000300000-invoice.pdf";
     ins_extractedText := Some Extract.quick_pdf_text;
     ins_ocrProcessed := Some false |}.

(** The update [{ id: key }]. *)
Definition set_key (key : Z) : DocumentUpdate := {|
  upd_id := Some key; upd_title := None; upd_description := None; upd_subject := None;
  upd_tags := None; upd_category := None; upd_department := None;
  upd_documentDate := None; upd_fileName := None; upd_originalName := None;
  upd_mimeType := None; upd_fileSize := None; upd_filePath := None;
  upd_extractedText := None; upd_ocrProcessed := None; upd_createdAt := None |}.

End StorageLaws.

Module SearchLaws.
Import Js Storage Search.

(** The same search on another page or with another page size. *)
Definition with_page (p : SearchParams) (page limit : Z) : SearchParams :=
  {| sp_query := sp_query p; sp_category := sp_category p;
     sp_department := sp_department p; sp_dateFrom := sp_dateFrom p;
     sp_dateTo := sp_dateTo p; sp_page := page; sp_limit := limit;
     sp_sortBy := sp_sortBy p |}.

(** The rows of one page: [.limit(limit).offset((page - 1) * limit)]. *)
Definition window (page limit : Z) (l : list Document) : list Document :=
  take (Z.to_nat limit) (drop (Z.to_nat ((page - 1) * limit)) l).


(** A search whose only filter is the free-text query. *)
Definition only_query (p : SearchParams) : Prop :=
  provided (sp_category p) = None /\ provided (sp_department p) = None
  /\ provided (sp_dateFrom p) = None /\ provided (sp_dateTo p) = None.


(** Two documents of the same size. *)
Definition tie_a : Document :=
  Sample.row 1 "Annex" "contrato" None None 100 1700000000000.
Definition tie_b : Document :=
  Sample.row 2 "Budget" "contrato" None None 100 1700000100000.
Definition ties : Db := {| rows := [tie_a; tie_b]; next_id := 3 |}.


End SearchLaws.

(** ** Faults of the environment: sample incidents *)

Module Incidents.
Import Js Extract.

Definition unlink_message : jsstring :=
  lit "EPERM: operation not permitted, unlink".

(** The tools work, but the temporary PNG cannot be removed. *)
Definition tools_unlink_fails : Tools :=
  {| sharp_ok := fun _ => true;
     recognize := fun _ => Ok Sample.long_text;
     extractRawText := fun _ => Ok Sample.long_text;
     unlink := fun _ => Some (ErrorObject unlink_message) |}.

(** The advanced pass reads another text than the quick pass. *)
Definition tools_total : Tools := Sample.tools_ok (lit "Total: 42").

Definition store_message : jsstring := lit "Connection terminated unexpectedly".

(** The photo's job: the advanced pass succeeds, the store rejects the
    update. *)
Definition photo_update_rejected : Queue.State :=
  Queue.run [Queue.ExtractDone tools_total 1700000001000;
             Queue.UpdateFailed (ErrorObject store_message) 1700000002000]
    Sample.after_photo.

(** Two hours after the photo's job completed, a reprocess request
    enqueues a second job for the photo; its extraction then fails. *)
Definition two_hours_on : Queue.State :=
  Queue.run [Queue.AddJob 1 Sample.photo_path mime_jpeg Sample.two_hours_later]
    Sample.photo_done.

Definition failure_two_hours_on : Queue.Event :=
  Queue.ExtractDone (Sample.tools_fail (lit "no such file")) (Sample.two_hours_later + 40).

End Incidents.

(** ** [server/routes.ts]: reprocess, delete and search *)

Module Api.
Import Js Storage Extract Queue Routes.

(** The upload directory as the set of paths of its files. *)
Definition existsSync (disk : list jsstring) (path : jsstring) : bool :=
  existsb (eqb path) disk.

Definition unlinkSync (disk : list jsstring) (path : jsstring) : list jsstring :=
  List.filter (fun q => negb (eqb q path)) disk.



Definition answer (status : Z) (message : string) : Response :=
  {| res_status := status; res_body := Message (lit message) |}.

(** [POST /api/documents/:id/reprocess] with its parameter as [parseInt]
    gives it ([None] is NaN, for which the query raises). *)
Definition reprocessRoute (lookup_fails : bool) (existsSync : jsstring -> bool)
    (param : option Z) (now : Z) (s : State) : Response * State :=
  if lookup_fails then (answer 500 "Reprocessing failed", s)
  else
    match param with
    | None => (answer 500 "Reprocessing failed", s)
    | Some id => reprocess existsSync id now s
    end.



(** The query string of [GET /api/documents]. *)
Record SearchRequest := {
  rq_query : option jsstring;
  rq_category : option jsstring;
  rq_department : option jsstring;
  rq_dateFrom : option jsstring;
  rq_dateTo : option jsstring;
  rq_page : option jsstring;
  rq_limit : option jsstring;
  rq_sortBy : option jsstring
}.

Inductive SearchResponse :=
| SearchOk (documents : list Document) (total : nat)
| SearchBadRequest.

(** The values of [z.enum([...])] for [sortBy]. *)
Definition sortKeys : list jsstring :=
  [lit "relevance"; lit "date-desc"; lit "date-asc"; lit "title"; lit "size"].

(** [x ? parseInt(x) : fallback]; [parseInt] gives [None] for NaN. *)
Definition int_param (parseInt : jsstring -> option Z) (x : option jsstring)
    (fallback : Z) : option Z :=
  match Search.provided x with
  | Some str => parseInt str
  | None => Some fallback
  end.

(** [searchDocumentSchema.parse] on what the handler builds from the query
    string: [page >= 1], [1 <= limit <= 100], [sortBy] one of the keys; NaN is
    not a number. *)
Definition searchDocumentSchema (parseInt : jsstring -> option Z) (rq : SearchRequest)
  : option Search.SearchParams :=
  match int_param parseInt (rq_page rq) 1, int_param parseInt (rq_limit rq) 10 with
  | Some page, Some limit =>
      let sortBy :=
        match Search.provided (rq_sortBy rq) with
        | Some k => k
        | None => lit "relevance"
        end in
      if (1 <=? page)%Z && (1 <=? limit)%Z && (limit <=? 100)%Z
         && existsb (eqb sortBy) sortKeys
      then Some {| Search.sp_query := rq_query rq;
                   Search.sp_category := rq_category rq;
                   Search.sp_department := rq_department rq;
                   Search.sp_dateFrom := rq_dateFrom rq;
                   Search.sp_dateTo := rq_dateTo rq;
                   Search.sp_page := page;
                   Search.sp_limit := limit;
                   Search.sp_sortBy := sortBy |}
      else None
  | _, _ => None
  end.

(** [GET /api/documents]: every failure, of the validation or of the
    query, is answered with status 400. *)
Definition searchRoute (lower : N -> N) (collate_le : jsstring -> jsstring -> bool)
    (parseDate : jsstring -> option Z) (scan : list Document -> list Document)
    (parseInt : jsstring -> option Z)
    (rq : SearchRequest) (d : Db) : SearchResponse :=
  match searchDocumentSchema parseInt rq with
  | Some searchParams =>
      match Search.searchDocuments lower collate_le parseDate scan searchParams d with
      | Some (documents, total) => SearchOk documents total
      | None => SearchBadRequest
      end
  | None => SearchBadRequest
  end.

(** What an upload stores for a file. *)
Definition stored_as (uploadDir : jsstring) (meta : Metadata) (document : Document)
    (upload : File * Tools * Z) : Prop :=
  let '(file, tools, now) := upload in
  doc_originalName document = originalname file
  /\ doc_mimeType document = mimetype file
  /\ doc_fileSize document = size file
  /\ doc_title document = meta_title meta
  /\ doc_category document = meta_category meta
  /\ doc_filePath document = upload_path uploadDir now file
  /\ doc_extractedText document
     = Some (extractText tools (upload_path uploadDir now file) (mimetype file))
  /\ doc_ocrProcessed document = Some false.

(** Whether the upload of a file adds a job. *)
Definition enqueues (uploadDir : jsstring) (upload : File * Tools * Z) : bool :=
  let '(file, tools, now) := upload in
  needs_advanced (mimetype file)
    (extractText tools (upload_path uploadDir now file) (mimetype file)).

(** A parser for decimal page numbers, enough for the examples. *)
Definition parse_small (str : jsstring) : option Z :=
  if eqb str (lit "2") then Some 2%Z
  else if eqb str (lit "500") then Some 500%Z
  else None.

Definition request (page limit sortBy : option string) : SearchRequest :=
  {| rq_query := None; rq_category := None; rq_department := None;
     rq_dateFrom := None; rq_dateTo := None;
     rq_page := option_map lit page; rq_limit := option_map lit limit;
     rq_sortBy := option_map lit sortBy |}.

End Api.

(** ** [client/src/components/document-results.tsx]: the page links *)

Module Pager.






End Pager.

Example lit_accents : Js.lit "aé-Ç" = [97; 233; 45; 199].
Proof. reflexivity. Qed.

Example clean_demo :
  Clean.cleanOCRText (Js.lit ("  Ol" ++ "á" ++ String (ascii_of_nat 10) (String (ascii_of_nat 9) (String (ascii_of_nat 10) "#mundo *  x "))))
  = Js.lit "Olá mundo x".
Proof. vm_compute. reflexivity. Qed.

(** [/\n\s*\n/g]: a run of blank lines, with the white space on them,
    becomes one line feed; the white space after the last line feed stays. *)
Example blank_lines_demo :
  Js.replace_g Clean.re_blank_lines [10] [97; 10; 32; 10; 32; 120; 10; 10; 10; 98; 10; 99]
  = [97; 10; 32; 120; 10; 98; 10; 99].
Proof. vm_compute. reflexivity. Qed.

(** A backslash at the end of the query makes the closing [%] of the
    pattern a literal character. *)
Example like_tokens_trailing_backslash :
  Search.like_tokens (Search.contains_pattern [97; Search.backslash])
  = [Search.AnySeq; Search.Lit 97; Search.Lit Search.percent].
Proof. reflexivity. Qed.

(** The worker takes the jobs one at a time, in the order of the queue. *)
Example two_jobs_statuses :
  List.map Queue.job_status (Queue.heap (Queue.run Sample.two_jobs Queue.init))
  = [Queue.Failed; Queue.Processing].
Proof. vm_compute. reflexivity. Qed.

(** * Proofs *)

(** ** Global replace *)

Section ReplaceFacts.
Import Js.
Variables (m : matcher) (r : jsstring).

Lemma replace_fuel_enough (f1 : nat) : forall (f2 : nat) (s : jsstring),
  (length s < f1)%nat -> (length s < f2)%nat ->
  replace_fuel m r f1 s = replace_fuel m r f2 s.
Proof.
  induction f1 as [|f1 IH]; intros f2 s H1 H2; [lia|].
  destruct f2 as [|f2]; [lia|].
  destruct s as [|c rest]; simpl; [reflexivity|].
  destruct (m (c :: rest)) as [[|n]|]; simpl in *.
  - do 2 f_equal. apply IH; lia.
  - f_equal. apply IH; rewrite length_drop; lia.
  - f_equal. apply IH; lia.
Qed.

Lemma replace_g_cons (c : N) (rest : jsstring) :
  replace_g m r (c :: rest) =
  match m (c :: rest) with
  | Some (S n) => r ++ replace_g m r (drop n rest)
  | Some O => r ++ c :: replace_g m r rest
  | None => c :: replace_g m r rest
  end.
Proof.
  unfold replace_g.
  change (replace_fuel m r (S (length (c :: rest))) (c :: rest))
    with (match m (c :: rest) with
          | Some (S n) => r ++ replace_fuel m r (length (c :: rest)) (drop n rest)
          | Some O => r ++ c :: replace_fuel m r (length (c :: rest)) rest
          | None => c :: replace_fuel m r (length (c :: rest)) rest
          end).
  destruct (m (c :: rest)) as [[|n]|].
  - reflexivity.
  - f_equal. apply replace_fuel_enough; rewrite ?length_drop; simpl; lia.
  - reflexivity.
Qed.

Lemma replace_g_no_match (s : jsstring) :
  (forall k, m (drop k s) = None) -> replace_g m r s = s.
Proof.
  induction s as [|c rest IH]; intros H.
  - pose proof (H O) as H0. simpl in H0.
    unfold replace_g. simpl. now rewrite H0.
  - pose proof (H O) as H0. simpl in H0.
    rewrite replace_g_cons, H0. f_equal.
    apply IH. intros k. apply (H (S k)).
Qed.

End ReplaceFacts.

(** ** [cleanOCRText] *)

Section CleanFacts.
Import Js Clean.

Lemma take_drop_while (p : N -> bool) (s : jsstring) :
  s = takeWhile p s ++ dropWhile p s.
Proof.
  induction s as [|c r IH]; simpl; [reflexivity|].
  destruct (p c); simpl; [now f_equal | reflexivity].
Qed.

Lemma drop_takeWhile (p : N -> bool) (s : jsstring) :
  drop (length (takeWhile p s)) s = dropWhile p s.
Proof.
  induction s as [|c r IH]; simpl; [reflexivity|].
  destruct (p c); simpl; [exact IH | reflexivity].
Qed.

Lemma dropWhile_length (p : N -> bool) (s : jsstring) :
  (length (dropWhile p s) <= length s)%nat.
Proof.
  induction s as [|c r IH]; simpl; [lia|]. destruct (p c); simpl; lia.
Qed.

Lemma collapse_true (s : jsstring) :
  collapse true s = collapse false (dropWhile is_ws s).
Proof.
  induction s as [|c r IH]; simpl; [reflexivity|].
  destruct (is_ws c) eqn:E; simpl; [exact IH | now rewrite E].
Qed.

Lemma spaces_cons (c : N) (rest : jsstring) :
  replace_g re_spaces [32] (c :: rest) =
  if is_ws c then 32 :: replace_g re_spaces [32] (dropWhile is_ws rest)
  else c :: replace_g re_spaces [32] rest.
Proof.
  rewrite replace_g_cons. unfold re_spaces. simpl takeWhile.
  destruct (is_ws c); [|reflexivity].
  cbn [length]. now rewrite drop_takeWhile.
Qed.

Lemma spaces_collapse (s : jsstring) :
  replace_g re_spaces [32] s = collapse false s.
Proof.
  remember (length s) as n eqn:Hn. revert s Hn.
  induction n as [n IH] using lt_wf_ind. intros s Hn.
  destruct s as [|c rest]; [reflexivity|].
  rewrite spaces_cons. simpl in *. destruct (is_ws c).
  - rewrite collapse_true. f_equal.
    eapply IH; [|reflexivity]. pose proof (dropWhile_length is_ws rest). lia.
  - f_equal. eapply IH; [|reflexivity]. lia.
Qed.

Lemma special_filter (s : jsstring) :
  replace_g re_special [] s = List.filter in_class s.
Proof.
  induction s as [|c rest IH]; [reflexivity|].
  rewrite replace_g_cons.
  change (re_special (c :: rest)) with (if in_class c then None else Some 1%nat).
  cbn [List.filter].
  destruct (in_class c); [now rewrite IH|].
  change (drop 0 rest) with rest. now rewrite IH.
Qed.

Lemma collapse_Forall (Q : N -> Prop) (s : jsstring) :
  Q 32 -> Forall Q s -> forall b, Forall Q (collapse b s).
Proof.
  intros H32. induction 1 as [|c r Hc Hr IH]; intros b; simpl; [constructor|].
  destruct (is_ws c); [destruct b|]; auto.
Qed.

Lemma collapse_ws_space (s : jsstring) :
  forall b, Forall (fun c => is_ws c = true -> c = 32) (collapse b s).
Proof.
  induction s as [|c r IH]; intros b; simpl; [constructor|].
  destruct (is_ws c) eqn:E; [destruct b|]; auto.
  constructor; [congruence | auto].
Qed.

Lemma collapse_single_spaced (s : jsstring) :
  forall b, single_spaced (collapse b s)
    /\ (b = true -> match collapse b s with [] => True | d :: _ => is_ws d = false end).
Proof.
  induction s as [|c r IH]; intros b; simpl; [auto|].
  destruct (is_ws c) eqn:E.
  - destruct b; [apply IH|].
    destruct (IH true) as [H1 H2]. split; [|discriminate].
    simpl. split; [|exact H1]. intros _. split; [reflexivity | now apply H2].
  - destruct (IH false) as [H1 _]. split; [|intros _; exact E].
    simpl. split; [congruence | exact H1].
Qed.

Lemma single_spaced_app_r (a b : jsstring) :
  single_spaced (a ++ b) -> single_spaced b.
Proof. induction a as [|c a IH]; simpl; [auto | intros [_ H]; auto]. Qed.

Lemma single_spaced_app_l (a b : jsstring) :
  single_spaced (a ++ b) -> single_spaced a.
Proof.
  induction a as [|c a IH]; simpl; [auto|]. intros [H1 H2]. split; [|auto].
  intros Hc. destruct (H1 Hc) as [-> Hn]. split; [reflexivity|].
  destruct a; simpl in *; auto.
Qed.

Lemma dropWhile_head (p : N -> bool) (s : jsstring) (c : N) (r : jsstring) :
  dropWhile p s = c :: r -> p c = false.
Proof.
  induction s as [|d s IH]; simpl; [discriminate|].
  destruct (p d) eqn:E; [exact IH | congruence].
Qed.

Lemma trimEnd_prefix (s : jsstring) : exists t, s = trimEnd s ++ t.
Proof.
  unfold trimEnd. exists (rev (takeWhile is_ws (rev s))).
  rewrite <- rev_app_distr, <- take_drop_while. now rewrite rev_involutive.
Qed.

Lemma trim_infix (s : jsstring) : exists a b, s = a ++ trim s ++ b.
Proof.
  unfold trim, trimStart.
  destruct (trimEnd_prefix (dropWhile is_ws s)) as [b Hb].
  exists (takeWhile is_ws s), b. rewrite <- Hb. apply take_drop_while.
Qed.

Lemma trim_trimmed (s : jsstring) : trimmed (trim s).
Proof.
  unfold trim, trimStart. split; intros c r H.
  - destruct (trimEnd_prefix (dropWhile is_ws s)) as [b Hb].
    rewrite H in Hb. simpl in Hb. eapply dropWhile_head, Hb.
  - unfold trimEnd in H. apply (f_equal (@rev N)) in H.
    rewrite rev_involutive, rev_app_distr in H. simpl in H.
    eapply dropWhile_head, H.
Qed.

Lemma trim_id (s : jsstring) : trimmed s -> trim s = s.
Proof.
  intros [Hh Hl]. unfold trim, trimStart, trimEnd.
  assert (E1 : dropWhile is_ws s = s).
  { destruct s as [|c r]; [reflexivity|]. simpl. now rewrite (Hh c r eq_refl). }
  rewrite E1.
  assert (E2 : dropWhile is_ws (rev s) = rev s).
  { destruct (rev s) as [|c r] eqn:E; [reflexivity|]. simpl.
    apply (f_equal (@rev N)) in E. rewrite rev_involutive in E. simpl in E.
    now rewrite (Hl c (rev r) E). }
  rewrite E2. apply rev_involutive.
Qed.

Lemma collapse_id (s : jsstring) : single_spaced s -> collapse false s = s.
Proof.
  induction s as [|c r IH]; simpl; [reflexivity|]. intros [H1 H2].
  destruct (is_ws c) eqn:E.
  - destruct (H1 eq_refl) as [-> Hn]. f_equal.
    destruct r as [|d r']; [reflexivity|].
    specialize (IH H2). simpl in *. rewrite Hn in *. exact IH.
  - f_equal. auto.
Qed.

Lemma filter_id (s : jsstring) :
  Forall (fun c => in_class c = true) s -> List.filter in_class s = s.
Proof. induction 1 as [|c r Hc Hr IH]; simpl; [reflexivity|]. now rewrite Hc, IH. Qed.

Lemma In_drop {A : Type} (k : nat) (s : list A) (c : A) : In c (drop k s) -> In c s.
Proof.
  revert s. induction k as [|k IH]; intros [|d s]; simpl; auto.
Qed.

Lemma blank_lines_id (s : jsstring) :
  ~ In 10 s -> replace_g re_blank_lines [10] s = s.
Proof.
  intros H. apply replace_g_no_match. intros k.
  destruct (drop k s) as [|c r] eqn:E; [reflexivity|].
  assert (Hin : In c s).
  { apply (In_drop k). rewrite E. now left. }
  unfold re_blank_lines.
  destruct (N.eq_dec c 10) as [->|Hne]; [contradiction|].
  destruct c as [|p]; [reflexivity|].
  do 4 (destruct p as [p|p|]; try reflexivity). congruence.
Qed.

Lemma clean_form_fixed (s : jsstring) : clean_form s -> cleanOCRText s = s.
Proof.
  intros (Hc & Hlf & Hss & Ht). unfold cleanOCRText.
  rewrite blank_lines_id by exact Hlf.
  rewrite special_filter, filter_id by exact Hc.
  rewrite spaces_collapse, collapse_id by exact Hss.
  now apply trim_id.
Qed.

Lemma in_class_space : in_class 32 = true.
Proof. reflexivity. Qed.

Lemma cleanOCRText_clean_form (t : jsstring) : clean_form (cleanOCRText t).
Proof.
  unfold cleanOCRText.
  set (s2 := replace_g re_special [] (replace_g re_blank_lines [10] t)).
  assert (H2 : Forall (fun c => in_class c = true) s2).
  { unfold s2. rewrite special_filter. apply Forall_forall.
    intros c Hc. apply list_elem_of_In in Hc. now apply filter_In in Hc. }
  rewrite spaces_collapse.
  destruct (trim_infix (collapse false s2)) as (a & b & E).
  pose proof (collapse_Forall _ s2 in_class_space H2 false) as F1.
  pose proof (collapse_ws_space s2 false) as F2.
  pose proof (proj1 (collapse_single_spaced s2 false)) as F3.
  rewrite E in F1, F2, F3.
  apply Forall_app in F1 as [_ F1]. apply Forall_app in F1 as [F1 _].
  apply Forall_app in F2 as [_ F2]. apply Forall_app in F2 as [F2 _].
  apply single_spaced_app_r, single_spaced_app_l in F3.
  repeat split; try assumption; try apply trim_trimmed.
  intros Hin. rewrite Forall_forall in F2.
  apply list_elem_of_In in Hin. specialize (F2 _ Hin eq_refl). discriminate.
Qed.

End CleanFacts.

(** C10. [cleanOCRText] is idempotent, and every cleaned text has the clean
    form (only characters of the class, no line feed and so no blank-line run,
    single spaces as the only white space, trimmed); so the text the advanced
    pass returns for an image is a fixed point of the cleaning. *)
Theorem cleanOCRText_idempotent (t : jsstring) :
  Clean.cleanOCRText (Clean.cleanOCRText t) = Clean.cleanOCRText t
  /\ Clean.clean_form (Clean.cleanOCRText t)
  /\ (forall tools filePath mimeType text,
        Js.startsWith mimeType (Js.lit "image/") = true ->
        Extract.extractTextAdvanced tools filePath mimeType = Extract.Ok text ->
        Clean.cleanOCRText text = text).
Proof.
  split; [apply clean_form_fixed, cleanOCRText_clean_form|].
  split; [apply cleanOCRText_clean_form|].
  intros tools filePath mimeType text Hi. unfold Extract.extractTextAdvanced.
  rewrite Hi. destruct (Extract.recognize tools _) as [raw|e]; [|discriminate].
  destruct (Extract.remove_processed tools _ _); [discriminate|].
  intros [= <-]. apply clean_form_fixed, cleanOCRText_clean_form.
Qed.

(** ** The queue *)

Section QueueFacts.
Import Js Storage Extract Queue.

Lemma eqb_eq (a b : jsstring) : eqb a b = true <-> a = b.
Proof.
  revert b. induction a as [|x a IH]; intros [|y b]; simpl; split; try congruence.
  - intros H. apply andb_true_iff in H as [H1 H2].
    apply N.eqb_eq in H1. apply IH in H2. congruence.
  - intros [= -> ->]. apply andb_true_iff. split; [apply N.eqb_refl | now apply IH].
Qed.

Lemma Status_eqb_eq (a b : Status) : Status_eqb a b = true <-> a = b.
Proof. destruct a, b; simpl; split; congruence. Qed.

Lemma has_status_iff (h : list QueueJob) (st : Status) (r : nat) :
  has_status h st r = true <-> status_at h r = Some st.
Proof.
  unfold has_status, status_at. destruct (h !! r) as [j|]; simpl.
  - rewrite Status_eqb_eq. split; congruence.
  - split; congruence.
Qed.

Lemma status_at_alter (f : QueueJob -> QueueJob) (h : list QueueJob) (r r' : nat) :
  status_at (alter f r h) r' =
  if decide (r = r') then job_status <$> (f <$> h !! r) else status_at h r'.
Proof.
  unfold status_at. destruct (decide (r = r')) as [->|Hne].
  - now rewrite list_lookup_alter_eq.
  - now rewrite list_lookup_alter_ne.
Qed.

Lemma status_at_app (h : list QueueJob) (j : QueueJob) (r : nat) :
  status_at (h ++ [j]) r =
  if decide (r = length h) then Some (job_status j) else status_at h r.
Proof.
  unfold status_at. destruct (decide (r = length h)) as [->|Hne].
  - now rewrite list_lookup_middle.
  - destruct (decide (r < length h)%nat).
    + now rewrite lookup_app_l.
    + rewrite !lookup_ge_None_2; [reflexivity | lia | rewrite length_app; simpl; lia].
Qed.

Lemma status_at_bound (h : list QueueJob) (r : nat) (st : Status) :
  status_at h r = Some st -> (r < length h)%nat.
Proof.
  unfold status_at. intros H. destruct (h !! r) eqn:E; [|discriminate].
  eapply lookup_lt_Some, E.
Qed.

Lemma find_pending_Some (h : list QueueJob) (q : list nat) (r : nat) :
  find_pending h q = Some r -> In r q /\ status_at h r = Some Pending.
Proof.
  unfold find_pending. intros H. apply find_some in H as [H1 H2].
  now apply has_status_iff in H2.
Qed.

Lemma find_pending_None (h : list QueueJob) (q : list nat) (r : nat) :
  find_pending h q = None -> In r q -> status_at h r <> Some Pending.
Proof.
  unfold find_pending. intros H Hin Hs.
  pose proof (find_none _ _ H r Hin) as Hn.
  apply has_status_iff in Hs. congruence.
Qed.

Lemma loop_head_cases (now : Z) (s : State) :
  (exists r, In r (queue s) /\ status_at (heap s) r = Some Pending
     /\ loop_head now s =
        {| heap := alter (set_status Processing) r (heap s); queue := queue s;
           processing := processing s; worker := AwaitExtract r; db := db s |})
  \/ ((forall r, In r (queue s) -> status_at (heap s) r <> Some Pending)
      /\ loop_head now s = finish now s).
Proof.
  unfold loop_head. destruct (0 <? length (queue s))%nat eqn:El.
  - destruct (find_pending (heap s) (queue s)) as [r|] eqn:Ef.
    + left. exists r. apply find_pending_Some in Ef as [H1 H2]. auto.
    + right. split; [|reflexivity]. intros r Hr. eapply find_pending_None; eauto.
  - right. split; [|reflexivity]. apply Nat.ltb_ge in El.
    destruct (queue s); [intros r []|simpl in El; lia].
Qed.

Lemma loop_head_invariant (now : Z) (s : State) :
  at_loop_head s -> invariant (loop_head now s).
Proof.
  intros [Hnd Hb Hf Hn Hp].
  destruct (loop_head_cases now s) as [(r & Hin & Hst & ->)|(Hnone & ->)].
  - constructor; simpl.
    + exact Hnd.
    + intros r' Hr'. rewrite length_alter. auto.
    + rewrite Hf. split; [discriminate | reflexivity].
    + intros r' [= <-]. split; [exact Hin|].
      rewrite status_at_alter. destruct (decide (r = r)); [|congruence].
      unfold status_at in Hst. destruct (heap s !! r); [reflexivity | discriminate].
    + intros r'. rewrite status_at_alter.
      destruct (decide (r = r')) as [->|Hne]; [reflexivity|]. intros H. now apply Hn in H.
    + intros r'. rewrite status_at_alter.
      destruct (decide (r = r')) as [->|Hne].
      * destruct (heap s !! r'); discriminate.
      * intros H. split; [auto | discriminate].
  - constructor; simpl.
    + unfold cleanup. apply NoDup_ListNoDup, List.NoDup_filter, NoDup_ListNoDup, Hnd.
    + intros r Hr. apply filter_In in Hr as [Hr _]. auto.
    + split; [discriminate | congruence].
    + discriminate.
    + intros r H. now apply Hn in H.
    + intros r H. exfalso. eapply Hnone; eauto.
Qed.

Lemma invariant_init : invariant init.
Proof.
  constructor; simpl; try discriminate.
  - constructor.
  - intros r [].
  - split; [discriminate | congruence].
Qed.

Lemma addJob_invariant (d : Z) (p m : jsstring) (now : Z) (s : State) :
  invariant s -> invariant (snd (addJob d p m now s)).
Proof.
  intros [Hnd Hb Hf Hw Hpr Hpe]. unfold addJob. cbn [snd processing].
  assert (Hfresh : ~ In (length (heap s)) (queue s)).
  { intros H. apply Hb in H. lia. }
  assert (Hnd' : NoDup (queue s ++ [length (heap s)])).
  { apply NoDup_app. split; [exact Hnd|]. split; [|apply NoDup_singleton].
    intros x Hx Hx'. apply list_elem_of_In in Hx.
    apply list_elem_of_singleton in Hx'. subst. contradiction. }
  assert (Hb' : forall r, In r (queue s ++ [length (heap s)]) ->
                (r < length (heap s ++ [
                  {| job_id := make_job_id d now; job_documentId := d;
                     job_filePath := p; job_mimeType := m; job_status := Pending;
                     job_createdAt := now; job_processedAt := None;
                     job_error := None |}]))%nat).
  { intros r Hr. rewrite length_app. simpl. apply in_app_or in Hr as [Hr|[<-|[]]].
    - apply Hb in Hr. lia.
    - lia. }
  destruct (processing s) eqn:Ep; cbn [negb].
  - assert (Hwk : worker s <> Idle) by now apply Hf.
    constructor; cbn [heap queue processing worker db].
    + exact Hnd'.
    + exact Hb'.
    + exact Hf.
    + intros r Hr. destruct (Hw r Hr) as [H1 H2]. split; [apply in_or_app; auto|].
      rewrite status_at_app. destruct (decide (r = length (heap s))) as [->|]; auto.
      contradiction.
    + intros r. rewrite status_at_app.
      destruct (decide (r = length (heap s))); [discriminate | auto].
    + intros r. rewrite status_at_app.
      destruct (decide (r = length (heap s))) as [->|].
      * intros _. split; [apply in_or_app; right; now left | exact Hwk].
      * intros H. destruct (Hpe r H). split; [apply in_or_app; auto | exact Hwk].
  - assert (Hwk : worker s = Idle).
    { destruct (worker s); [reflexivity | |]; exfalso;
        (assert (false = true) by (apply Hf; discriminate)); discriminate. }
    unfold processQueue. cbn [processing].
    apply loop_head_invariant. constructor; cbn [heap queue processing worker db].
    + exact Hnd'.
    + exact Hb'.
    + reflexivity.
    + intros r. rewrite status_at_app.
      destruct (decide (r = length (heap s))); [discriminate|].
      intros H. apply Hpr in H. rewrite Hwk in H. discriminate.
    + intros r. rewrite status_at_app.
      destruct (decide (r = length (heap s))) as [->|].
      * intros _. apply in_or_app; right; now left.
      * intros H. destruct (Hpe r H). contradiction.
Qed.

(** The worker has settled its job [r] (completed or failed) and is about
    to go round the loop. *)
Lemma settled_at_loop_head (f : QueueJob -> QueueJob) (r : nat) (s : State) :
  invariant s -> worker_job (worker s) = Some r ->
  (forall j, job_status (f j) = Completed \/ job_status (f j) = Failed) ->
  at_loop_head {| heap := alter f r (heap s); queue := queue s;
                  processing := processing s; worker := worker s; db := db s |}.
Proof.
  intros [Hnd Hb Hf Hw Hpr Hpe] Hr Hterm.
  constructor; cbn [heap queue processing worker db].
  - exact Hnd.
  - intros r' Hr'. rewrite length_alter. auto.
  - apply Hf. destruct (worker s); [discriminate | discriminate | discriminate].
  - intros r'. rewrite status_at_alter. destruct (decide (r = r')) as [<-|Hne].
    + destruct (heap s !! r) as [j|]; simpl; [|discriminate].
      destruct (Hterm j) as [-> | ->]; discriminate.
    + intros H. apply Hpr in H. congruence.
  - intros r'. rewrite status_at_alter. destruct (decide (r = r')) as [<-|Hne].
    + destruct (heap s !! r) as [j|]; simpl; [|discriminate].
      destruct (Hterm j) as [-> | ->]; discriminate.
    + intros H. now apply Hpe in H.
Qed.

Lemma resume_extract_invariant (tools : Tools) (now : Z) (s : State) :
  invariant s -> invariant (resume_extract tools now s).
Proof.
  intros Hinv. unfold resume_extract.
  destruct (worker s) as [|r|r text0 sent0] eqn:Ew; try exact Hinv.
  destruct (heap s !! r) as [j|] eqn:Ej; [|exact Hinv].
  destruct (extractTextAdvanced tools (job_filePath j) (job_mimeType j)) as [text|e].
  - destruct Hinv as [Hnd Hb Hf Hw Hpr Hpe]. rewrite Ew in *.
    constructor; cbn [heap queue processing worker db]; auto.
    + rewrite Hf. split; intros _; discriminate.
    + intros r' H. apply Hpe in H as [H _]. split; [exact H | discriminate].
  - apply loop_head_invariant.
    rewrite <- Ew. apply settled_at_loop_head; [exact Hinv | now rewrite Ew | now right].
Qed.

Lemma invariant_with_db (s : State) (d : Db) : invariant s -> invariant (with_db s d).
Proof. intros [H1 H2 H3 H4 H5 H6]. constructor; assumption. Qed.

Lemma loop_head_with_db (now : Z) (s : State) (d : Db) :
  loop_head now (with_db s d) = with_db (loop_head now s) d.
Proof.
  unfold loop_head. cbn [with_db heap queue].
  destruct (if (0 <? length (queue s))%nat then find_pending (heap s) (queue s) else None);
    reflexivity.
Qed.

(** The update of the worker sets no key: the store takes it. *)
Lemma ocr_update_taken (id : Z) (text : jsstring) (now : Z) (d : Db) :
  updateDocument id (ocr_update text) now d
  = Some (apply_update (ocr_update text) now <$> getDocument id d,
          {| rows := update_rows id (ocr_update text) now (rows d);
             next_id := next_id d |}).
Proof.
  unfold updateDocument, out_of_range, key_conflict, getDocument.
  cbn [ocr_update upd_id upd_fileSize orb]. f_equal. f_equal. induction (rows d) as [|x l IH]; [reflexivity|].
  cbn [List.filter List.find]. destruct (doc_id x =? id)%Z; [reflexivity | exact IH].
Qed.

(** The fulfilled update: nothing happens when the worker's reference is
    dangling (it never is); otherwise the job is settled as completed beside
    the updated table. *)
Lemma resume_update_shape (now : Z) (s : State) (r : nat) (text : jsstring) (sent : Z) :
  worker s = AwaitUpdate r text sent ->
  (heap s !! r = None /\ resume_update now s = s)
  \/ (exists j,
        heap s !! r = Some j
        /\ resume_update now s
           = with_db
               (loop_head now
                  {| heap := alter (mark_completed now) r (heap s); queue := queue s;
                     processing := processing s; worker := worker s; db := db s |})
               {| rows := update_rows (job_documentId j) (ocr_update text) sent
                            (rows (db s));
                  next_id := next_id (db s) |}).
Proof.
  intros Ew. unfold resume_update. rewrite Ew.
  destruct (heap s !! r) as [j|]; [|now left]. right. exists j. split; [reflexivity|].
  rewrite ocr_update_taken, <- Ew. rewrite <- loop_head_with_db. reflexivity.
Qed.

Lemma resume_update_invariant (now : Z) (s : State) :
  invariant s -> invariant (resume_update now s).
Proof.
  intros Hinv.
  destruct (worker s) as [|r|r text sent] eqn:Ew;
    try (unfold resume_update; rewrite Ew; exact Hinv).
  destruct (resume_update_shape now s r text sent Ew) as [[_ ->]|(j & _ & ->)];
    [exact Hinv|].
  apply invariant_with_db, loop_head_invariant.
  apply settled_at_loop_head; [exact Hinv | now rewrite Ew | now left].
Qed.

Lemma reject_update_invariant (e : Thrown) (now : Z) (s : State) :
  invariant s -> invariant (reject_update e now s).
Proof.
  intros Hinv. unfold reject_update.
  destruct (worker s) as [|r|r text sent] eqn:Ew; try exact Hinv.
  apply loop_head_invariant.
  rewrite <- Ew. apply settled_at_loop_head; [exact Hinv | now rewrite Ew | now right].
Qed.

Lemma step_invariant (ev : Event) (s : State) : invariant s -> invariant (step ev s).
Proof.
  destruct ev; simpl.
  - apply addJob_invariant.
  - apply resume_extract_invariant.
  - apply resume_update_invariant.
  - apply reject_update_invariant.
Qed.

Lemma run_invariant (evs : list Event) (s : State) :
  invariant s -> invariant (run evs s).
Proof.
  revert s. induction evs as [|ev evs IH]; intros s H; simpl; [exact H|].
  apply IH, step_invariant, H.
Qed.

Lemma reachable_invariant (s : State) : reachable s -> invariant s.
Proof. intros [evs ->]. apply run_invariant, invariant_init. Qed.

Lemma NoDup_all_equal (l : list nat) :
  NoDup l -> (forall x y, In x l -> In y l -> x = y) -> (length l <= 1)%nat.
Proof.
  intros Hnd Heq. destruct l as [|a [|b l]]; simpl; try lia.
  exfalso. apply NoDup_cons in Hnd as [Hn _]. apply Hn.
  rewrite (Heq a b); [left | now left | right; now left].
Qed.

Lemma processing_count (s : State) :
  invariant s -> (qs_processing (getQueueStatus s) <= 1)%nat.
Proof.
  intros [Hnd Hb Hf Hw Hpr Hpe]. simpl. unfold count_status.
  apply NoDup_all_equal.
  - apply NoDup_ListNoDup, List.NoDup_filter, NoDup_ListNoDup, Hnd.
  - intros x y Hx Hy. apply filter_In in Hx as [_ Hx], Hy as [_ Hy].
    apply has_status_iff, Hpr in Hx. apply has_status_iff, Hpr in Hy. congruence.
Qed.

Lemma loop_head_length (now : Z) (s : State) :
  length (heap (loop_head now s)) = length (heap s).
Proof.
  destruct (loop_head_cases now s) as [(r & _ & _ & ->)|(_ & ->)]; simpl;
    [apply length_alter | reflexivity].
Qed.

Lemma step_heap_length (ev : Event) (s : State) :
  length (heap (step ev s)) =
  (length (heap s) + (if is_AddJob ev then 1 else 0))%nat.
Proof.
  destruct ev as [d p m now|tools now|now|e now]; simpl.
  - unfold addJob. cbn [snd processing]. destruct (processing s); cbn [negb].
    + cbn [heap]. now rewrite length_app.
    + unfold processQueue. cbn [processing]. rewrite loop_head_length.
      cbn [heap]. now rewrite length_app.
  - unfold resume_extract. destruct (worker s); try lia.
    destruct (heap s !! job); [|lia]. destruct (extractTextAdvanced _ _ _).
    + simpl. lia.
    + rewrite loop_head_length. simpl. rewrite length_alter. lia.
  - destruct (worker s) as [|r|r text sent] eqn:Ew;
      try (unfold resume_update; rewrite Ew; lia).
    destruct (resume_update_shape now s r text sent Ew) as [[_ ->]|(j & _ & ->)]; [lia|].
    cbn [with_db heap]. rewrite loop_head_length. simpl. rewrite length_alter. lia.
  - unfold reject_update. destruct (worker s); try lia.
    rewrite loop_head_length. simpl. rewrite length_alter. lia.
Qed.



Lemma loop_head_lookup (now : Z) (s : State) (r : nat) (j : QueueJob) :
  heap s !! r = Some j ->
  heap (loop_head now s) !! r = Some j
  \/ (job_status j = Pending
      /\ heap (loop_head now s) !! r = Some (set_status Processing j)).
Proof.
  intros Hj.
  destruct (loop_head_cases now s) as [(r0 & _ & Hst & ->)|(_ & ->)]; simpl.
  - destruct (decide (r0 = r)) as [->|Hne].
    + rewrite list_lookup_alter_eq, Hj. simpl. right. split; [|reflexivity].
      unfold status_at in Hst. rewrite Hj in Hst. simpl in Hst. congruence.
    + rewrite list_lookup_alter_ne by exact Hne. auto.
  - auto.
Qed.








End QueueFacts.

(** C3. In every state the queue can reach, whatever the enqueues and their
    interleaving with the worker, at most one job is in status processing:
    [getQueueStatus] counts at most one, and two job records that are both
    processing are the same record. *)
Theorem at_most_one_processing (evs : list Queue.Event) :
  (Queue.qs_processing (Queue.getQueueStatus (Queue.run evs Queue.init)) <= 1)%nat
  /\ forall r1 r2 : nat,
       Queue.status_at (Queue.heap (Queue.run evs Queue.init)) r1 = Some Queue.Processing ->
       Queue.status_at (Queue.heap (Queue.run evs Queue.init)) r2 = Some Queue.Processing ->
       r1 = r2.
Proof.
  pose proof (run_invariant evs Queue.init invariant_init) as Hinv.
  split; [now apply processing_count|].
  intros r1 r2 H1 H2.
  apply (Queue.inv_processing _ Hinv) in H1, H2. congruence.
Qed.




(** ** The worker and the store *)

Section WorkerFacts.
Import Js Storage Extract Queue.

Lemma getDocument_update_same (id : Z) (u : DocumentUpdate) (now : Z) (d : Db) :
  upd_id u = None ->
  getDocument id {| rows := update_rows id u now (rows d); next_id := next_id d |}
  = apply_update u now <$> getDocument id d.
Proof.
  intros Hu. unfold getDocument, update_rows. cbn [rows].
  induction (rows d) as [|x l IH]; simpl; [reflexivity|].
  destruct (doc_id x =? id)%Z eqn:E; simpl; rewrite ?Hu; simpl; rewrite E;
    [reflexivity | exact IH].
Qed.

Lemma getDocument_update_other (id id' : Z) (u : DocumentUpdate) (now : Z) (d : Db) :
  upd_id u = None -> id' <> id ->
  getDocument id' {| rows := update_rows id u now (rows d); next_id := next_id d |}
  = getDocument id' d.
Proof.
  intros Hu Hne. unfold getDocument, update_rows. cbn [rows].
  induction (rows d) as [|x l IH]; simpl; [reflexivity|].
  destruct (doc_id x =? id)%Z eqn:E; simpl; rewrite ?Hu; simpl.
  - apply Z.eqb_eq in E. rewrite E.
    destruct (id =? id')%Z eqn:E'; [apply Z.eqb_eq in E'; congruence | exact IH].
  - destruct (doc_id x =? id')%Z; [reflexivity | exact IH].
Qed.

Lemma settled_lookup (f : QueueJob -> QueueJob) (now : Z) (s : State) (r : nat)
      (j : QueueJob) :
  heap s !! r = Some j -> job_status (f j) <> Pending ->
  heap (loop_head now {| heap := alter f r (heap s); queue := queue s;
                         processing := processing s; worker := worker s;
                         db := db s |}) !! r = Some (f j).
Proof.
  intros Hj Hst.
  set (s1 := {| heap := alter f r (heap s); queue := queue s;
                processing := processing s; worker := worker s; db := db s |}).
  assert (H1 : heap s1 !! r = Some (f j)).
  { simpl. now rewrite list_lookup_alter_eq, Hj. }
  destruct (loop_head_lookup now s1 r (f j) H1) as [H|[H _]]; [exact H | contradiction].
Qed.

Lemma loop_head_db (now : Z) (s : State) : db (loop_head now s) = db s.
Proof.
  destruct (loop_head_cases now s) as [(r & _ & _ & ->)|(_ & ->)]; reflexivity.
Qed.

End WorkerFacts.

(** C2, as stated, fails: the advanced extraction of the photo succeeds,
    but the store rejects the update; the same [catch] block then marks the job
    failed with the store's message, and the document keeps its quick-pass text
    and its OCR flag false. *)
Lemma rejected_update_fails_job :
  Extract.extractTextAdvanced Incidents.tools_total (Queue.job_filePath Sample.photo_job)
    (Queue.job_mimeType Sample.photo_job)
  = Extract.Ok (Js.lit "Total: 42")
  /\ (exists j,
        Queue.heap Incidents.photo_update_rejected !! 0%nat = Some j
        /\ Queue.job_status j = Queue.Failed
        /\ Queue.job_error j = Some Incidents.store_message)
  /\ (exists d,
        Storage.getDocument 1 (Queue.db Incidents.photo_update_rejected) = Some d
        /\ Storage.doc_extractedText d = Some Sample.long_text
        /\ Storage.doc_ocrProcessed d = Some false).
Proof.
  split; [vm_compute; reflexivity|]. split; eexists; (split; [vm_compute; reflexivity|]);
    split; vm_compute; reflexivity.
Qed.

(** C2, amended. For the job [j] the worker holds, with its document id,
    path and media type: when its advanced extraction fails with [e], the job
    is marked failed, with the message of [e] when [e] is an [Error] and
    "Unknown error" otherwise, and the table is left as it was; when the
    extraction succeeds with [text], the worker sends the update and nothing
    has changed yet. When that update is fulfilled, the owning document has its
    extracted text replaced by [text] and its OCR flag true, the other
    documents are untouched, and the job is marked completed. When that update
    is rejected with [e], the job is marked failed with the message as above,
    and the table is left as it was. *)
Theorem worker_records_outcome (s : Queue.State) (r : nat) (j : Queue.QueueJob) :
  Queue.heap s !! r = Some j ->
  (Queue.worker s = Queue.AwaitExtract r ->
   forall tools now,
     match Extract.extractTextAdvanced tools (Queue.job_filePath j) (Queue.job_mimeType j) with
     | Extract.Ok text =>
         Queue.worker (Queue.step (Queue.ExtractDone tools now) s)
         = Queue.AwaitUpdate r text now
         /\ Queue.heap (Queue.step (Queue.ExtractDone tools now) s) = Queue.heap s
         /\ Queue.db (Queue.step (Queue.ExtractDone tools now) s) = Queue.db s
     | Extract.Throw e =>
         (exists j',
            Queue.heap (Queue.step (Queue.ExtractDone tools now) s) !! r = Some j'
            /\ Queue.job_status j' = Queue.Failed
            /\ Queue.job_error j'
               = Some (match e with
                       | Extract.ErrorObject message => message
                       | Extract.OtherValue => Js.lit "Unknown error"
                       end)
            /\ Queue.job_processedAt j' = Some now
            /\ Queue.job_id j' = Queue.job_id j
            /\ Queue.job_documentId j' = Queue.job_documentId j)
         /\ Queue.db (Queue.step (Queue.ExtractDone tools now) s) = Queue.db s
     end)
  /\ (forall text sent,
        Queue.worker s = Queue.AwaitUpdate r text sent ->
        (forall now,
           (exists j',
              Queue.heap (Queue.step (Queue.UpdateDone now) s) !! r = Some j'
              /\ Queue.job_status j' = Queue.Completed
              /\ Queue.job_error j' = Queue.job_error j
              /\ Queue.job_processedAt j' = Some now
              /\ Queue.job_id j' = Queue.job_id j
              /\ Queue.job_documentId j' = Queue.job_documentId j)
           /\ (forall d,
                 Storage.getDocument (Queue.job_documentId j) (Queue.db s) = Some d ->
                 exists d',
                   Storage.getDocument (Queue.job_documentId j)
                     (Queue.db (Queue.step (Queue.UpdateDone now) s)) = Some d'
                   /\ Storage.doc_extractedText d' = Some text
                   /\ Storage.doc_ocrProcessed d' = Some true
                   /\ Storage.doc_id d' = Storage.doc_id d
                   /\ Storage.doc_title d' = Storage.doc_title d
                   /\ Storage.doc_filePath d' = Storage.doc_filePath d)
           /\ (forall id, id <> Queue.job_documentId j ->
                 Storage.getDocument id (Queue.db (Queue.step (Queue.UpdateDone now) s))
                 = Storage.getDocument id (Queue.db s)))
        /\ (forall e now,
              (exists j',
                 Queue.heap (Queue.step (Queue.UpdateFailed e now) s) !! r = Some j'
                 /\ Queue.job_status j' = Queue.Failed
                 /\ Queue.job_error j'
                    = Some (match e with
                            | Extract.ErrorObject message => message
                            | Extract.OtherValue => Js.lit "Unknown error"
                            end)
                 /\ Queue.job_processedAt j' = Some now
                 /\ Queue.job_id j' = Queue.job_id j
                 /\ Queue.job_documentId j' = Queue.job_documentId j)
              /\ Queue.db (Queue.step (Queue.UpdateFailed e now) s) = Queue.db s)).
Proof.
  intros Hj. split.
  - intros Hw tools now. cbn [Queue.step]. unfold Queue.resume_extract. rewrite Hw, Hj.
    destruct (Extract.extractTextAdvanced tools (Queue.job_filePath j) (Queue.job_mimeType j))
      as [text|e].
    + cbn [Queue.worker Queue.db Queue.heap]. repeat split.
    + rewrite <- Hw. split; [|now rewrite loop_head_db].
      exists (Queue.mark_failed e now j). split; [now apply settled_lookup|].
      destruct e; repeat split.
  - intros text sent Hw. split.
    + intros now. cbn [Queue.step].
      destruct (resume_update_shape now s r text sent Hw) as [[Hn _]|(j0 & Hj0 & ->)];
        [congruence|].
      rewrite Hj in Hj0. injection Hj0 as <-.
      cbn [Queue.with_db Queue.heap Queue.db]. split; [|split].
      * exists (Queue.mark_completed now j). split; [now apply settled_lookup|].
        repeat split.
      * intros d Hd. rewrite getDocument_update_same by reflexivity. rewrite Hd.
        eexists. split; [reflexivity|]. repeat split.
      * intros id Hne. now apply getDocument_update_other.
    + intros e now. cbn [Queue.step]. unfold Queue.reject_update. rewrite Hw.
      rewrite <- Hw. split; [|now rewrite loop_head_db].
      exists (Queue.mark_failed e now j). split; [now apply settled_lookup|].
      destruct e; repeat split.
Qed.

(** ** The clean-up *)

Section CleanupFacts.
Import Js Storage Extract Queue.

Lemma keep_open (h : list QueueJob) (cutoff : Z) (r : nat) (j : QueueJob) :
  h !! r = Some j -> is_open (job_status j) = true -> keep h cutoff r = true.
Proof.
  intros Hj Ho. unfold keep. rewrite Hj. unfold is_open in Ho. now rewrite Ho.
Qed.

Lemma loop_head_keeps (now : Z) (s : State) (r : nat) :
  keep (heap s) (now - one_hour) r = true -> In r (queue s) ->
  In r (queue (loop_head now s)).
Proof.
  intros Hk Hin.
  destruct (loop_head_cases now s) as [(r0 & _ & _ & ->)|(_ & ->)]; simpl; [exact Hin|].
  apply filter_In. auto.
Qed.

Lemma keep_settled (f : QueueJob -> QueueJob) (h : list QueueJob) (now : Z)
      (rw r : nat) (j : QueueJob) :
  (forall x, job_processedAt (f x) = Some now) ->
  h !! r = Some j -> is_open (job_status j) = true ->
  keep (alter f rw h) (now - one_hour) r = true.
Proof.
  intros Hf Hj Ho. destruct (decide (rw = r)) as [->|Hne].
  - unfold keep. rewrite list_lookup_alter_eq, Hj. simpl. rewrite Hf.
    replace (now - one_hour <? now)%Z with true; [now rewrite !orb_true_r|].
    symmetry. apply Z.ltb_lt. unfold one_hour. lia.
  - unfold keep. rewrite list_lookup_alter_ne by exact Hne.
    now apply (keep_open h _ r j).
Qed.

Lemma step_keeps_open (ev : Event) (s : State) (r : nat) (j : QueueJob) :
  heap s !! r = Some j -> is_open (job_status j) = true -> In r (queue s) ->
  In r (queue (step ev s)).
Proof.
  intros Hj Ho Hin. pose proof (lookup_lt_Some _ _ _ Hj) as Hlt.
  destruct ev as [d p m now|tools now|now|e now]; simpl.
  - unfold addJob. cbn [snd processing]. destruct (processing s); cbn [negb].
    + cbn [queue]. apply in_or_app. now left.
    + unfold processQueue. cbn [processing]. apply loop_head_keeps; cbn [heap queue].
      * apply (keep_open _ _ r j); [now rewrite lookup_app_l | exact Ho].
      * apply in_or_app. now left.
  - unfold resume_extract. destruct (worker s) as [|rw|rw text0 sent0]; try exact Hin.
    destruct (heap s !! rw) as [jw|]; [|exact Hin].
    destruct (extractTextAdvanced _ _ _) as [text|e]; [exact Hin|].
    apply loop_head_keeps; cbn [heap queue]; [|exact Hin].
    now apply (keep_settled _ _ _ _ _ j).
  - destruct (worker s) as [|rw|rw text sent] eqn:Ew;
      try (unfold resume_update; rewrite Ew; exact Hin).
    destruct (resume_update_shape now s rw text sent Ew) as [[_ ->]|(jw & _ & ->)];
      [exact Hin|].
    cbn [with_db queue]. apply loop_head_keeps; cbn [heap queue]; [|exact Hin].
    now apply (keep_settled _ _ _ _ _ j).
  - unfold reject_update. destruct (worker s) as [|rw|rw text sent]; try exact Hin.
    apply loop_head_keeps; cbn [heap queue]; [|exact Hin].
    now apply (keep_settled _ _ _ _ _ j).
Qed.

Lemma find_job_in_queue (s : State) (jobId : jsstring) (r : nat) :
  find_job s jobId = Some r -> In r (queue s).
Proof. unfold find_job. intros H. now apply find_some in H. Qed.

(** The loop head either starts a job and leaves the queue alone, or
    ends the run with the clean-up. *)
Lemma loop_head_queue (now : Z) (s : State) :
  (worker (loop_head now s) = Idle
   /\ queue (loop_head now s) = cleanup now (heap (loop_head now s)) (queue s))
  \/ (worker (loop_head now s) <> Idle /\ queue (loop_head now s) = queue s).
Proof.
  destruct (loop_head_cases now s) as [(r & _ & _ & ->)|(_ & ->)].
  - right. split; [discriminate | reflexivity].
  - left. split; reflexivity.
Qed.

(** A step either ends a worker run, and then the queue is what the
    clean-up at the clock of the step leaves, or it removes nothing. *)
Lemma step_queue (ev : Event) (s : State) :
  (worker s <> Idle /\ worker (step ev s) = Idle
   /\ queue (step ev s) = cleanup (clock ev) (heap (step ev s)) (queue s))
  \/ ((worker (step ev s) <> Idle \/ worker s = Idle)
      /\ forall r, In r (queue s) -> In r (queue (step ev s))).
Proof.
  assert (Hsame : forall s', worker s' = worker s -> queue s' = queue s ->
            (worker s' <> Idle \/ worker s = Idle)
            /\ forall r, In r (queue s) -> In r (queue s')).
  { intros s' Hw Hq. rewrite Hw, Hq. split; [|auto].
    destruct (worker s); [now right | left; discriminate | left; discriminate]. }
  assert (Hsettle : forall f now rw d,
            worker s <> Idle ->
            let s' := with_db (loop_head now
                        {| heap := alter f rw (heap s); queue := queue s;
                           processing := processing s; worker := worker s;
                           db := db s |}) d in
            (worker s <> Idle /\ worker s' = Idle
             /\ queue s' = cleanup now (heap s') (queue s))
            \/ ((worker s' <> Idle \/ worker s = Idle)
                /\ forall r, In r (queue s) -> In r (queue s'))).
  { intros f now rw d Hw s'. subst s'. cbn [with_db worker queue heap].
    match goal with |- context [loop_head now ?st] => set (s2 := st) end.
    destruct (loop_head_queue now s2) as [[H1 H2]|[H1 H2]].
    - left. auto.
    - right. rewrite H2. split; [now left | auto]. }
  destruct ev as [d p m now|tools now|now|e now]; cbn [step clock].
  - right. unfold addJob. cbn [snd processing]. destruct (processing s); cbn [negb].
    + cbn [worker queue]. split; [|intros r Hr; apply in_or_app; now left].
      destruct (worker s); [now right | left; discriminate | left; discriminate].
    + unfold processQueue. cbn [processing].
      match goal with |- context [loop_head now ?st] => set (s1 := st) end.
      destruct (loop_head_cases now s1) as [(r & _ & _ & ->)|(Hnone & _)].
      * cbn [worker queue]. split; [left; discriminate|].
        intros r' Hr. subst s1. cbn [queue]. apply in_or_app. now left.
      * exfalso. apply (Hnone (length (heap s))).
        -- subst s1. cbn [queue]. apply in_or_app. right. now left.
        -- subst s1. cbn [heap]. rewrite status_at_app.
           destruct (decide (length (heap s) = length (heap s))); [reflexivity|congruence].
  - unfold resume_extract. destruct (worker s) as [|r|r text0 sent0] eqn:Ew;
      try (right; apply Hsame; [congruence | reflexivity]).
    destruct (heap s !! r) as [j|];
      [|right; apply Hsame; [congruence | reflexivity]].
    destruct (extractTextAdvanced _ _ _) as [text|e].
    + right. cbn [worker queue]. split; [left; discriminate | auto].
    + pose proof (Hsettle (mark_failed e now) now r (db s)) as H.
      cbn [with_db worker queue heap] in H. apply H. discriminate.
  - destruct (worker s) as [|r|r text sent] eqn:Ew;
      try (right; unfold resume_update; rewrite Ew; apply Hsame; [congruence|reflexivity]).
    destruct (resume_update_shape now s r text sent Ew) as [[_ ->]|(j & _ & ->)];
      [right; apply Hsame; [congruence | reflexivity]|].
    rewrite Ew. apply Hsettle. discriminate.
  - unfold reject_update. destruct (worker s) as [|r|r text sent] eqn:Ew;
      try (right; apply Hsame; [congruence | reflexivity]).
    pose proof (Hsettle (mark_failed e now) now r (db s)) as H.
    cbn [with_db worker queue heap] in H. apply H. discriminate.
Qed.

End CleanupFacts.

(** C8, as stated, fails: the clean-up is no timer, it runs only when a
    worker run ends. The photo's job was completed at 1700000002000; two hours
    later a reprocess request enqueues a second job and the worker is running
    again, and the status query still returns the completed job. *)
Lemma old_job_still_queryable :
  Queue.getJobStatus Incidents.two_hours_on (Js.lit "1-1700000000000")
  = Some (Queue.mark_completed 1700000002000 Sample.photo_job)
  /\ Queue.job_status (Queue.mark_completed 1700000002000 Sample.photo_job)
     = Queue.Completed
  /\ (Queue.one_hour <= Sample.two_hours_later - 1700000002000)%Z
  /\ Queue.processing Incidents.two_hours_on = true.
Proof. repeat split; vm_compute; (reflexivity || discriminate). Qed.

(** C8, amended. A step of the queue that ends a worker run (the worker held
    a job before it and is idle after it) leaves in the queue exactly the jobs
    that are pending or processing or were completed or failed less than an
    hour before the clock of that step: every completed or failed job whose
    completion time lies an hour or more back is then removed from the queue,
    and no status query returns it any more. No other step removes anything
    from the queue, however old the jobs in it are; and a pending or processing
    job is never removed, by any step. *)
Theorem cleanup_retention (ev : Queue.Event) (s : Queue.State) :
  (Queue.worker s <> Queue.Idle -> Queue.worker (Queue.step ev s) = Queue.Idle ->
   (forall r j t,
      Queue.heap (Queue.step ev s) !! r = Some j ->
      Queue.is_open (Queue.job_status j) = false ->
      Queue.job_processedAt j = Some t ->
      (Queue.one_hour <= Queue.clock ev - t)%Z ->
      ~ In r (Queue.queue (Queue.step ev s))
      /\ forall jobId, Queue.find_job (Queue.step ev s) jobId <> Some r)
   /\ (forall r j,
         In r (Queue.queue s) ->
         Queue.heap (Queue.step ev s) !! r = Some j ->
         (Queue.is_open (Queue.job_status j) = true
          \/ exists t, Queue.job_processedAt j = Some t
                       /\ (Queue.clock ev - t < Queue.one_hour)%Z) ->
         In r (Queue.queue (Queue.step ev s))))
  /\ (Queue.worker (Queue.step ev s) <> Queue.Idle \/ Queue.worker s = Queue.Idle ->
      forall r, In r (Queue.queue s) -> In r (Queue.queue (Queue.step ev s)))
  /\ (forall r j,
        Queue.heap s !! r = Some j -> Queue.is_open (Queue.job_status j) = true ->
        In r (Queue.queue s) -> In r (Queue.queue (Queue.step ev s))).
Proof.
  split; [|split].
  - intros Hw Hw'.
    destruct (step_queue ev s) as [(_ & _ & Hq)|[[H|H] _]]; [|contradiction..].
    split.
    + intros r j t Hj Ho Ht Hold.
      assert (Hout : ~ In r (Queue.queue (Queue.step ev s))).
      { rewrite Hq. unfold Queue.cleanup. intros Hin.
        apply filter_In in Hin as [_ Hk]. unfold Queue.keep in Hk.
        rewrite Hj, Ht in Hk. unfold Queue.is_open in Ho. rewrite Ho in Hk. simpl in Hk.
        apply Z.ltb_lt in Hk. lia. }
      split; [exact Hout|]. intros jobId Hf. apply Hout. eapply find_job_in_queue, Hf.
    + intros r j Hin Hj Hkeep. rewrite Hq. unfold Queue.cleanup.
      apply filter_In. split; [exact Hin|]. unfold Queue.keep. rewrite Hj.
      destruct Hkeep as [Ho|(t & Ht & Hrecent)].
      * unfold Queue.is_open in Ho. now rewrite Ho.
      * rewrite Ht. replace (Queue.clock ev - Queue.one_hour <? t)%Z with true;
          [now rewrite orb_true_r|]. symmetry. apply Z.ltb_lt. lia.
  - intros Hw. destruct (step_queue ev s) as [(H1 & H2 & _)|[_ H]]; [|exact H].
    destruct Hw; contradiction.
  - intros r j Hj Ho Hin. now apply (step_keeps_open ev s r j).
Qed.

(** ** Routes *)

Section RouteFacts.
Import Js Storage Extract Queue Routes.

Lemma addJob_heap_length (d : Z) (p m : jsstring) (now : Z) (s : State) :
  length (heap (snd (addJob d p m now s))) = S (length (heap s)).
Proof.
  pose proof (step_heap_length (AddJob d p m now) s) as H.
  cbn [step is_AddJob] in H. lia.
Qed.

End RouteFacts.

(** C1, as stated, fails: a JPEG whose quick pass finds 120 characters is
    enqueued all the same. *)
Lemma long_jpeg_text_still_enqueued :
  ~ (Routes.jobs_created Queue.init Sample.after_photo = 1%nat
     <-> (length (Extract.extractText (Sample.tools_ok Sample.long_text)
                    (Routes.upload_path Sample.uploadDir 1700000000000 Sample.photo)
                    Extract.mime_jpeg) < 100)%nat).
Proof.
  intros [H _].
  assert (H1 : Routes.jobs_created Queue.init Sample.after_photo = 1%nat)
    by (vm_compute; reflexivity).
  apply H in H1. vm_compute in H1. lia.
Qed.

(** C1, amended. The upload of a file runs the quick extraction and stores
    its text with the OCR flag false; it creates exactly one queue job when
    [needs_advanced] holds and none otherwise (the queue is then untouched).
    For a JPEG that condition holds whatever the quick text; for a PDF it holds
    exactly when the quick text is empty or shorter than 100 code units; for
    the Word media types it never holds. *)
Theorem upload_enqueue_rule (uploadDir : jsstring) (meta : Routes.Metadata)
        (tools : Extract.Tools) (now : Z) (file : Routes.File) (s : Queue.State) :
  Storage.doc_extractedText (fst (Routes.upload_file uploadDir meta tools now file s))
  = Some (Extract.extractText tools (Routes.upload_path uploadDir now file)
            (Routes.mimetype file))
  /\ Storage.doc_ocrProcessed (fst (Routes.upload_file uploadDir meta tools now file s))
     = Some false
  /\ Routes.jobs_created s (snd (Routes.upload_file uploadDir meta tools now file s))
     = (if Routes.needs_advanced (Routes.mimetype file)
             (Extract.extractText tools (Routes.upload_path uploadDir now file)
                (Routes.mimetype file))
        then 1%nat else 0%nat)
  /\ (Routes.needs_advanced (Routes.mimetype file)
        (Extract.extractText tools (Routes.upload_path uploadDir now file)
           (Routes.mimetype file)) = false ->
      Queue.heap (snd (Routes.upload_file uploadDir meta tools now file s)) = Queue.heap s
      /\ Queue.queue (snd (Routes.upload_file uploadDir meta tools now file s))
         = Queue.queue s)
  /\ (forall quickText, Routes.needs_advanced Extract.mime_jpeg quickText = true)
  /\ (forall quickText,
        Routes.needs_advanced Extract.mime_pdf quickText
        = (Routes.falsy quickText || (length quickText <? 100)%nat))
  /\ (forall quickText,
        Routes.needs_advanced Extract.mime_doc quickText = false
        /\ Routes.needs_advanced Extract.mime_docx quickText = false).
Proof.
  unfold Routes.upload_file, Routes.jobs_created, Storage.createDocument.
  cbn [fst snd Storage.doc_extractedText Storage.doc_ocrProcessed Storage.ins_extractedText
       Storage.ins_ocrProcessed].
  split; [reflexivity|]. split; [reflexivity|].
  destruct (Routes.needs_advanced _ _); (split; [|split; [|split; [|split]]]).
  - rewrite addJob_heap_length. simpl. lia.
  - discriminate.
  - reflexivity.
  - reflexivity.
  - split; reflexivity.
  - simpl. lia.
  - split; reflexivity.
  - reflexivity.
  - reflexivity.
  - split; reflexivity.
Qed.

(** C9. A reprocess request for an existing document whose file is not on
    disk answers 404 with the message "File not found on disk" and leaves the
    queue, and the whole state, as it was. *)
Theorem reprocess_missing_file (existsSync : jsstring -> bool) (id now : Z)
        (s : Queue.State) (document : Storage.Document) :
  Storage.getDocument id (Queue.db s) = Some document ->
  existsSync (Storage.doc_filePath document) = false ->
  Routes.reprocess existsSync id now s
  = ({| Routes.res_status := 404;
        Routes.res_body := Routes.Message (Js.lit "File not found on disk") |}, s).
Proof.
  intros Hd He. unfold Routes.reprocess. now rewrite Hd, He.
Qed.

Lemma reprocess_missing_file_witness :
  fst (Routes.reprocess (fun _ => false) 1 1700000005000 Sample.after_photo)
  = {| Routes.res_status := 404;
       Routes.res_body := Routes.Message (Js.lit "File not found on disk") |}
  /\ snd (Routes.reprocess (fun _ => false) 1 1700000005000 Sample.after_photo)
     = Sample.after_photo.
Proof.
  destruct (Storage.getDocument 1 (Queue.db Sample.after_photo)) as [document|] eqn:E;
    [|vm_compute in E; discriminate].
  rewrite (reprocess_missing_file (fun _ => false) 1 1700000005000 Sample.after_photo
             document E eq_refl).
  split; reflexivity.
Defined.

Lemma worker_records_outcome_witness :
  Queue.heap Sample.after_photo !! 0%nat = Some Sample.photo_job
  /\ Queue.worker (Queue.step (Queue.ExtractDone (Sample.tools_ok Sample.long_text)
                                 1700000001000) Sample.after_photo)
     = Queue.AwaitUpdate 0 Sample.long_text 1700000001000.
Proof.
  assert (H : Queue.heap Sample.after_photo !! 0%nat = Some Sample.photo_job)
    by (vm_compute; reflexivity).
  split; [exact H|].
  exact (proj1 (proj1 (worker_records_outcome Sample.after_photo 0 Sample.photo_job H)
                  eq_refl (Sample.tools_ok Sample.long_text) 1700000001000%Z)).
Defined.

Lemma cleanup_retention_witness :
  ~ In 0%nat (Queue.queue (Queue.step Incidents.failure_two_hours_on Incidents.two_hours_on)).
Proof.
  refine (proj1 (proj1 (proj1 (cleanup_retention Incidents.failure_two_hours_on
                                 Incidents.two_hours_on) _ _)
                   0%nat (Queue.mark_completed 1700000002000 Sample.photo_job)
                   1700000002000%Z _ _ _ _));
    vm_compute; (reflexivity || discriminate).
Defined.

(** The clean-up runs when the worker loop ends, not on a timer: two hours
    after the photo's job completed it is still in the queue; the next worker
    run, started by a reprocess request that then fails, removes it. *)
Example old_job_purged_by_next_run :
  Queue.getJobStatus Sample.photo_done (Js.lit "1-1700000000000")
  = Some (Queue.mark_completed 1700000002000 Sample.photo_job)
  /\ Queue.getJobStatus
       (Queue.run [Queue.AddJob 1 Sample.photo_path Extract.mime_jpeg Sample.two_hours_later;
                   Queue.ExtractDone (Sample.tools_fail (Js.lit "no such file"))
                     (Sample.two_hours_later + 40)]
          Sample.photo_done)
       (Js.lit "1-1700000000000")
     = None.
Proof. split; vm_compute; reflexivity. Qed.

(** ** Extraction of Office documents *)

(** C7, as stated, fails. For the media type of .docx files, which both
    passes route to their "Word documents" branch, a failure of the raw-text
    extraction is not replaced by the sentinel: the advanced pass throws the
    error on to the queue, and the quick pass returns the generic error text. *)
Lemma docx_failure_not_sentinel :
  Extract.is_wordprocessingml Extract.mime_docx = true
  /\ Extract.extractTextAdvanced (Sample.tools_fail (Js.lit "Can't find end of central directory"))
       Sample.docx_path Extract.mime_docx
     = Extract.Throw (Extract.ErrorObject (Js.lit "Can't find end of central directory"))
  /\ Extract.extractText (Sample.tools_fail (Js.lit "Can't find end of central directory"))
       Sample.docx_path Extract.mime_docx
     = Js.lit "Erro na extração de texto: Can't find end of central directory"
  /\ Extract.extractText (Sample.tools_fail (Js.lit "Can't find end of central directory"))
       Sample.docx_path Extract.mime_docx
     <> Extract.quick_office_sentinel.
Proof.
  split; [vm_compute; reflexivity|]. split; [vm_compute; reflexivity|].
  split; [vm_compute; reflexivity|]. vm_compute. discriminate.
Qed.

(** C7, amended. For a media type that is neither an image nor PDF: when
    the raw-text extraction succeeds, both passes return its text, in the
    "Word documents" branch (media types containing "wordprocessingml") as in
    the "other Office documents" branch (containing "document", "word" or
    "msword"). When it fails with [e], the "other Office documents" branch
    returns the fixed sentinel of its pass and does not throw; the "Word
    documents" branch does not catch the failure: the quick pass returns the
    error text built from [e], the advanced pass throws [e]. *)
Theorem office_extraction (tools : Extract.Tools) (filePath mimeType : jsstring) :
  Js.startsWith mimeType (Js.lit "image/") = false ->
  Js.eqb mimeType Extract.mime_pdf = false ->
  (forall value, Extract.extractRawText tools filePath = Extract.Ok value ->
     Extract.is_wordprocessingml mimeType || Extract.is_other_office mimeType = true ->
     Extract.extractText tools filePath mimeType = value
     /\ Extract.extractTextAdvanced tools filePath mimeType = Extract.Ok value)
  /\ (forall e, Extract.extractRawText tools filePath = Extract.Throw e ->
        Extract.is_wordprocessingml mimeType = false ->
        Extract.is_other_office mimeType = true ->
        Extract.extractText tools filePath mimeType = Extract.quick_office_sentinel
        /\ Extract.extractTextAdvanced tools filePath mimeType
           = Extract.Ok Extract.advanced_office_sentinel)
  /\ (forall e, Extract.extractRawText tools filePath = Extract.Throw e ->
        Extract.is_wordprocessingml mimeType = true ->
        Extract.extractText tools filePath mimeType
        = Extract.quick_error_prefix
            ++ Extract.message_or (Js.lit "Erro desconhecido") e
        /\ Extract.extractTextAdvanced tools filePath mimeType = Extract.Throw e).
Proof.
  intros Hi Hp. unfold Extract.extractText, Extract.extractTextAdvanced.
  rewrite Hi, Hp. split; [|split].
  - intros value Hv Hb. rewrite Hv.
    destruct (Extract.is_wordprocessingml mimeType); [split; reflexivity|].
    simpl in Hb. rewrite Hb. split; reflexivity.
  - intros e He Hw Ho. rewrite He, Hw, Ho. split; reflexivity.
  - intros e He Hw. rewrite He, Hw. split; reflexivity.
Qed.

Lemma office_extraction_witness :
  Js.startsWith Extract.mime_doc (Js.lit "image/") = false
  /\ Js.eqb Extract.mime_doc Extract.mime_pdf = false
  /\ Extract.extractTextAdvanced (Sample.tools_fail (Js.lit "not a zip file"))
       Sample.doc_path Extract.mime_doc
     = Extract.Ok Extract.advanced_office_sentinel.
Proof.
  assert (Hi : Js.startsWith Extract.mime_doc (Js.lit "image/") = false)
    by (vm_compute; reflexivity).
  assert (Hp : Js.eqb Extract.mime_doc Extract.mime_pdf = false)
    by (vm_compute; reflexivity).
  assert (Hw : Extract.is_wordprocessingml Extract.mime_doc = false)
    by (vm_compute; reflexivity).
  assert (Ho : Extract.is_other_office Extract.mime_doc = true)
    by (vm_compute; reflexivity).
  split; [exact Hi|]. split; [exact Hp|].
  destruct (office_extraction (Sample.tools_fail (Js.lit "not a zip file"))
              Sample.doc_path Extract.mime_doc Hi Hp) as (_ & H & _).
  exact (proj2 (H (Extract.ErrorObject (Js.lit "not a zip file")) eq_refl Hw Ho)).
Defined.

(** ** Search *)

Section SearchFacts.
Import Js Storage Search.
Variable lower : N -> N.
Variable collate_le : jsstring -> jsstring -> bool.
Variable parseDate : jsstring -> option Z.
Variable scan : list Document -> list Document.
Hypothesis scan_perm : forall l, Permutation (scan l) l.

Lemma like_any (v : jsstring) : like_match lower [AnySeq] v = true.
Proof. induction v as [|c v IH]; simpl in *; [reflexivity | exact IH]. Qed.

Lemma like_prefix (q v : jsstring) :
  like_match lower (List.map Lit q ++ [AnySeq]) v
  = startsWith (List.map lower v) (List.map lower q).
Proof.
  revert v. induction q as [|c q IH]; intros v.
  - rewrite like_any. now destruct v.
  - destruct v as [|d v]; [reflexivity|].
    cbn [List.map app like_match startsWith]. now rewrite IH.
Qed.

Lemma like_contains (q v : jsstring) :
  like_match lower (AnySeq :: List.map Lit q ++ [AnySeq]) v
  = includes (List.map lower v) (List.map lower q).
Proof.
  induction v as [|d v IH].
  - cbn [like_match List.map includes]. rewrite like_prefix. reflexivity.
  - change (like_match lower (AnySeq :: List.map Lit q ++ [AnySeq]) (d :: v))
      with (like_match lower (List.map Lit q ++ [AnySeq]) (d :: v)
            || like_match lower (AnySeq :: List.map Lit q ++ [AnySeq]) v).
    rewrite IH, like_prefix. reflexivity.
Qed.

Lemma like_tokens_plain (q : jsstring) :
  forallb (fun c => negb (is_meta c)) q = true ->
  like_tokens (q ++ [percent]) = List.map Lit q ++ [AnySeq].
Proof.
  induction q as [|c q IH]; intros H; [reflexivity|].
  cbn [forallb] in H. apply andb_true_iff in H as [Hc Hq].
  unfold is_meta in Hc. rewrite !negb_orb in Hc.
  apply andb_true_iff in Hc as [Hc Hb]. apply andb_true_iff in Hc as [Hp Hu].
  apply negb_true_iff in Hp, Hu, Hb.
  cbn [app like_tokens List.map]. rewrite Hb, Hp, Hu.
  now rewrite IH.
Qed.

Lemma contains_pattern_plain (q v : jsstring) :
  forallb (fun c => negb (is_meta c)) q = true ->
  like_match lower (like_tokens (contains_pattern q)) v = ci_substring lower q v.
Proof.
  intros H. unfold contains_pattern, ci_substring.
  change (like_tokens (percent :: q ++ [percent]))
    with (AnySeq :: like_tokens (q ++ [percent])).
  rewrite like_tokens_plain by exact H. apply like_contains.
Qed.

Lemma sql_or_true (a b : option bool) :
  sql_or a b = Some true <-> a = Some true \/ b = Some true.
Proof. destruct a as [[|]|], b as [[|]|]; simpl; intuition congruence. Qed.

Lemma sql_and_true (a b : option bool) :
  sql_and a b = Some true <-> a = Some true /\ b = Some true.
Proof. destruct a as [[|]|], b as [[|]|]; simpl; intuition congruence. Qed.

Lemma ilike_true (column : option jsstring) (pattern : jsstring) :
  ilike lower column pattern = Some true
  <-> exists v, column = Some v /\ like_match lower (like_tokens pattern) v = true.
Proof.
  unfold ilike. destruct column as [v|]; split.
  - intros [= H]. eauto.
  - intros (v' & [= <-] & H). now rewrite H.
  - discriminate.
  - intros (v' & H & _). discriminate.
Qed.

Lemma query_condition_true (q : jsstring) (d : Document) :
  query_condition lower q d = Some true <-> query_matches lower q d.
Proof.
  unfold query_condition, query_matches, text_fields.
  rewrite !sql_or_true, !ilike_true. split.
  - intros [H|[H|[H|H]]]; destruct H as (v & E & Hm); exists v; rewrite <- E;
      simpl; auto 6.
  - intros (v & Hin & Hm). simpl in Hin.
    destruct Hin as [E|[E|[E|[E|[]]]]]; [left|right; left|right; right; left|right; right; right];
      exists v; split; assumption.
Qed.

Lemma whereClause_true (conds : list Condition) (d : Document) :
  whereClause conds d = Some true <-> forall c, In c conds -> c d = Some true.
Proof.
  induction conds as [|c conds IH]; simpl.
  - split; [intros _ c [] | reflexivity].
  - rewrite sql_and_true, IH. split.
    + intros [H1 H2] c' [<-|Hin]; auto.
    + intros H. split; [apply H; now left | intros c' Hc'; apply H; now right].
Qed.

Lemma selected_true (conds : list Condition) (d : Document) :
  selected conds d = true <-> forall c, In c conds -> c d = Some true.
Proof.
  rewrite <- whereClause_true. unfold selected.
  destruct (whereClause conds d) as [[|]|]; split; congruence.
Qed.

Lemma in_push {A : Type} (x : option A) (f : A -> Condition) (c : Condition) :
  In c (push x f) <-> exists v, x = Some v /\ c = f v.
Proof.
  unfold push. destruct x as [v|]; simpl; split.
  - intros [<-|[]]. eauto.
  - intros (v' & [= <-] & ->). now left.
  - intros [].
  - intros (v' & H & _). discriminate.
Qed.

Lemma sql_eq_true (column : option jsstring) (value : jsstring) :
  sql_eq column value = Some true <-> column = Some value.
Proof.
  unfold sql_eq. destruct column as [v|]; [|split; discriminate].
  split.
  - intros [= H]. apply eqb_eq in H. now subst.
  - intros [= ->]. f_equal. now apply eqb_eq.
Qed.

Lemma date_bound_Some (x : option jsstring) (b : option Z) :
  date_bound parseDate x = Some b ->
  match b with
  | Some t => exists str, provided x = Some str /\ parseDate str = Some t
  | None => provided x = None
  end.
Proof.
  unfold date_bound. destruct (provided x) as [str|]; [|now intros [= <-]].
  destruct (parseDate str) as [t|] eqn:E; [|discriminate].
  intros [= <-]. eauto.
Qed.

(** A selected row satisfies every provided filter. *)
Lemma selected_satisfies (p : SearchParams) (from to : option Z) (d : Document) :
  date_bound parseDate (sp_dateFrom p) = Some from ->
  date_bound parseDate (sp_dateTo p) = Some to ->
  selected (whereConditions lower p from to) d = true ->
  satisfies lower parseDate p d.
Proof.
  intros Hf Ht Hs. rewrite selected_true in Hs.
  apply date_bound_Some in Hf, Ht. unfold whereConditions in Hs.
  assert (Hq : forall c, In c (push (provided (sp_query p)) (query_condition lower)) ->
                         c d = Some true) by (intros; apply Hs; rewrite !in_app_iff; auto).
  assert (Hc : forall c, In c (push (provided (sp_category p))
                                 (fun c d => sql_eq (Some (doc_category d)) c)) ->
                         c d = Some true) by (intros; apply Hs; rewrite !in_app_iff; auto).
  assert (Hd : forall c, In c (push (provided (sp_department p))
                                 (fun c d => sql_eq (doc_department d) c)) ->
                         c d = Some true) by (intros; apply Hs; rewrite !in_app_iff; auto).
  assert (Hfrom : forall c, In c (push from (fun t d => sql_gte (doc_documentDate d) t)) ->
                            c d = Some true)
    by (intros; apply Hs; rewrite !in_app_iff; auto 6).
  assert (Hto : forall c, In c (push to (fun t d => sql_lte (doc_documentDate d) t)) ->
                          c d = Some true)
    by (intros; apply Hs; rewrite !in_app_iff; auto 6).
  clear Hs. repeat split.
  - intros q E. apply query_condition_true. apply Hq, in_push. eauto.
  - intros c E. specialize (Hc _ (proj2 (in_push _ _ _) (ex_intro _ c (conj E eq_refl)))).
    apply sql_eq_true in Hc. congruence.
  - intros c E. specialize (Hd _ (proj2 (in_push _ _ _) (ex_intro _ c (conj E eq_refl)))).
    now apply sql_eq_true in Hd.
  - intros str E. destruct from as [t0|]; [|congruence].
    destruct Hf as (str' & E' & Hp). assert (str' = str) by congruence. subst str'.
    specialize (Hfrom _ (proj2 (in_push _ _ _) (ex_intro _ t0 (conj eq_refl eq_refl)))).
    unfold sql_gte in Hfrom. destruct (doc_documentDate d) as [t|]; [|discriminate].
    injection Hfrom as Hfrom. apply Z.leb_le in Hfrom. eauto.
  - intros str E. destruct to as [t1|]; [|congruence].
    destruct Ht as (str' & E' & Hp). assert (str' = str) by congruence. subst str'.
    specialize (Hto _ (proj2 (in_push _ _ _) (ex_intro _ t1 (conj eq_refl eq_refl)))).
    unfold sql_lte in Hto. destruct (doc_documentDate d) as [t|]; [|discriminate].
    injection Hto as Hto. apply Z.leb_le in Hto. eauto.
Qed.

(** A row that satisfies every provided filter is selected. *)
Lemma satisfies_selected (p : SearchParams) (from to : option Z) (d : Document) :
  date_bound parseDate (sp_dateFrom p) = Some from ->
  date_bound parseDate (sp_dateTo p) = Some to ->
  satisfies lower parseDate p d ->
  selected (whereConditions lower p from to) d = true.
Proof.
  intros Hf Ht (Sq & Sc & Sd & Sf & St). apply selected_true.
  apply date_bound_Some in Hf, Ht. unfold whereConditions.
  intros c Hc. rewrite !in_app_iff, !in_push in Hc.
  destruct Hc as [(q & E & ->)|[(v & E & ->)|[(v & E & ->)|[(t0 & E & ->)|(t1 & E & ->)]]]].
  - apply query_condition_true, Sq, E.
  - apply sql_eq_true. f_equal. apply Sc, E.
  - apply sql_eq_true, Sd, E.
  - subst from. destruct Hf as (str & Hp & Hd).
    destruct (Sf str Hp) as (t0' & t & Hd' & Hdoc & Hle).
    rewrite Hdoc. simpl. f_equal. apply Z.leb_le. congruence.
  - subst to. destruct Ht as (str & Hp & Hd).
    destruct (St str Hp) as (t1' & t & Hd' & Hdoc & Hle).
    rewrite Hdoc. simpl. f_equal. apply Z.leb_le. congruence.
Qed.

Lemma In_insert_by (le : Document -> Document -> bool) (x a : Document) (l : list Document) :
  In x (insert_by le a l) <-> x = a \/ In x l.
Proof.
  induction l as [|y l IH]; simpl; [intuition|].
  destruct (le a y); simpl; [intuition|]. rewrite IH. intuition.
Qed.

Lemma In_order_by (le : Document -> Document -> bool) (x : Document) (l : list Document) :
  In x (order_by le l) <-> In x l.
Proof.
  induction l as [|a l IH]; simpl; [reflexivity|].
  rewrite In_insert_by, IH. intuition.
Qed.

Lemma In_take {A : Type} (n : nat) (l : list A) (x : A) : In x (take n l) -> In x l.
Proof.
  revert l. induction n as [|n IH]; intros [|a l]; simpl; try tauto.
  intros [H|H]; auto.
Qed.

Lemma In_take_drop (n k : nat) (x : Document) (l : list Document) :
  In x (take n (drop k l)) -> In x l.
Proof. intros H. apply (In_drop k), (In_take n), H. Qed.

Section Sorting.
Variable le : Document -> Document -> bool.
Hypothesis le_total : forall a b, le a b = true \/ le b a = true.
Hypothesis le_trans : forall a b c, le a b = true -> le b c = true -> le a c = true.





End Sorting.






Hypothesis collate_total : forall a b, collate_le a b = true \/ collate_le b a = true.
Hypothesis collate_trans :
  forall a b c, collate_le a b = true -> collate_le b c = true -> collate_le a c = true.





Lemma search_sound (p : SearchParams) (d : Db) (docs : list Document) (total : nat) :
  searchDocuments lower collate_le parseDate scan p d = Some (docs, total) ->
  exists matching,
    total = length matching
    /\ (forall x, In x docs -> In x matching)
    /\ (forall x, In x matching <-> In x (rows d) /\ satisfies lower parseDate p x).
Proof.
  unfold searchDocuments.
  destruct (date_bound parseDate (sp_dateFrom p)) as [from|] eqn:Ef; [|discriminate].
  destruct (date_bound parseDate (sp_dateTo p)) as [to|] eqn:Et; [|discriminate].
  intros [= <- <-].
  exists (List.filter (selected (whereConditions lower p from to)) (rows d)).
  split; [reflexivity|]. split.
  - intros x Hx. apply In_take_drop, In_order_by in Hx.
    exact (Permutation_in x (scan_perm _) Hx).
  - intros x. rewrite filter_In. split; intros [Hin Hs]; (split; [exact Hin|]).
    + now apply (selected_satisfies p from to).
    + now apply satisfies_selected.
Qed.

End SearchFacts.




(** C5, as stated, fails: the query text is spliced into a LIKE pattern, so
    its [_], [%] and backslash are pattern characters. The query "a_c" returns
    the document titled "abc", although "a_c" is not a substring, in any case,
    of any of its text fields. *)
Lemma underscore_query_is_wildcard :
  Search.searchDocuments Search.ascii_lower Search.codeunit_le Sample.parse_sample
    Search.table_order
    (Sample.search (Some "a_c"%string) "relevance") Sample.table
  = Some ([Sample.doc_abc], 1%nat)
  /\ ~ Search.query_is_substring Search.ascii_lower (Js.lit "a_c") Sample.doc_abc.
Proof.
  split; [vm_compute; reflexivity|].
  intros (v & Hin & H). simpl in Hin.
  destruct Hin as [E|[E|[E|[E|[]]]]]; try discriminate.
  injection E as <-. vm_compute in H. discriminate.
Qed.

(** C5, amended. Whatever the order in which the rows are delivered: the
    rows a search matches are exactly the rows of the table that satisfy every
    provided filter, the total is their number and every returned document is
    one of them. The filters are: the free-text
    query, as the LIKE pattern [%query%] matched case-insensitively against
    title, description, subject or extracted text; category and department by
    equality; the document date within the inclusive bounds [dateFrom] and
    [dateTo]. For a query without [%], [_] and backslash the free-text filter
    is exactly the case-insensitive substring test across those fields. *)
Theorem search_filters_conjunctive (lower : N -> N)
        (collate_le : jsstring -> jsstring -> bool) (parseDate : jsstring -> option Z)
        (scan : list Storage.Document -> list Storage.Document)
        (p : Search.SearchParams) (d : Storage.Db)
        (docs : list Storage.Document) (total : nat) :
  (forall l, Permutation (scan l) l) ->
  Search.searchDocuments lower collate_le parseDate scan p d = Some (docs, total) ->
  (exists matching,
     total = length matching
     /\ (forall x, In x docs -> In x matching)
     /\ (forall x, In x matching
                   <-> In x (Storage.rows d) /\ Search.satisfies lower parseDate p x))
  /\ (forall q x, forallb (fun c => negb (Search.is_meta c)) q = true ->
        (Search.query_matches lower q x <-> Search.query_is_substring lower q x)).
Proof.
  intros Hscan H.
  split; [now apply (search_sound lower collate_le parseDate scan Hscan p d docs total)|].
  intros q x Hq. unfold Search.query_matches, Search.query_is_substring.
  split; intros (v & Hin & Hm); exists v; (split; [exact Hin|]).
  - now rewrite <- contains_pattern_plain.
  - now rewrite contains_pattern_plain.
Qed.

Lemma search_filters_conjunctive_witness :
  Search.searchDocuments Search.ascii_lower Search.codeunit_le Sample.parse_sample
    Search.table_order
    (Sample.search (Some "ZONING"%string) "relevance") Sample.table
  = Some ([Sample.doc_plan], 1%nat)
  /\ Search.satisfies Search.ascii_lower Sample.parse_sample
       (Sample.search (Some "ZONING"%string) "relevance") Sample.doc_plan.
Proof.
  assert (H : Search.searchDocuments Search.ascii_lower Search.codeunit_le
                Sample.parse_sample Search.table_order (Sample.search (Some "ZONING"%string) "relevance")
                Sample.table
              = Some ([Sample.doc_plan], 1%nat)) by (vm_compute; reflexivity).
  split; [exact H|].
  destruct (proj1 (search_filters_conjunctive _ _ _ Search.table_order _ _ _ _
                     (fun l => Permutation_refl l) H))
    as (matching & _ & Hdocs & Hmatch).
  exact (proj2 (proj1 (Hmatch Sample.doc_plan) (Hdocs Sample.doc_plan (or_introl eq_refl)))).
Defined.




(** * Further properties of the code *)

(** ** The queue: counts, order, retention *)

Section QueueLawFacts.
Import Js Storage Extract Queue QueueLaws.

Lemma status_counts (h : list QueueJob) (l : list nat) :
  (forall r, In r l -> (r < length h)%nat) ->
  length l
  = (length (List.filter (has_status h Pending) l)
     + length (List.filter (has_status h Processing) l)
     + length (List.filter (has_status h Completed) l)
     + length (List.filter (has_status h Failed) l))%nat.
Proof.
  induction l as [|a l IH]; intros Hb; [reflexivity|].
  assert (Ha : (a < length h)%nat) by (apply Hb; now left).
  apply lookup_lt_is_Some_2 in Ha as [j Hj].
  specialize (IH (fun r Hr => Hb r (or_intror Hr))).
  assert (E : forall st, has_status h st a = Status_eqb (job_status j) st)
    by (intros st; unfold has_status; now rewrite Hj).
  cbn [List.filter]. rewrite !E.
  destruct (job_status j); cbn [Status_eqb length]; lia.
Qed.

Lemma find_first_sorted (f : nat -> bool) (l : list nat) (r : nat) :
  StronglySorted lt l -> List.find f l = Some r ->
  forall x, In x l -> (x < r)%nat -> f x = false.
Proof.
  induction 1 as [|a l Hs IH Ha]; simpl; [discriminate|].
  destruct (f a) eqn:E.
  - intros [= <-] x [<-|Hx] Hlt; [lia|].
    rewrite List.Forall_forall in Ha. apply Ha in Hx. lia.
  - intros Hf x [<-|Hx] Hlt; [exact E | now apply IH].
Qed.

Lemma filter_sorted (f : nat -> bool) (l : list nat) :
  StronglySorted lt l -> StronglySorted lt (List.filter f l).
Proof.
  induction 1 as [|a l Hs IH Ha]; simpl; [constructor|].
  destruct (f a); [|exact IH]. constructor; [exact IH|].
  apply List.Forall_forall. intros x Hx. apply filter_In in Hx as [Hx _].
  rewrite List.Forall_forall in Ha. now apply Ha.
Qed.

Lemma snoc_sorted (l : list nat) (n : nat) :
  StronglySorted lt l -> (forall x, In x l -> (x < n)%nat) ->
  StronglySorted lt (l ++ [n]).
Proof.
  induction 1 as [|a l Hs IH Ha]; intros Hn; simpl.
  - constructor; constructor.
  - constructor; [apply IH; intros x Hx; apply Hn; now right|].
    apply List.Forall_forall. intros x Hx. apply in_app_or in Hx as [Hx|[<-|[]]].
    + rewrite List.Forall_forall in Ha. now apply Ha.
    + apply Hn. now left.
Qed.

Lemma sorted_lt_NoDup (l : list nat) : StronglySorted lt l -> NoDup l.
Proof.
  induction 1 as [|a l Hs IH Ha]; constructor; [|exact IH].
  intros Hin. apply list_elem_of_In in Hin.
  rewrite List.Forall_forall in Ha. apply Ha in Hin. lia.
Qed.

Lemma find_filter_keeps (f g : nat -> bool) (l : list nat) (r : nat) :
  List.find f l = Some r -> g r = true -> List.find f (List.filter g l) = Some r.
Proof.
  induction l as [|a l IH]; simpl; [discriminate|].
  destruct (f a) eqn:E.
  - intros [= <-] Hg. rewrite Hg. simpl. now rewrite E.
  - intros Hf Hg. destruct (g a); simpl; [rewrite E|]; now apply IH.
Qed.

(** The loop head either starts the first pending job of the queue or,
    finding none, finishes. *)
Lemma loop_head_first (now : Z) (s : State) :
  (exists r, find_pending (heap s) (queue s) = Some r
     /\ loop_head now s =
        {| heap := alter (set_status Processing) r (heap s); queue := queue s;
           processing := processing s; worker := AwaitExtract r; db := db s |})
  \/ ((forall r, In r (queue s) -> status_at (heap s) r <> Some Pending)
      /\ loop_head now s = finish now s).
Proof.
  unfold loop_head. destruct (0 <? length (queue s))%nat eqn:El.
  - destruct (find_pending (heap s) (queue s)) as [r|] eqn:Ef.
    + left. eauto.
    + right. split; [|reflexivity]. intros r Hr. eapply find_pending_None; eauto.
  - right. split; [|reflexivity]. apply Nat.ltb_ge in El.
    destruct (queue s); [intros r []|simpl in El; lia].
Qed.

Lemma loop_head_fifo (now : Z) (s : State) :
  at_loop_head s -> fifo_invariant s -> fifo_invariant (loop_head now s).
Proof.
  intros Hlh [Hs Ho].
  destruct (loop_head_first now s) as [(r & Hf & ->)|(_ & ->)].
  - constructor; cbn [heap queue]; [exact Hs|].
    intros r1 r2 st Hlt. rewrite !status_at_alter.
    destruct (decide (r = r1)) as [<-|Hne1].
    { destruct (heap s !! r); discriminate. }
    intros H1. destruct (decide (r = r2)) as [<-|Hne2]; [|apply (Ho r1 r2 st Hlt H1)].
    intros _. exfalso. pose proof (lh_pending s Hlh r1 H1) as Hin.
    pose proof (find_first_sorted _ _ _ Hs Hf r1 Hin Hlt) as Hn.
    apply has_status_iff in H1. congruence.
  - constructor; cbn [finish heap queue]; [now apply filter_sorted | exact Ho].
Qed.

Lemma settled_fifo (f : QueueJob -> QueueJob) (r : nat) (s : State) :
  invariant s -> fifo_invariant s -> worker_job (worker s) = Some r ->
  (forall j, job_status (f j) = Completed \/ job_status (f j) = Failed) ->
  fifo_invariant {| heap := alter f r (heap s); queue := queue s;
                    processing := processing s; worker := worker s; db := db s |}.
Proof.
  intros Hinv [Hs Ho] Hw Hterm. constructor; cbn [heap queue]; [exact Hs|].
  intros r1 r2 st Hlt. rewrite !status_at_alter.
  destruct (decide (r = r1)) as [<-|Hne1].
  { destruct (heap s !! r) as [j|]; simpl; [|discriminate].
    destruct (Hterm j) as [-> | ->]; discriminate. }
  intros H1. destruct (decide (r = r2)) as [<-|Hne2]; [|apply (Ho r1 r2 st Hlt H1)].
  intros _. exfalso. destruct (inv_worker s Hinv r Hw) as [_ Hp].
  specialize (Ho r1 r Processing Hlt H1 Hp). discriminate.
Qed.

Lemma addJob_fifo (d : Z) (p m : jsstring) (now : Z) (s : State) :
  invariant s -> fifo_invariant s -> fifo_invariant (snd (addJob d p m now s)).
Proof.
  intros Hinv Hfi. pose proof Hinv as [Hnd Hb Hf Hw Hpr Hpe]. destruct Hfi as [Hs Ho].
  set (job := {| job_id := make_job_id d now; job_documentId := d; job_filePath := p;
                 job_mimeType := m; job_status := Pending; job_createdAt := now;
                 job_processedAt := None; job_error := None |}).
  assert (Hpush : fifo_invariant
            {| heap := heap s ++ [job]; queue := queue s ++ [length (heap s)];
               processing := true; worker := worker s; db := db s |}).
  { constructor; cbn [heap queue].
    - apply snoc_sorted; [exact Hs | exact Hb].
    - intros r1 r2 st Hlt. rewrite !status_at_app.
      destruct (decide (r1 = length (heap s))) as [->|Hne1].
      { intros _. destruct (decide (r2 = length (heap s))); [lia|].
        intros H2. apply status_at_bound in H2. lia. }
      intros H1. destruct (decide (r2 = length (heap s))); [now intros [= <-]|].
      apply (Ho r1 r2 st Hlt H1). }
  unfold addJob. cbn [snd processing]. fold job.
  destruct (processing s) eqn:Ep; cbn [negb].
  - destruct Hpush as [H1 H2]. constructor; [exact H1 | exact H2].
  - unfold processQueue. cbn [processing heap queue worker db].
    apply loop_head_fifo; [|exact Hpush].
    assert (Hwk : worker s = Idle).
    { destruct (worker s); [reflexivity | |]; exfalso;
        (assert (false = true) by (apply Hf; discriminate)); discriminate. }
    constructor; cbn [heap queue processing].
    + apply sorted_lt_NoDup, (fi_sorted _ Hpush).
    + intros r Hr. rewrite length_app. simpl. apply in_app_or in Hr as [Hr|[<-|[]]].
      * apply Hb in Hr. lia.
      * lia.
    + reflexivity.
    + intros r. rewrite status_at_app.
      destruct (decide (r = length (heap s))); [discriminate|].
      intros H. apply Hpr in H. rewrite Hwk in H. discriminate.
    + intros r. rewrite status_at_app.
      destruct (decide (r = length (heap s))) as [->|].
      * intros _. apply in_or_app; right; now left.
      * intros H. destruct (Hpe r H). contradiction.
Qed.

End QueueLawFacts.

Section QueueRunFacts.
Import Js Storage Extract Queue QueueLaws.

Lemma fifo_init : fifo_invariant init.
Proof.
  constructor; simpl; [constructor|]. intros r1 r2 st _ H.
  unfold status_at in H. now rewrite lookup_nil in H.
Qed.

Lemma fifo_with_db (s : State) (d : Db) : fifo_invariant s -> fifo_invariant (with_db s d).
Proof. intros [H1 H2]. constructor; assumption. Qed.

Lemma step_fifo (ev : Event) (s : State) :
  invariant s -> fifo_invariant s -> fifo_invariant (step ev s).
Proof.
  intros Hinv Hfi. destruct ev as [d p m now|tools now|now|e now]; simpl.
  - now apply addJob_fifo.
  - unfold resume_extract. destruct (worker s) as [|r|r text0 sent0] eqn:Ew;
      try exact Hfi.
    destruct (heap s !! r) as [j|] eqn:Ej; [|exact Hfi].
    destruct (extractTextAdvanced tools (job_filePath j) (job_mimeType j)) as [text|e].
    + destruct Hfi as [H1 H2]. constructor; [exact H1 | exact H2].
    + rewrite <- Ew. apply loop_head_fifo.
      * apply settled_at_loop_head; [exact Hinv | now rewrite Ew | now right].
      * apply settled_fifo; [exact Hinv | exact Hfi | now rewrite Ew | now right].
  - destruct (worker s) as [|r|r text sent] eqn:Ew;
      try (unfold resume_update; rewrite Ew; exact Hfi).
    destruct (resume_update_shape now s r text sent Ew) as [[_ ->]|(j & _ & ->)];
      [exact Hfi|].
    apply fifo_with_db, loop_head_fifo.
    + apply settled_at_loop_head; [exact Hinv | now rewrite Ew | now left].
    + apply settled_fifo; [exact Hinv | exact Hfi | now rewrite Ew | now left].
  - unfold reject_update. destruct (worker s) as [|r|r text sent] eqn:Ew;
      try exact Hfi.
    rewrite <- Ew. apply loop_head_fifo.
    + apply settled_at_loop_head; [exact Hinv | now rewrite Ew | now right].
    + apply settled_fifo; [exact Hinv | exact Hfi | now rewrite Ew | now right].
Qed.

Lemma run_fifo (evs : list Event) (s : State) :
  invariant s -> fifo_invariant s -> fifo_invariant (run evs s).
Proof.
  revert s. induction evs as [|ev evs IH]; intros s Hi Hf; simpl; [exact Hf|].
  apply IH; [now apply step_invariant | now apply step_fifo].
Qed.

Lemma idle_when_flag_down (s : State) :
  invariant s -> processing s = false -> worker s = Idle.
Proof.
  intros Hinv Hp. destruct (worker s) eqn:Ew; [reflexivity | |]; exfalso;
    (assert (processing s = true) by (apply (inv_flag s Hinv); rewrite Ew; discriminate));
    congruence.
Qed.

Lemma step_keeps_settled (ev : Event) (s : State) (r : nat) (j : QueueJob) :
  invariant s -> heap s !! r = Some j -> is_open (job_status j) = false ->
  heap (step ev s) !! r = Some j.
Proof.
  intros Hinv Hj Ho. pose proof (lookup_lt_Some _ _ _ Hj) as Hlt.
  assert (Hnp : job_status j <> Pending) by (intros E; rewrite E in Ho; discriminate).
  assert (Hlh : forall now s1, heap s1 !! r = Some j -> heap (loop_head now s1) !! r = Some j).
  { intros now s1 H1. destruct (loop_head_lookup now s1 r j H1) as [H|[H _]];
      [exact H | contradiction]. }
  assert (Hother : forall rw, worker_job (worker s) = Some rw -> rw <> r).
  { intros rw Hw ->. destruct (inv_worker s Hinv r Hw) as [_ Hs].
    unfold status_at in Hs. rewrite Hj in Hs. injection Hs as Hs.
    rewrite Hs in Ho. discriminate. }
  destruct ev as [d p m now|tools now|now|e now]; simpl.
  - unfold addJob. cbn [snd processing]. destruct (processing s); cbn [negb].
    + cbn [heap]. now rewrite lookup_app_l.
    + unfold processQueue. cbn [processing]. apply Hlh. cbn [heap].
      now rewrite lookup_app_l.
  - unfold resume_extract. destruct (worker s) as [|rw|rw text0 sent0] eqn:Ew;
      try exact Hj.
    destruct (heap s !! rw) as [jw|]; [|exact Hj].
    destruct (extractTextAdvanced _ _ _) as [text|e]; [exact Hj|].
    apply Hlh. cbn [heap]. rewrite list_lookup_alter_ne; [exact Hj|].
    now apply Hother.
  - destruct (worker s) as [|rw|rw text sent] eqn:Ew;
      try (unfold resume_update; rewrite Ew; exact Hj).
    destruct (resume_update_shape now s rw text sent Ew) as [[_ ->]|(jw & _ & ->)];
      [exact Hj|].
    cbn [with_db heap]. apply Hlh. cbn [heap].
    rewrite list_lookup_alter_ne; [exact Hj|]. now apply Hother.
  - unfold reject_update. destruct (worker s) as [|rw|rw text sent] eqn:Ew;
      try exact Hj.
    apply Hlh. cbn [heap]. rewrite list_lookup_alter_ne; [exact Hj|].
    now apply Hother.
Qed.

Lemma run_keeps_settled (evs : list Event) (s : State) (r : nat) (j : QueueJob) :
  invariant s -> heap s !! r = Some j -> is_open (job_status j) = false ->
  heap (run evs s) !! r = Some j.
Proof.
  revert s. induction evs as [|ev evs IH]; intros s Hinv Hj Ho; simpl; [exact Hj|].
  apply IH; [now apply step_invariant | now apply step_keeps_settled | exact Ho].
Qed.

(** After the worker has settled its job [rw], it takes the first pending
    job, or stops when there is none. *)
Lemma settled_next (f : QueueJob -> QueueJob) (now : Z) (s : State) (rw : nat) :
  invariant s -> fifo_invariant s -> worker_job (worker s) = Some rw ->
  (forall j, job_status (f j) = Completed \/ job_status (f j) = Failed) ->
  let s' := loop_head now {| heap := alter f rw (heap s); queue := queue s;
                             processing := processing s; worker := worker s;
                             db := db s |} in
  (forall r, status_at (heap s) r = Some Pending ->
     exists next, worker s' = AwaitExtract next /\ processing s' = true
                  /\ status_at (heap s) next = Some Pending /\ (next <= r)%nat)
  /\ ((forall r, status_at (heap s) r <> Some Pending) ->
      worker s' = Idle /\ processing s' = false).
Proof.
  intros Hinv Hfi Hw Hterm s'.
  set (s1 := {| heap := alter f rw (heap s); queue := queue s;
                processing := processing s; worker := worker s; db := db s |}) in *.
  assert (Hflag : processing s = true).
  { apply (inv_flag s Hinv). destruct (worker s); [discriminate| |]; discriminate. }
  assert (Hsame : forall r, status_at (heap s) r = Some Pending ->
                            status_at (heap s1) r = Some Pending).
  { intros r Hr. cbn [s1 heap]. rewrite status_at_alter.
    destruct (decide (rw = r)) as [->|]; [|exact Hr].
    destruct (inv_worker s Hinv r Hw) as [_ Hp]. congruence. }
  assert (Hback : forall r, status_at (heap s1) r = Some Pending ->
                            status_at (heap s) r = Some Pending).
  { intros r. cbn [s1 heap]. rewrite status_at_alter.
    destruct (decide (rw = r)) as [->|]; [|auto].
    destruct (heap s !! r) as [j|]; simpl; [|discriminate].
    destruct (Hterm j) as [-> | ->]; discriminate. }
  unfold s'. destruct (loop_head_first now s1) as [(r0 & Hf & ->)|(Hnone & ->)]; split.
  - intros r Hr. exists r0. cbn [worker processing s1]. split; [reflexivity|].
    split; [exact Hflag|]. pose proof (find_pending_Some _ _ _ Hf) as [Hin0 Hp0].
    split; [now apply Hback|].
    destruct (Nat.le_gt_cases r0 r) as [Hle|Hgt]; [exact Hle|]. exfalso.
    assert (Hin : In r (queue s1)) by (cbn [s1 queue]; now apply (inv_pending s Hinv)).
    pose proof (find_first_sorted _ _ _ (fi_sorted s Hfi) Hf r Hin Hgt) as Hn.
    apply Hsame, has_status_iff in Hr. congruence.
  - intros Hno. exfalso. apply find_pending_Some in Hf as [_ Hp0].
    now apply (Hno r0), Hback.
  - intros r Hr. exfalso. apply (Hnone r); [|now apply Hsame].
    cbn [s1 queue]. now apply (inv_pending s Hinv).
  - intros _. split; reflexivity.
Qed.

Lemma addJob_new_job (d : Z) (p m : jsstring) (now : Z) (s : State) :
  exists j, heap (snd (addJob d p m now s)) !! length (heap s) = Some j
    /\ job_id j = make_job_id d now /\ job_documentId j = d
    /\ job_filePath j = p /\ job_mimeType j = m
    /\ is_open (job_status j) = true
    /\ queue (snd (addJob d p m now s)) = queue s ++ [length (heap s)]
    /\ db (snd (addJob d p m now s)) = db s.
Proof.
  unfold addJob. cbn [fst snd processing].
  set (job := {| job_id := make_job_id d now; job_documentId := d; job_filePath := p;
                 job_mimeType := m; job_status := Pending; job_createdAt := now;
                 job_processedAt := None; job_error := None |}).
  assert (H0 : (heap s ++ [job]) !! length (heap s) = Some job)
    by apply list_lookup_middle, eq_refl.
  destruct (processing s); cbn [negb].
  { exists job. cbn [heap queue db]. repeat split; try reflexivity. exact H0. }
  unfold processQueue. cbn [processing heap queue worker db].
  set (s1 := {| heap := heap s ++ [job]; queue := queue s ++ [length (heap s)];
                processing := true; worker := worker s; db := db s |}).
  destruct (loop_head_first now s1) as [(r0 & Hf & E)|(Hnone & _)].
  - rewrite E. cbn [heap queue db s1].
    destruct (decide (r0 = length (heap s))) as [->|Hne].
    + exists (set_status Processing job). rewrite list_lookup_alter_eq, H0.
      repeat split; reflexivity.
    + exists job. rewrite list_lookup_alter_ne by exact Hne. repeat split; try reflexivity.
      exact H0.
  - exfalso. apply (Hnone (length (heap s))).
    + cbn [s1 queue]. apply in_or_app. right. now left.
    + cbn [s1 heap]. unfold status_at. now rewrite H0.
Qed.

End QueueRunFacts.

(** X1. In every state the queue can reach, the counts of [getQueueStatus]
    add up: the total is the sum of the pending, processing, completed and
    failed counts. *)
Theorem queue_status_adds_up (evs : list Queue.Event) :
  Queue.qs_total (Queue.getQueueStatus (Queue.run evs Queue.init))
  = (Queue.qs_pending (Queue.getQueueStatus (Queue.run evs Queue.init))
     + Queue.qs_processing (Queue.getQueueStatus (Queue.run evs Queue.init))
     + Queue.qs_completed (Queue.getQueueStatus (Queue.run evs Queue.init))
     + Queue.qs_failed (Queue.getQueueStatus (Queue.run evs Queue.init)))%nat.
Proof.
  pose proof (run_invariant evs Queue.init invariant_init) as Hinv.
  cbn [Queue.getQueueStatus Queue.qs_total Queue.qs_pending Queue.qs_processing
       Queue.qs_completed Queue.qs_failed].
  unfold Queue.count_status. apply status_counts, (Queue.inv_bound _ Hinv).
Qed.

(** X2. The flag [processing] tells what the queue is doing: while it is
    set exactly one job of the queue is processing; when it is not set, no job
    is pending or processing, every job record is completed or failed. *)
Theorem processing_flag_meaning (evs : list Queue.Event) :
  (Queue.processing (Queue.run evs Queue.init) = true ->
   Queue.qs_processing (Queue.getQueueStatus (Queue.run evs Queue.init)) = 1%nat)
  /\ (Queue.processing (Queue.run evs Queue.init) = false ->
      forall r j, Queue.heap (Queue.run evs Queue.init) !! r = Some j ->
                  Queue.job_status j = Queue.Completed
                  \/ Queue.job_status j = Queue.Failed).
Proof.
  pose proof (run_invariant evs Queue.init invariant_init) as Hinv.
  set (s := Queue.run evs Queue.init) in *. split.
  - intros Hp. pose proof (processing_count s Hinv) as Hle.
    apply (Queue.inv_flag s Hinv) in Hp.
    destruct (Queue.worker s) as [|r|r] eqn:Ew; [contradiction| |];
      (destruct (Queue.inv_worker s Hinv r) as [Hin Hs]; [now rewrite Ew|];
       assert (Hf : In r (List.filter (Queue.has_status (Queue.heap s) Queue.Processing)
                            (Queue.queue s)))
         by (apply filter_In; split; [exact Hin | now apply has_status_iff]);
       cbn [Queue.getQueueStatus Queue.qs_processing] in *;
       unfold Queue.count_status in *;
       destruct (List.filter _ (Queue.queue s)); [destruct Hf | simpl in *; lia]).
  - intros Hp r j Hj. pose proof (idle_when_flag_down s Hinv Hp) as Hw.
    destruct (Queue.job_status j) eqn:E; auto; exfalso.
    + apply (Queue.inv_pending s Hinv r); [|exact Hw].
      unfold Queue.status_at. now rewrite Hj, <- E.
    + assert (H : Queue.worker_job (Queue.worker s) = Some r).
      { apply (Queue.inv_processing s Hinv). unfold Queue.status_at. now rewrite Hj, <- E. }
      rewrite Hw in H. discriminate.
Qed.

(** X3. Jobs are started in the order they were enqueued: while a job is
    still pending, every job enqueued after it is pending too. *)
Theorem jobs_start_in_order (evs : list Queue.Event) (r1 r2 : nat)
        (j1 j2 : Queue.QueueJob) :
  (r1 < r2)%nat ->
  Queue.heap (Queue.run evs Queue.init) !! r1 = Some j1 ->
  Queue.heap (Queue.run evs Queue.init) !! r2 = Some j2 ->
  Queue.job_status j1 = Queue.Pending ->
  Queue.job_status j2 = Queue.Pending.
Proof.
  intros Hlt H1 H2 Hp.
  pose proof (run_fifo evs Queue.init invariant_init fifo_init) as Hfi.
  apply (QueueLaws.fi_order _ Hfi r1 r2 (Queue.job_status j2) Hlt).
  - unfold Queue.status_at. now rewrite H1, <- Hp.
  - unfold Queue.status_at. now rewrite H2.
Qed.

Lemma jobs_start_in_order_witness :
  exists j1 j2,
    Queue.heap (Queue.run QueueLaws.three_jobs Queue.init) !! 1%nat = Some j1
    /\ Queue.heap (Queue.run QueueLaws.three_jobs Queue.init) !! 2%nat = Some j2
    /\ Queue.job_status j1 = Queue.Pending
    /\ Queue.job_status j2 = Queue.Pending.
Proof.
  destruct (Queue.heap (Queue.run QueueLaws.three_jobs Queue.init) !! 1%nat)
    as [j1|] eqn:E1; [|vm_compute in E1; discriminate].
  destruct (Queue.heap (Queue.run QueueLaws.three_jobs Queue.init) !! 2%nat)
    as [j2|] eqn:E2; [|vm_compute in E2; discriminate].
  assert (Hp : Queue.job_status j1 = Queue.Pending)
    by (vm_compute in E1; injection E1 as <-; reflexivity).
  exists j1, j2. split; [reflexivity|]. split; [reflexivity|]. split; [exact Hp|].
  apply (jobs_start_in_order QueueLaws.three_jobs 1 2 j1 j2); [lia | exact E1 | exact E2 | exact Hp].
Defined.

(** X4. There is no retry: once a job is completed or failed, its record
    (status, completion time, error) never changes again, whatever happens to
    the queue afterwards. *)
Theorem settled_job_never_changes (evs later : list Queue.Event) (r : nat)
        (j : Queue.QueueJob) :
  Queue.heap (Queue.run evs Queue.init) !! r = Some j ->
  Queue.is_open (Queue.job_status j) = false ->
  Queue.heap (Queue.run later (Queue.run evs Queue.init)) !! r = Some j.
Proof.
  intros Hj Ho. apply run_keeps_settled; [|exact Hj | exact Ho].
  apply run_invariant, invariant_init.
Qed.

Lemma settled_job_never_changes_witness :
  exists j,
    Queue.heap (Queue.run Sample.two_jobs Queue.init) !! 0%nat = Some j
    /\ Queue.job_status j = Queue.Failed
    /\ Queue.heap (Queue.run QueueLaws.three_jobs (Queue.run Sample.two_jobs Queue.init))
         !! 0%nat = Some j.
Proof.
  destruct (Queue.heap (Queue.run Sample.two_jobs Queue.init) !! 0%nat)
    as [j|] eqn:E; [|vm_compute in E; discriminate].
  assert (Hs : Queue.job_status j = Queue.Failed)
    by (vm_compute in E; injection E as <-; reflexivity).
  exists j. split; [reflexivity|]. split; [exact Hs|].
  apply (settled_job_never_changes Sample.two_jobs QueueLaws.three_jobs 0 j E).
  now rewrite Hs.
Defined.

(** X5. A failed extraction does not stop the worker: when the job it holds
    fails while other jobs are pending, it takes the oldest pending job next
    and stays active; when no job is pending it stops and resets the flag. *)
Theorem worker_goes_on_after_failure (evs : list Queue.Event) (tools : Extract.Tools)
        (now : Z) (r : nat) (j : Queue.QueueJob) (e : Extract.Thrown) :
  Queue.worker (Queue.run evs Queue.init) = Queue.AwaitExtract r ->
  Queue.heap (Queue.run evs Queue.init) !! r = Some j ->
  Extract.extractTextAdvanced tools (Queue.job_filePath j) (Queue.job_mimeType j)
  = Extract.Throw e ->
  (forall waiting,
     Queue.status_at (Queue.heap (Queue.run evs Queue.init)) waiting = Some Queue.Pending ->
     exists next,
       Queue.worker (Queue.step (Queue.ExtractDone tools now) (Queue.run evs Queue.init))
       = Queue.AwaitExtract next
       /\ Queue.processing
            (Queue.step (Queue.ExtractDone tools now) (Queue.run evs Queue.init)) = true
       /\ Queue.status_at (Queue.heap (Queue.run evs Queue.init)) next = Some Queue.Pending
       /\ (next <= waiting)%nat)
  /\ ((forall r', Queue.status_at (Queue.heap (Queue.run evs Queue.init)) r'
                  <> Some Queue.Pending) ->
      Queue.worker (Queue.step (Queue.ExtractDone tools now) (Queue.run evs Queue.init))
      = Queue.Idle
      /\ Queue.processing
           (Queue.step (Queue.ExtractDone tools now) (Queue.run evs Queue.init)) = false).
Proof.
  intros Hw Hj He.
  pose proof (run_invariant evs Queue.init invariant_init) as Hinv.
  pose proof (run_fifo evs Queue.init invariant_init fifo_init) as Hfi.
  cbn [Queue.step]. unfold Queue.resume_extract. rewrite Hw, Hj, He. rewrite <- Hw.
  apply (settled_next (Queue.mark_failed e now) now _ r Hinv Hfi).
  - now rewrite Hw.
  - intros x. now right.
Qed.

Lemma worker_goes_on_after_failure_witness :
  Queue.worker
    (Queue.step (Queue.ExtractDone (Sample.tools_fail (Js.lit "no text")) 1700000003000)
       (Queue.run QueueLaws.three_jobs Queue.init))
  = Queue.AwaitExtract 1.
Proof.
  destruct (Queue.heap (Queue.run QueueLaws.three_jobs Queue.init) !! 0%nat)
    as [j|] eqn:Ej; [|vm_compute in Ej; discriminate].
  assert (He : Extract.extractTextAdvanced (Sample.tools_fail (Js.lit "no text"))
                 (Queue.job_filePath j) (Queue.job_mimeType j)
               = Extract.Throw (Extract.ErrorObject (Js.lit "no text")))
    by (vm_compute in Ej; injection Ej as <-; vm_compute; reflexivity).
  assert (Hw : Queue.worker (Queue.run QueueLaws.three_jobs Queue.init)
               = Queue.AwaitExtract 0) by (vm_compute; reflexivity).
  assert (Hp : Queue.status_at (Queue.heap (Queue.run QueueLaws.three_jobs Queue.init)) 1
               = Some Queue.Pending) by (vm_compute; reflexivity).
  destruct (proj1 (worker_goes_on_after_failure QueueLaws.three_jobs _ 1700000003000
                     0 j _ Hw Ej He) 1%nat Hp) as (next & Hn & _ & Hs & Hle).
  rewrite Hn. f_equal.
  destruct next as [|[|next]]; [vm_compute in Hs; discriminate | reflexivity | lia].
Defined.

(** X6. The clean-up keeps a job that was completed or failed less than an
    hour before it: the status query that found the job before the sweep finds
    it after. *)
Theorem recent_job_survives_sweep (now : Z) (s : Queue.State) (jobId : jsstring)
        (r : nat) (j : Queue.QueueJob) (t : Z) :
  Queue.find_job s jobId = Some r ->
  Queue.heap s !! r = Some j ->
  Queue.job_processedAt j = Some t ->
  (now - t < Queue.one_hour)%Z ->
  Queue.getJobStatus (Queue.finish now s) jobId = Some j.
Proof.
  intros Hf Hj Ht Hrecent. unfold Queue.getJobStatus.
  assert (Hf' : Queue.find_job (Queue.finish now s) jobId = Some r).
  { unfold Queue.find_job in *. cbn [Queue.finish Queue.heap Queue.queue].
    unfold Queue.cleanup. apply find_filter_keeps; [exact Hf|].
    unfold Queue.keep. rewrite Hj, Ht.
    replace (now - Queue.one_hour <? t)%Z with true; [now rewrite !orb_true_r|].
    symmetry. apply Z.ltb_lt. lia. }
  rewrite Hf'. exact Hj.
Qed.

Lemma recent_job_survives_sweep_witness :
  Queue.getJobStatus (Queue.finish (1700000002000 + 1000) Sample.photo_done)
    (Js.lit "1-1700000000000")
  = Some (Queue.mark_completed 1700000002000 Sample.photo_job).
Proof.
  apply (recent_job_survives_sweep _ Sample.photo_done _ 0 _ 1700000002000).
  - vm_compute. reflexivity.
  - vm_compute. reflexivity.
  - reflexivity.
  - vm_compute. reflexivity.
Defined.

(** X7. A status query with the id an enqueue has just returned always
    finds a job with that id: right after [addJob] the answer is never "not
    found". *)
Theorem enqueue_then_status_found (d : Z) (p m : jsstring) (now : Z) (s : Queue.State) :
  exists j,
    Queue.getJobStatus (snd (Queue.addJob d p m now s)) (fst (Queue.addJob d p m now s))
    = Some j
    /\ Queue.job_id j = fst (Queue.addJob d p m now s).
Proof.
  destruct (addJob_new_job d p m now s) as (j0 & H0 & Hid & _ & _ & _ & _ & Hq & _).
  change (fst (Queue.addJob d p m now s)) with (Queue.make_job_id d now).
  unfold Queue.getJobStatus, Queue.find_job.
  destruct (List.find _ (Queue.queue (snd (Queue.addJob d p m now s)))) as [r|] eqn:Ef.
  - apply find_some in Ef as [_ Hr].
    destruct (Queue.heap (snd (Queue.addJob d p m now s)) !! r) as [j|]; [|discriminate].
    exists j. split; [reflexivity|]. now apply eqb_eq.
  - exfalso. pose proof (find_none _ _ Ef (length (Queue.heap s))) as Hn.
    cbn beta in Hn. rewrite H0, Hid in Hn.
    assert (Js.eqb (Queue.make_job_id d now) (Queue.make_job_id d now) = true)
      by now apply eqb_eq.
    rewrite Hq in Hn.
    assert (Hin : In (length (Queue.heap s)) (Queue.queue s ++ [length (Queue.heap s)]))
      by (apply in_or_app; right; now left).
    specialize (Hn Hin). congruence.
Qed.

(** ** [cleanOCRText]: what it keeps *)

Section CleanLawFacts.
Import Js Clean CleanLaws.

Lemma takeWhile_Forall (p : N -> bool) (s : jsstring) :
  Forall (fun c => p c = true) (takeWhile p s).
Proof.
  induction s as [|c s IH]; simpl; [constructor|].
  destruct (p c) eqn:E; constructor; assumption.
Qed.

Lemma last_lf_bound (s : jsstring) (k : nat) : last_lf s = Some k -> (k < length s)%nat.
Proof.
  revert k. induction s as [|c s IH]; simpl; [discriminate|]. intros k.
  destruct (last_lf s) as [k'|].
  - intros [= <-]. specialize (IH k' eq_refl). lia.
  - destruct (c =? 10); [intros [= <-]; lia | discriminate].
Qed.

Lemma takeWhile_length (p : N -> bool) (s : jsstring) :
  (length (takeWhile p s) <= length s)%nat.
Proof. induction s as [|c s IH]; simpl; [lia|]. destruct (p c); simpl; lia. Qed.

(** A match of [/\n\s*\n/] is at least two code units long, lies within
    the string and consists of white space. *)
Lemma blank_lines_match (s : jsstring) (n : nat) :
  re_blank_lines s = Some n ->
  (2 <= n <= length s)%nat /\ Forall (fun c => is_ws c = true) (take n s).
Proof.
  unfold re_blank_lines. destruct s as [|c rest]; [discriminate|].
  destruct (N.eq_dec c 10) as [->|Hne].
  - destruct (last_lf (takeWhile is_ws rest)) as [k|] eqn:E; [|discriminate].
    intros [= <-]. apply last_lf_bound in E.
    pose proof (takeWhile_length is_ws rest). split; [simpl; lia|].
    cbn [take]. constructor; [reflexivity|].
    rewrite (take_drop_while is_ws rest) at 1.
    rewrite take_app_le by lia.
    apply Forall_take, takeWhile_Forall.
  - destruct c as [|q]; [discriminate|].
    do 4 (destruct q as [q|q|]; try discriminate). congruence.
Qed.

Section Replace.
Variables (m : matcher) (r : jsstring).
Hypothesis match_ws :
  forall s n, m s = Some n ->
    (n <= length s)%nat /\ (length r <= n)%nat
    /\ Forall (fun c => is_ws c = true) (take n s).
Hypothesis r_ws : Forall (fun c => is_ws c = true) r.

Lemma filter_ws_nil (l : jsstring) :
  Forall (fun c => is_ws c = true) l -> List.filter not_ws l = [].
Proof.
  induction 1 as [|c l Hc Hl IH]; simpl; [reflexivity|].
  replace (not_ws c) with false by (unfold not_ws; now rewrite Hc). exact IH.
Qed.

Lemma replace_ws_facts (s : jsstring) :
  List.filter not_ws (replace_g m r s) = List.filter not_ws s
  /\ (length (replace_g m r s) <= length s)%nat.
Proof.
  remember (length s) as k eqn:Hk. revert s Hk.
  induction k as [k IH] using lt_wf_ind. intros s Hk. subst k.
  destruct s as [|c rest].
  - unfold replace_g. cbn [replace_fuel length].
    destruct (m []) as [n|] eqn:E; [|split; [reflexivity | cbn [length]; lia]].
    destruct (match_ws [] n E) as (Hn & Hr & _). cbn [length] in Hn.
    destruct r; [split; [reflexivity | cbn [length]; lia] | cbn [length] in Hr; lia].
  - rewrite replace_g_cons. destruct (m (c :: rest)) as [[|n]|] eqn:E.
    + destruct (match_ws _ _ E) as (_ & Hr & _).
      destruct r; [|simpl in Hr; lia]. cbn [app].
      destruct (IH (length rest) ltac:(simpl; lia) rest eq_refl) as [H1 H2].
      cbn [List.filter length]. rewrite H1. split; [reflexivity | lia].
    + destruct (match_ws _ _ E) as (Hn & Hr & Hws).
      cbn [take] in Hws. cbn [length] in Hn.
      destruct (IH (length (drop n rest))
                  ltac:(rewrite length_drop; simpl; lia) (drop n rest) eq_refl)
        as [H1 H2].
      rewrite List.filter_app, length_app, H1, (filter_ws_nil r r_ws). split.
      * rewrite <- (take_drop n rest) at 2. cbn [List.filter app].
        rewrite List.filter_app. inversion Hws as [|? ? Hc Ht]; subst.
        replace (not_ws c) with false by (unfold not_ws; now rewrite Hc).
        now rewrite (filter_ws_nil _ Ht).
      * rewrite length_drop in H2. cbn [length]. lia.
    + destruct (IH (length rest) ltac:(simpl; lia) rest eq_refl) as [H1 H2].
      cbn [List.filter length]. rewrite H1. split; [reflexivity | lia].
Qed.

End Replace.

Lemma collapse_facts (s : jsstring) (b : bool) :
  List.filter not_ws (collapse b s) = List.filter not_ws s
  /\ (length (collapse b s) <= length s)%nat.
Proof.
  revert b. induction s as [|c s IH]; intros b; [split; [reflexivity | simpl; lia]|].
  cbn [collapse List.filter length].
  assert (Hn : not_ws c = negb (is_ws c)) by reflexivity.
  destruct (is_ws c) eqn:E; rewrite Hn; cbn [negb].
  - destruct (IH true) as [H1 H2]. destruct b; [split; [exact H1 | lia]|].
    cbn [List.filter length]. replace (not_ws 32) with false by reflexivity.
    split; [exact H1 | lia].
  - destruct (IH false) as [H1 H2]. cbn [List.filter length].
    rewrite Hn. cbn [negb]. rewrite H1. split; [reflexivity | lia].
Qed.

Lemma dropWhile_ws_facts (s : jsstring) :
  List.filter not_ws (dropWhile is_ws s) = List.filter not_ws s
  /\ (length (dropWhile is_ws s) <= length s)%nat.
Proof.
  induction s as [|c s [H1 H2]]; [split; [reflexivity | simpl; lia]|].
  cbn [dropWhile]. assert (Hn : not_ws c = negb (is_ws c)) by reflexivity.
  destruct (is_ws c) eqn:E; [|split; [reflexivity | lia]].
  cbn [List.filter length]. rewrite Hn. cbn [negb]. split; [exact H1 | lia].
Qed.

Lemma trim_facts (s : jsstring) :
  List.filter not_ws (trim s) = List.filter not_ws s
  /\ (length (trim s) <= length s)%nat.
Proof.
  unfold trim, trimStart, trimEnd.
  destruct (dropWhile_ws_facts s) as [H1 H2].
  destruct (dropWhile_ws_facts (rev (dropWhile is_ws s))) as [H3 H4].
  rewrite length_rev in *. split; [|lia].
  rewrite List.filter_rev, H3, List.filter_rev, rev_involutive. exact H1.
Qed.

Lemma filter_class_visible (s : jsstring) :
  List.filter not_ws (List.filter in_class s) = List.filter visible s
  /\ (length (List.filter in_class s) <= length s)%nat.
Proof.
  induction s as [|c s [H1 H2]]; [split; [reflexivity | simpl; lia]|].
  cbn [List.filter length].
  assert (Hv : visible c = in_class c && not_ws c) by reflexivity. rewrite Hv.
  destruct (in_class c); cbn [andb List.filter length].
  - destruct (not_ws c); rewrite H1; split; try reflexivity; lia.
  - split; [exact H1 | lia].
Qed.

Lemma blank_lines_hyp (s : jsstring) (n : nat) :
  re_blank_lines s = Some n ->
  (n <= length s)%nat /\ (length [10] <= n)%nat
  /\ Forall (fun c => is_ws c = true) (take n s).
Proof.
  intros H. destruct (blank_lines_match s n H) as [[H1 H2] H3]. simpl. repeat split; try lia.
  exact H3.
Qed.

Lemma clean_keeps_visible (t : jsstring) :
  List.filter not_ws (cleanOCRText t) = List.filter visible t
  /\ (length (cleanOCRText t) <= length t)%nat.
Proof.
  unfold cleanOCRText.
  assert (H10 : Forall (fun c => is_ws c = true) [10]) by (constructor; [reflexivity|constructor]).
  destruct (replace_ws_facts re_blank_lines [10] blank_lines_hyp H10 t) as [A1 A2].
  set (s1 := replace_g re_blank_lines [10] t) in *.
  destruct (filter_class_visible s1) as [B1 B2].
  destruct (collapse_facts (List.filter in_class s1) false) as [C1 C2].
  destruct (trim_facts (collapse false (List.filter in_class s1))) as [D1 D2].
  rewrite special_filter, spaces_collapse. split; [|lia].
  rewrite D1, C1, B1. clear -A1.
  assert (E : forall l, List.filter visible l = List.filter in_class (List.filter not_ws l)).
  { induction l as [|c l IH]; [reflexivity|]. cbn [List.filter].
    assert (Hv : visible c = in_class c && not_ws c) by reflexivity. rewrite Hv.
    destruct (not_ws c); destruct (in_class c) eqn:Ec; cbn [andb List.filter];
      rewrite ?Ec, ?IH; reflexivity. }
  now rewrite !E, A1.
Qed.

End CleanLawFacts.

(** X8. Cleaning keeps the text: the code units of the cleaned string that
    are not white space are exactly the code units of the input that are in the
    allowed class and not white space, in the same order. Only white space is
    rearranged and only disallowed characters are lost. *)
Theorem cleanOCRText_keeps_text (t : jsstring) :
  List.filter CleanLaws.not_ws (Clean.cleanOCRText t) = List.filter CleanLaws.visible t.
Proof. apply clean_keeps_visible. Qed.

(** X9. Cleaning never makes a text longer. *)
Theorem cleanOCRText_not_longer (t : jsstring) :
  (length (Clean.cleanOCRText t) <= length t)%nat.
Proof. apply clean_keeps_visible. Qed.

(** X10. The cleaned text is empty exactly when the input has no code unit
    that is both in the allowed class and not white space (in particular for
    the empty string and for strings of white space). *)
Theorem cleanOCRText_empty_iff (t : jsstring) :
  Clean.cleanOCRText t = []
  <-> Forall (fun c => CleanLaws.visible c = false) t.
Proof.
  destruct (clean_keeps_visible t) as [Hk _].
  pose proof (cleanOCRText_clean_form t) as (_ & _ & _ & Htrim & _).
  split.
  - intros E. rewrite E in Hk. simpl in Hk. symmetry in Hk.
    apply List.Forall_forall. intros c Hc.
    destruct (CleanLaws.visible c) eqn:Ev; [|reflexivity]. exfalso.
    assert (Hin : In c (List.filter CleanLaws.visible t)) by (apply filter_In; auto).
    rewrite Hk in Hin. destruct Hin.
  - intros Hall. destruct (Clean.cleanOCRText t) as [|c r] eqn:E; [reflexivity|]. exfalso.
    pose proof (Htrim c r eq_refl) as Hc.
    assert (Hin : In c (List.filter CleanLaws.visible t)).
    { rewrite <- Hk. cbn [List.filter].
      replace (CleanLaws.not_ws c) with true by (unfold CleanLaws.not_ws; now rewrite Hc).
      now left. }
    apply filter_In in Hin as [Hin Hv]. rewrite List.Forall_forall in Hall.
    rewrite (Hall c Hin) in Hv. discriminate.
Qed.

(** ** The documents table *)

Section StorageLawFacts.
Import Js Storage StorageLaws.

Lemma find_id_none (id : Z) (l : list Document) :
  List.find (fun d => (doc_id d =? id)%Z) l = None <-> ~ In id (List.map doc_id l).
Proof.
  induction l as [|x l IH]; simpl; [tauto|].
  destruct (doc_id x =? id)%Z eqn:E.
  - apply Z.eqb_eq in E. split; [discriminate | intros H; exfalso; apply H; now left].
  - apply Z.eqb_neq in E. rewrite IH. tauto.
Qed.

Lemma find_snoc (f : Document -> bool) (l : list Document) (x : Document) :
  List.find f (l ++ [x])
  = match List.find f l with
    | Some y => Some y
    | None => if f x then Some x else None
    end.
Proof.
  induction l as [|a l IH]; simpl; [reflexivity|]. destruct (f a); [reflexivity | exact IH].
Qed.

(** The key under which an update leaves the row with key [id]. *)
Lemma update_ids (id : Z) (u : DocumentUpdate) (now : Z) (l : list Document) :
  List.map doc_id (update_rows id u now l)
  = List.map (fun k => if (k =? id)%Z then or_keep (upd_id u) id else k)
      (List.map doc_id l).
Proof.
  unfold update_rows. induction l as [|x l IH]; simpl; [reflexivity|]. rewrite IH.
  destruct (doc_id x =? id)%Z eqn:E; [|reflexivity].
  apply Z.eqb_eq in E. cbn [apply_update doc_id]. rewrite E.
  now destruct (upd_id u).
Qed.

Lemma update_ids_same (id : Z) (u : DocumentUpdate) (now : Z) (l : list Document) :
  or_keep (upd_id u) id = id \/ ~ In id (List.map doc_id l) ->
  List.map doc_id (update_rows id u now l) = List.map doc_id l.
Proof.
  intros H. rewrite update_ids. rewrite <- (List.map_id (List.map doc_id l)) at 2.
  apply List.map_ext_in. intros k Hk.
  destruct (k =? id)%Z eqn:E; [|reflexivity]. apply Z.eqb_eq in E. subst k.
  destruct H as [H|H]; [exact H | contradiction].
Qed.

Lemma rename_NoDup (id id' : Z) (l : list Z) :
  List.NoDup l -> ~ In id' l ->
  List.NoDup (List.map (fun k => if (k =? id)%Z then id' else k) l).
Proof.
  intros Hnd Hout.
  assert (Hin : forall y l0, In y (List.map (fun k => if (k =? id)%Z then id' else k) l0) ->
                  (y = id' /\ In id l0) \/ (In y l0 /\ y <> id)).
  { intros y l0 Hy. apply in_map_iff in Hy as (k & Ek & Hk).
    destruct (k =? id)%Z eqn:E.
    - apply Z.eqb_eq in E. subst. now left.
    - apply Z.eqb_neq in E. subst. now right. }
  induction l as [|x l IH]; simpl; [constructor|].
  apply List.NoDup_cons_iff in Hnd as [Hx Hnd].
  apply List.NoDup_cons; [|apply IH; [exact Hnd | intros H; apply Hout; now right]].
  intros Hy. apply Hin in Hy as [[Ey Hid]|[Hy Hne]].
  - destruct (x =? id)%Z eqn:E.
    + apply Z.eqb_eq in E. subst x. contradiction.
    + apply Hout. left. exact Ey.
  - destruct (x =? id)%Z eqn:E.
    + apply Hout. now right.
    + contradiction.
Qed.

Lemma existsb_find (id : Z) (l : list Document) :
  existsb (fun d => (doc_id d =? id)%Z) l
  = match List.find (fun d => (doc_id d =? id)%Z) l with Some _ => true | None => false end.
Proof.
  induction l as [|x l IH]; simpl; [reflexivity|].
  destruct (doc_id x =? id)%Z; [reflexivity | exact IH].
Qed.

(** What the primary key lets through: the key stays, or no row has the
    old key, or no row has the new one. *)
Lemma no_conflict (id : Z) (u : DocumentUpdate) (d : Db) :
  key_conflict id u d = false ->
  or_keep (upd_id u) id = id
  \/ ~ In id (List.map doc_id (rows d))
  \/ ~ In (or_keep (upd_id u) id) (List.map doc_id (rows d)).
Proof.
  unfold key_conflict. destruct (upd_id u) as [id'|]; [|now left]. cbn [or_keep].
  rewrite !existsb_find. destruct (id' =? id)%Z eqn:E.
  { apply Z.eqb_eq in E. now left. }
  cbn [negb andb].
  destruct (List.find _ (rows d)) eqn:E1.
  - destruct (List.find (fun d0 => (doc_id d0 =? id')%Z) (rows d)) eqn:E2; [discriminate|].
    intros _. right. right. now apply find_id_none.
  - intros _. right. left. now apply find_id_none.
Qed.


Lemma find_moved (id : Z) (u : DocumentUpdate) (now : Z) (l : list Document)
      (row : Document) :
  List.find (fun d => (doc_id d =? id)%Z) l = Some row ->
  or_keep (upd_id u) id = id \/ ~ In (or_keep (upd_id u) id) (List.map doc_id l) ->
  List.find (fun d => (doc_id d =? or_keep (upd_id u) id)%Z) (update_rows id u now l)
  = Some (apply_update u now row).
Proof.
  unfold update_rows. induction l as [|x l IH]; [discriminate|]. cbn [List.find List.map].
  intros Hf Hnew. destruct (doc_id x =? id)%Z eqn:E.
  - injection Hf as <-. cbn [List.find apply_update doc_id].
    apply Z.eqb_eq in E. rewrite E.
    replace (or_keep (upd_id u) id =? or_keep (upd_id u) id)%Z with true
      by (symmetry; apply Z.eqb_refl).
    reflexivity.
  - cbn [List.find].
    assert (Hx : (doc_id x =? or_keep (upd_id u) id)%Z = false).
    { apply Z.eqb_neq. destruct Hnew as [Hnew|Hnew].
      - rewrite Hnew. now apply Z.eqb_neq.
      - intros Ex. apply Hnew. left. exact Ex. }
    rewrite Hx. apply IH; [exact Hf|].
    destruct Hnew as [Hnew|Hnew]; [now left | right; intros H; apply Hnew; now right].
Qed.



Lemma NoDup_map_filter (g : Document -> bool) (l : list Document) :
  List.NoDup (List.map doc_id l) -> List.NoDup (List.map doc_id (List.filter g l)).
Proof.
  induction l as [|x l IH]; simpl; [auto|]. intros H.
  apply List.NoDup_cons_iff in H as [Hx Hl]. destruct (g x); simpl; [|auto].
  apply List.NoDup_cons; [|auto]. intros Hin. apply Hx.
  apply in_map_iff in Hin as (y & Ey & Hy). apply filter_In in Hy as [Hy _].
  apply in_map_iff. eauto.
Qed.

Lemma create_wf (ins : InsertDocument) (now : Z) (d : Db) :
  db_wf d -> db_wf (snd (createDocument ins now d)).
Proof.
  intros [Hnd Hlt]. unfold createDocument, db_wf. cbn [snd rows next_id].
  rewrite List.Forall_forall in Hlt. split.
  - rewrite List.map_app. cbn [List.map doc_id].
    apply NoDup_ListNoDup, NoDup_app. split; [now apply NoDup_ListNoDup|].
    split; [|apply NoDup_singleton].
    intros x Hx Hx'. apply list_elem_of_singleton in Hx'. subst x.
    apply list_elem_of_In, in_map_iff in Hx as (y & Ey & Hy). apply Hlt in Hy. lia.
  - apply List.Forall_forall. intros x Hx. apply in_app_or in Hx as [Hx|[<-|[]]].
    + apply Hlt in Hx. lia.
    + cbn [doc_id]. lia.
Qed.

Lemma update_keys_distinct (id : Z) (u : DocumentUpdate) (now : Z) (d : Db) :
  key_conflict id u d = false ->
  List.NoDup (List.map doc_id (rows d)) ->
  List.NoDup (List.map doc_id (update_rows id u now (rows d))).
Proof.
  intros Hk Hnd. destruct (no_conflict id u d Hk) as [H|[H|H]].
  - rewrite update_ids_same by now left. exact Hnd.
  - rewrite update_ids_same by now right. exact Hnd.
  - rewrite update_ids. now apply rename_NoDup.
Qed.

Lemma update_below (id : Z) (u : DocumentUpdate) (now : Z) (d : Db) :
  (or_keep (upd_id u) id < next_id d)%Z \/ getDocument id d = None ->
  Forall (fun row => (doc_id row < next_id d)%Z) (rows d) ->
  Forall (fun row => (doc_id row < next_id d)%Z) (update_rows id u now (rows d)).
Proof.
  intros Hnew Hlt. unfold update_rows. rewrite List.Forall_forall in *.
  intros x Hx. apply in_map_iff in Hx as (y & <- & Hy).
  destruct (doc_id y =? id)%Z eqn:E; [|now apply Hlt].
  apply Z.eqb_eq in E. cbn [apply_update doc_id]. rewrite E.
  destruct Hnew as [Hnew|Hnew]; [exact Hnew|].
  exfalso. apply find_id_none in Hnew. apply Hnew. apply in_map_iff. eauto.
Qed.

Lemma delete_wf (id : Z) (d : Db) : db_wf d -> db_wf (snd (deleteDocument id d)).
Proof.
  intros [Hnd Hlt]. unfold deleteDocument, db_wf. cbn [snd rows next_id].
  split; [now apply NoDup_map_filter|].
  rewrite List.Forall_forall in *. intros x Hx. apply filter_In in Hx as [Hx _]. auto.
Qed.

Lemma getDocument_create_new (ins : InsertDocument) (now : Z) (d : Db) :
  db_wf d ->
  getDocument (next_id d) (snd (createDocument ins now d))
  = Some (fst (createDocument ins now d)).
Proof.
  intros [_ Hlt]. unfold getDocument, createDocument. cbn [fst snd rows].
  rewrite find_snoc.
  assert (Hn : List.find (fun x => (doc_id x =? next_id d)%Z) (rows d) = None).
  { apply find_id_none. intros Hin. apply in_map_iff in Hin as (y & Ey & Hy).
    rewrite List.Forall_forall in Hlt. apply Hlt in Hy. lia. }
  rewrite Hn. cbn [doc_id]. now rewrite Z.eqb_refl.
Qed.

Lemma getDocument_create_old (ins : InsertDocument) (now : Z) (d : Db) (id : Z) :
  id <> next_id d ->
  getDocument id (snd (createDocument ins now d)) = getDocument id d.
Proof.
  intros Hne. unfold getDocument, createDocument. cbn [snd rows]. rewrite find_snoc.
  destruct (List.find _ (rows d)); [reflexivity|]. cbn [doc_id].
  destruct (next_id d =? id)%Z eqn:E; [apply Z.eqb_eq in E; congruence | reflexivity].
Qed.

Lemma getDocument_delete_same (id : Z) (d : Db) :
  getDocument id (snd (deleteDocument id d)) = None.
Proof.
  unfold getDocument, deleteDocument. cbn [snd rows].
  induction (rows d) as [|x l IH]; simpl; [reflexivity|].
  destruct (doc_id x =? id)%Z eqn:E; simpl; [exact IH | now rewrite E].
Qed.

Lemma getDocument_delete_other (id id' : Z) (d : Db) :
  id' <> id -> getDocument id' (snd (deleteDocument id d)) = getDocument id' d.
Proof.
  intros Hne. unfold getDocument, deleteDocument. cbn [snd rows].
  induction (rows d) as [|x l IH]; simpl; [reflexivity|].
  destruct (doc_id x =? id)%Z eqn:E; simpl.
  - apply Z.eqb_eq in E. rewrite E.
    destruct (id =? id')%Z eqn:E'; [apply Z.eqb_eq in E'; congruence | exact IH].
  - destruct (doc_id x =? id')%Z; [reflexivity | exact IH].
Qed.

Lemma delete_result (id : Z) (d : Db) :
  fst (deleteDocument id d) = match getDocument id d with Some _ => true | None => false end.
Proof.
  unfold getDocument, deleteDocument. cbn [fst].
  induction (rows d) as [|x l IH]; simpl; [reflexivity|].
  destruct (doc_id x =? id)%Z; [reflexivity | exact IH].
Qed.

Lemma update_missing (id : Z) (u : DocumentUpdate) (now : Z) (d : Db) :
  getDocument id d = None -> update_rows id u now (rows d) = rows d.
Proof.
  unfold getDocument, update_rows.
  induction (rows d) as [|x l IH]; simpl; [reflexivity|].
  destruct (doc_id x =? id)%Z; [discriminate|]. intros H. now rewrite IH.
Qed.

End StorageLawFacts.

(** X11. The primary key and the sequence: the empty table has distinct
    ids below the sequence; [createDocument] and [deleteDocument] keep that,
    and so does every update the store takes that leaves the key alone or
    moves it below the sequence. An update that moves the key of a stored row
    to or above the sequence is taken too: the ids stay distinct, but the table
    is no longer below its sequence, so that a later insert meets that key. *)
Theorem storage_keeps_ids_unique :
  StorageLaws.db_wf Storage.empty_db
  /\ forall d, StorageLaws.db_wf d ->
       (forall ins now, StorageLaws.db_wf (snd (Storage.createDocument ins now d)))
       /\ (forall id, StorageLaws.db_wf (snd (Storage.deleteDocument id d)))
       /\ (forall id u now returned d',
             Storage.updateDocument id u now d = Some (returned, d') ->
             List.NoDup (List.map Storage.doc_id (Storage.rows d'))
             /\ Storage.next_id d' = Storage.next_id d
             /\ ((Storage.or_keep (Storage.upd_id u) id < Storage.next_id d)%Z ->
                 StorageLaws.db_wf d')
             /\ (Storage.getDocument id d <> None ->
                 (Storage.next_id d <= Storage.or_keep (Storage.upd_id u) id)%Z ->
                 ~ StorageLaws.db_wf d')).
Proof.
  split; [split; constructor|]. intros d Hd. split; [|split].
  - intros ins now. now apply create_wf.
  - intros id. now apply delete_wf.
  - intros id u now returned d'. unfold Storage.updateDocument.
    destruct (Storage.out_of_range u); [discriminate|]. cbn [orb].
    destruct (Storage.key_conflict id u d) eqn:Hk; [discriminate|].
    intros [= _ <-]. cbn [Storage.rows Storage.next_id]. destruct Hd as [Hnd Hlt].
    split; [now apply update_keys_distinct|]. split; [reflexivity|]. split.
    + intros Hnew. split; cbn [Storage.rows Storage.next_id].
      * now apply update_keys_distinct.
      * apply update_below; [now left | exact Hlt].
    + intros Hrow Hnew [_ Hbelow]. cbn [Storage.rows Storage.next_id] in Hbelow.
      destruct (Storage.getDocument id d) as [row|] eqn:Er; [|contradiction].
      assert (Hno : Storage.or_keep (Storage.upd_id u) id = id
                    \/ ~ In (Storage.or_keep (Storage.upd_id u) id)
                           (List.map Storage.doc_id (Storage.rows d))).
      { destruct (no_conflict id u d Hk) as [H|[H|H]]; [now left | | now right].
        exfalso. apply find_id_none in H. unfold Storage.getDocument in Er. congruence. }
      pose proof (find_moved id u now (Storage.rows d) row Er Hno) as Hf.
      apply List.find_some in Hf as [Hin Hid]. apply Z.eqb_eq in Hid.
      rewrite List.Forall_forall in Hbelow. apply Hbelow in Hin. lia.
Qed.

(** X12. A created document gets the next id of the sequence, is returned
    by [getDocument] under that id exactly as [createDocument] returned it, and
    leaves every other lookup as it was. *)
Theorem created_document_round_trip (ins : Storage.InsertDocument) (now : Z)
        (d : Storage.Db) :
  StorageLaws.db_wf d ->
  Storage.doc_id (fst (Storage.createDocument ins now d)) = Storage.next_id d
  /\ Storage.getDocument (Storage.doc_id (fst (Storage.createDocument ins now d)))
       (snd (Storage.createDocument ins now d))
     = Some (fst (Storage.createDocument ins now d))
  /\ (forall id, id <> Storage.next_id d ->
        Storage.getDocument id (snd (Storage.createDocument ins now d))
        = Storage.getDocument id d).
Proof.
  intros Hd. split; [reflexivity|]. split.
  - now apply getDocument_create_new.
  - intros id Hne. now apply getDocument_create_old.
Qed.

Lemma created_document_round_trip_witness :
  StorageLaws.db_wf Sample.table
  /\ Storage.getDocument 4 (snd (Storage.createDocument StorageLaws.sample_insert
                               1700000300000 Sample.table))
     = Some (fst (Storage.createDocument StorageLaws.sample_insert 1700000300000
                    Sample.table)).
Proof.
  assert (H : StorageLaws.db_wf Sample.table).
  { split.
    - cbn. repeat constructor; simpl; intuition discriminate.
    - repeat constructor. }
  split; [exact H|].
  exact (proj1 (proj2 (created_document_round_trip StorageLaws.sample_insert
                         1700000300000 Sample.table H))).
Defined.

(** X13. [deleteDocument] answers true exactly when the document existed;
    afterwards the id is not found, and every other id is found as before. *)
Theorem delete_document_effect (id : Z) (d : Storage.Db) :
  fst (Storage.deleteDocument id d)
  = match Storage.getDocument id d with Some _ => true | None => false end
  /\ Storage.getDocument id (snd (Storage.deleteDocument id d)) = None
  /\ (forall id', id' <> id ->
        Storage.getDocument id' (snd (Storage.deleteDocument id d))
        = Storage.getDocument id' d).
Proof.
  split; [apply delete_result|]. split; [apply getDocument_delete_same|].
  intros id' Hne. now apply getDocument_delete_other.
Qed.



(** Document 1 of the sample table is moved to key 50, above the
    sequence; a key that is no [integer] is refused. *)
Example update_moves_key :
  (exists returned d',
     Storage.updateDocument 1 (StorageLaws.set_key 50) 1700000400000 Sample.table
     = Some (returned, d')
     /\ Storage.getDocument 1 d' = None
     /\ (Storage.doc_title <$> Storage.getDocument 50 d') = Some (Js.lit "abc")
     /\ Storage.next_id d' = 4%Z)
  /\ Storage.updateDocument 1 (StorageLaws.set_key 99999999999) 1700000400000
       Sample.table = None.
Proof.
  split; [|vm_compute; reflexivity]. eexists. eexists.
  split; [vm_compute; reflexivity|]. repeat split; vm_compute; reflexivity.
Qed.

(** ** Search: pages *)

Section SearchLawFacts.
Import Js Storage Search SearchLaws.
Variable lower : N -> N.
Variable collate_le : jsstring -> jsstring -> bool.
Variable parseDate : jsstring -> option Z.
Variable scan : list Document -> list Document.

Lemma insert_by_perm (le : Document -> Document -> bool) (a : Document)
      (l : list Document) :
  Permutation (insert_by le a l) (a :: l).
Proof.
  induction l as [|y l IH]; simpl; [reflexivity|].
  destruct (le a y); [reflexivity|]. rewrite IH. apply perm_swap.
Qed.

Lemma order_by_perm (le : Document -> Document -> bool) (l : list Document) :
  Permutation (order_by le l) l.
Proof.
  induction l as [|a l IH]; simpl; [reflexivity|].
  rewrite insert_by_perm. now constructor.
Qed.

Lemma search_unfold (p : SearchParams) (d : Db) (docs : list Document) (total : nat) :
  searchDocuments lower collate_le parseDate scan p d = Some (docs, total) ->
  exists from to,
    date_bound parseDate (sp_dateFrom p) = Some from
    /\ date_bound parseDate (sp_dateTo p) = Some to
    /\ docs = window (sp_page p) (sp_limit p)
                (order_by (orderBy collate_le (sp_sortBy p))
                   (scan (List.filter (selected (whereConditions lower p from to))
                            (rows d))))
    /\ total = length (List.filter (selected (whereConditions lower p from to)) (rows d)).
Proof.
  unfold searchDocuments, window.
  destruct (date_bound parseDate (sp_dateFrom p)) as [from|]; [|discriminate].
  destruct (date_bound parseDate (sp_dateTo p)) as [to|]; [|discriminate].
  intros [= <- <-]. exists from, to. auto.
Qed.


Lemma like_all (k : nat) (v : jsstring) :
  like_match lower (List.repeat AnySeq (S k)) v = true.
Proof.
  revert v. induction k as [|k IH]; intros v; [apply like_any|].
  change (List.repeat AnySeq (S (S k))) with (AnySeq :: List.repeat AnySeq (S k)).
  destruct v as [|c v]; cbn [like_match]; now rewrite IH.
Qed.

Lemma like_tokens_percents (k : nat) :
  like_tokens (List.repeat percent k) = List.repeat AnySeq k.
Proof. induction k as [|k IH]; [reflexivity|]. cbn. now rewrite IH. Qed.



End SearchLawFacts.

(** X15. The number of documents on a page is the page size, or what is
    left of the matching rows after the offset when that is less; so it is
    never more than the total. *)
Theorem search_page_size (lower : N -> N) (collate_le : jsstring -> jsstring -> bool)
        (parseDate : jsstring -> option Z)
        (scan : list Storage.Document -> list Storage.Document)
        (p : Search.SearchParams) (d : Storage.Db)
        (docs : list Storage.Document) (total : nat) :
  (forall l, Permutation (scan l) l) ->
  Search.searchDocuments lower collate_le parseDate scan p d = Some (docs, total) ->
  length docs
  = Nat.min (Z.to_nat (Search.sp_limit p))
      (total - Z.to_nat ((Search.sp_page p - 1) * Search.sp_limit p))
  /\ (length docs <= total)%nat.
Proof.
  intros Hscan H.
  destruct (search_unfold lower collate_le parseDate scan p d docs total H)
    as (from & to & _ & _ & -> & ->).
  unfold SearchLaws.window. rewrite length_take, length_drop.
  rewrite (Permutation_length (order_by_perm _ _)), (Permutation_length (Hscan _)).
  split; [reflexivity | lia].
Qed.

Lemma search_page_size_witness :
  Search.searchDocuments Search.ascii_lower Search.codeunit_le Sample.parse_sample
    Search.table_order
    (SearchLaws.with_page (Sample.search None "size") 2 2) Sample.table
  = Some ([Sample.doc_plan], 3%nat)
  /\ length [Sample.doc_plan] = Nat.min 2 (3 - 2).
Proof.
  assert (H : Search.searchDocuments Search.ascii_lower Search.codeunit_le
                Sample.parse_sample Search.table_order
                (SearchLaws.with_page (Sample.search None "size") 2 2) Sample.table
              = Some ([Sample.doc_plan], 3%nat)) by (vm_compute; reflexivity).
  split; [exact H|].
  exact (proj1 (search_page_size _ _ _ Search.table_order _ _ _ _
                  (fun l => Permutation_refl l) H)).
Defined.



(** Two documents of the same size: the first page of size one, read in
    table order, and the second page, read in reverse table order, both show
    the annex, and no page shows the budget. *)
Example tied_rows_repeat_across_pages :
  Search.searchDocuments Search.ascii_lower Search.codeunit_le Sample.parse_sample
    Search.table_order (SearchLaws.with_page (Sample.search None "size") 1 1)
    SearchLaws.ties
  = Some ([SearchLaws.tie_a], 2%nat)
  /\ Search.searchDocuments Search.ascii_lower Search.codeunit_le Sample.parse_sample
       Search.reverse_order (SearchLaws.with_page (Sample.search None "size") 2 1)
       SearchLaws.ties
     = Some ([SearchLaws.tie_a], 2%nat).
Proof. split; vm_compute; reflexivity. Qed.


(** X18. The query text is not escaped: a query made only of percent signs
    matches every row, so with no other filter the total is the number of rows
    of the table. *)
Theorem percent_query_matches_all (lower : N -> N)
        (collate_le : jsstring -> jsstring -> bool) (parseDate : jsstring -> option Z)
        (scan : list Storage.Document -> list Storage.Document)
        (p : Search.SearchParams) (d : Storage.Db) (n : nat)
        (docs : list Storage.Document) (total : nat) :
  Search.sp_query p = Some (List.repeat Search.percent (S n)) ->
  SearchLaws.only_query p ->
  Search.searchDocuments lower collate_le parseDate scan p d = Some (docs, total) ->
  total = length (Storage.rows d).
Proof.
  intros Hq (Hc & Hd & Hf & Ht) H.
  unfold Search.searchDocuments, Search.date_bound, Search.whereConditions in H.
  rewrite Hq, Hc, Hd, Hf, Ht in H. injection H as _ <-. f_equal.
  cbn [Search.provided List.repeat Search.push app].
  induction (Storage.rows d) as [|x l IH]; [reflexivity|].
  cbn [List.filter]. rewrite IH.
  replace (Search.selected _ x) with true; [reflexivity|].
  symmetry. apply selected_true. intros c [<-|[]].
  apply query_condition_true. exists (Storage.doc_title x). split; [now left|].
  unfold Search.contains_pattern.
  change (Search.percent :: (Search.percent :: List.repeat Search.percent n)
            ++ [Search.percent])
    with (List.repeat Search.percent 2 ++ List.repeat Search.percent n
            ++ List.repeat Search.percent 1).
  rewrite <- !repeat_app, like_tokens_percents.
  replace (2 + (n + 1))%nat with (S (n + 2)) by lia.
  apply (like_all lower (n + 2)).
Qed.

Lemma percent_query_matches_all_witness :
  Search.searchDocuments Search.ascii_lower Search.codeunit_le Sample.parse_sample
    Search.table_order
    (Sample.search (Some "%"%string) "title") Sample.table
  = Some ([Sample.doc_memo; Sample.doc_plan; Sample.doc_abc], 3%nat)
  /\ 3%nat = length (Storage.rows Sample.table).
Proof.
  assert (H : Search.searchDocuments Search.ascii_lower Search.codeunit_le
                Sample.parse_sample Search.table_order (Sample.search (Some "%"%string) "title") Sample.table
              = Some ([Sample.doc_memo; Sample.doc_plan; Sample.doc_abc], 3%nat))
    by (vm_compute; reflexivity).
  split; [exact H|].
  assert (Hq : Search.sp_query (Sample.search (Some "%"%string) "title")
               = Some (List.repeat Search.percent 1)) by reflexivity.
  assert (Ho : SearchLaws.only_query (Sample.search (Some "%"%string) "title"))
    by (repeat split).
  exact (percent_query_matches_all _ _ _ _ _ _ 0 _ _ Hq Ho H).
Defined.

(** ** Upload, reprocess and extraction *)

Section RouteLawFacts.
Import Js Storage Extract Queue Routes Api.

Lemma upload_file_facts (uploadDir : jsstring) (meta : Metadata) (tools : Tools)
      (now : Z) (file : File) (s : State) :
  stored_as uploadDir meta (fst (upload_file uploadDir meta tools now file s))
    (file, tools, now)
  /\ doc_id (fst (upload_file uploadDir meta tools now file s)) = next_id (db s)
  /\ rows (db (snd (upload_file uploadDir meta tools now file s)))
     = rows (db s) ++ [fst (upload_file uploadDir meta tools now file s)]
  /\ length (heap (snd (upload_file uploadDir meta tools now file s)))
     = (length (heap s)
        + (if enqueues uploadDir (file, tools, now) then 1 else 0))%nat.
Proof.
  unfold upload_file, createDocument, enqueues, stored_as. cbn [fst snd].
  split; [repeat split|]. split; [reflexivity|].
  destruct (needs_advanced _ _).
  - match goal with
    | |- context [addJob ?d ?p ?m ?n ?st] =>
        destruct (addJob_new_job d p m n st) as (j & _ & _ & _ & _ & _ & _ & _ & Hdb);
        pose proof (addJob_heap_length d p m n st) as Hlen
    end.
    rewrite Hdb, Hlen. cbn [db rows heap]. split; [reflexivity | lia].
  - cbn [db rows heap]. split; [reflexivity | lia].
Qed.

Lemma upload_files_facts (uploadDir : jsstring) (meta : Metadata)
      (files : list (File * Tools * Z)) (s : State) :
  Forall2 (stored_as uploadDir meta) (fst (upload_files uploadDir meta files s)) files
  /\ rows (db (snd (upload_files uploadDir meta files s)))
     = rows (db s) ++ fst (upload_files uploadDir meta files s)
  /\ length (heap (snd (upload_files uploadDir meta files s)))
     = (length (heap s) + length (List.filter (enqueues uploadDir) files))%nat.
Proof.
  revert s. induction files as [|[[file tools] now] rest IH]; intros s.
  - cbn. split; [constructor|]. split; [now rewrite app_nil_r | lia].
  - cbn [upload_files].
    pose proof (upload_file_facts uploadDir meta tools now file s) as (H1 & _ & H3 & H4).
    destruct (upload_file uploadDir meta tools now file s) as [document s1].
    cbn [fst snd] in *. specialize (IH s1). destruct IH as (I1 & I2 & I3).
    destruct (upload_files uploadDir meta rest s1) as [documents s2].
    cbn [fst snd] in *. split; [now constructor|]. split.
    + rewrite I2, H3, <- app_assoc. reflexivity.
    + rewrite I3, H4. cbn [List.filter].
      destruct (enqueues uploadDir (file, tools, now)); cbn [length]; lia.
Qed.

Lemma allowed_cases (m : jsstring) :
  fileFilter m = true -> In m allowedTypes.
Proof.
  unfold fileFilter. intros H. apply existsb_exists in H as (x & Hx & E).
  apply eqb_eq in E. now subst.
Qed.

End RouteLawFacts.

(** X19. An upload stores every file as it came: for each file, in order,
    one document with the file's original name, media type and byte size, the
    validated title and category, the quick-pass text and the OCR flag false;
    these documents are appended to the table, and the number of jobs created
    is the number of files that meet the enqueue condition. *)
Theorem upload_stores_files (uploadDir : jsstring) (meta : Routes.Metadata)
        (files : list (Routes.File * Extract.Tools * Z)) (s : Queue.State) :
  Forall2 (Api.stored_as uploadDir meta)
    (fst (Routes.upload_files uploadDir meta files s)) files
  /\ Storage.rows (Queue.db (snd (Routes.upload_files uploadDir meta files s)))
     = Storage.rows (Queue.db s) ++ fst (Routes.upload_files uploadDir meta files s)
  /\ length (Queue.heap (snd (Routes.upload_files uploadDir meta files s)))
     = (length (Queue.heap s) + length (List.filter (Api.enqueues uploadDir) files))%nat.
Proof. apply upload_files_facts. Qed.

(** X20. Among the media types the upload filter accepts, a file is queued
    for the advanced pass exactly when it is a PDF, a JPEG or a PNG, whatever
    the tools return: the quick-pass text of a PDF is a fixed placeholder
    shorter than 100 code units, so every PDF is queued; Word, Excel and
    PowerPoint files never are. *)
Theorem accepted_upload_enqueue (tools : Extract.Tools) (path mimetype : jsstring) :
  Routes.fileFilter mimetype = true ->
  Routes.needs_advanced mimetype (Extract.extractText tools path mimetype)
  = (Js.eqb mimetype Extract.mime_pdf || Js.eqb mimetype Extract.mime_jpeg
     || Js.eqb mimetype Extract.mime_png).
Proof.
  intros H. apply allowed_cases in H. unfold Routes.allowedTypes in H.
  repeat (destruct H as [<-|H]; [vm_compute; reflexivity|]). destruct H.
Qed.

Lemma accepted_upload_enqueue_witness :
  Routes.fileFilter Extract.mime_pdf = true
  /\ Routes.needs_advanced Extract.mime_pdf
       (Extract.extractText (Sample.tools_fail (Js.lit "x")) Sample.docx_path
          Extract.mime_pdf) = true.
Proof.
  assert (H : Routes.fileFilter Extract.mime_pdf = true) by (vm_compute; reflexivity).
  split; [exact H|].
  rewrite (accepted_upload_enqueue (Sample.tools_fail (Js.lit "x")) Sample.docx_path
             Extract.mime_pdf H).
  vm_compute. reflexivity.
Defined.

(** X21. A reprocess request. When the lookup fails (the store rejects
    it, the parameter is not a number, or it is outside the range of the key
    column) the answer is 500 "Reprocessing failed"; for a key in range that
    has no document it is 404 "Document not found"; in both cases nothing
    changes. For a document whose file is on disk the answer is 200 with the id
    of a new job, and that job, the only one added, carries the document's id,
    stored path and media type; the table is not touched. *)
Theorem reprocess_outcome (lookup_fails : bool) (existsSync : jsstring -> bool)
        (param : option Z) (now : Z) (s : Queue.State) :
  (lookup_fails = true \/ param = None
   \/ (exists id, param = Some id /\ (id < -2147483648 \/ 2147483647 < id)%Z
                  /\ Storage.getDocument id (Queue.db s) = None) ->
   Api.reprocessRoute lookup_fails existsSync param now s
   = ({| Routes.res_status := 500;
         Routes.res_body := Routes.Message (Js.lit "Reprocessing failed") |}, s))
  /\ (forall id,
        lookup_fails = false -> param = Some id ->
        (-2147483648 <= id <= 2147483647)%Z ->
        Storage.getDocument id (Queue.db s) = None ->
        Api.reprocessRoute lookup_fails existsSync param now s
        = ({| Routes.res_status := 404;
              Routes.res_body := Routes.Message (Js.lit "Document not found") |}, s))
  /\ (forall id document,
        lookup_fails = false -> param = Some id ->
        Storage.getDocument id (Queue.db s) = Some document ->
        existsSync (Storage.doc_filePath document) = true ->
        exists j,
          fst (Api.reprocessRoute lookup_fails existsSync param now s)
          = {| Routes.res_status := 200;
               Routes.res_body :=
                 Routes.Queued (Js.lit "Document queued for reprocessing")
                   (Queue.job_id j) |}
          /\ Queue.heap (snd (Api.reprocessRoute lookup_fails existsSync param now s))
               !! length (Queue.heap s) = Some j
          /\ Queue.job_documentId j = Storage.doc_id document
          /\ Queue.job_filePath j = Storage.doc_filePath document
          /\ Queue.job_mimeType j = Storage.doc_mimeType document
          /\ Queue.is_open (Queue.job_status j) = true
          /\ Routes.jobs_created s
               (snd (Api.reprocessRoute lookup_fails existsSync param now s)) = 1%nat
          /\ Queue.db (snd (Api.reprocessRoute lookup_fails existsSync param now s))
             = Queue.db s).
Proof.
  split; [|split].
  - unfold Api.reprocessRoute. intros [->|[->|(id & -> & Hr & Hn)]].
    + reflexivity.
    + now destruct lookup_fails.
    + destruct lookup_fails; [reflexivity|]. unfold Routes.reprocess.
      rewrite Hn. replace (Storage.int4 id) with false; [reflexivity|].
      symmetry. unfold Storage.int4. apply andb_false_iff.
      destruct Hr; [left | right]; apply Z.leb_gt; lia.
  - intros id -> -> Hr Hn. unfold Api.reprocessRoute, Routes.reprocess. rewrite Hn.
    replace (Storage.int4 id) with true; [reflexivity|].
    symmetry. unfold Storage.int4. apply andb_true_iff. split; apply Z.leb_le; lia.
  - intros id document -> -> Hd He. unfold Api.reprocessRoute.
    unfold Routes.reprocess, Routes.jobs_created.
    rewrite Hd, He. cbn [negb].
    destruct (addJob_new_job (Storage.doc_id document) (Storage.doc_filePath document)
                (Storage.doc_mimeType document) now s)
      as (j & H0 & Hid & Hdoc & Hp & Hm & Ho & _ & Hdb).
    pose proof (addJob_heap_length (Storage.doc_id document)
                  (Storage.doc_filePath document) (Storage.doc_mimeType document) now s)
      as Hlen.
    destruct (Queue.addJob _ _ _ now s) as [jobId s'] eqn:E.
    assert (Ej : jobId = Queue.make_job_id (Storage.doc_id document) now).
    { unfold Queue.addJob in E. now injection E as <- _. }
    cbn [fst snd] in *. exists j. rewrite Ej, Hid. repeat split; try assumption. lia.
Qed.

(** X22. The advanced pass fails in exactly three ways: for an image, when
    the recognition throws, or when the recognition succeeds and removing the
    temporary PNG afterwards throws; for a media type of the "Word documents"
    branch, when the raw-text extraction throws. It passes on what was thrown.
    PDFs, the other Office types and unknown types never make it fail. *)
Theorem advanced_failure_sources (tools : Extract.Tools) (filePath mimeType : jsstring)
        (e : Extract.Thrown) :
  Extract.extractTextAdvanced tools filePath mimeType = Extract.Throw e
  <-> (Js.startsWith mimeType (Js.lit "image/") = true
       /\ Extract.recognize tools
            (if Extract.sharp_ok tools filePath
             then filePath ++ Js.lit "_processed.png" else filePath)
          = Extract.Throw e)
      \/ (Js.startsWith mimeType (Js.lit "image/") = true
          /\ Extract.sharp_ok tools filePath = true
          /\ (exists text,
                Extract.recognize tools (filePath ++ Js.lit "_processed.png")
                = Extract.Ok text)
          /\ Extract.unlink tools (filePath ++ Js.lit "_processed.png") = Some e)
      \/ (Js.startsWith mimeType (Js.lit "image/") = false
          /\ Js.eqb mimeType Extract.mime_pdf = false
          /\ Extract.is_wordprocessingml mimeType = true
          /\ Extract.extractRawText tools filePath = Extract.Throw e).
Proof.
  unfold Extract.extractTextAdvanced, Extract.remove_processed.
  assert (Hsame : Js.eqb filePath filePath = true) by now apply eqb_eq.
  assert (Hdiff : Js.eqb (filePath ++ Js.lit "_processed.png") filePath = false).
  { destruct (Js.eqb (filePath ++ Js.lit "_processed.png") filePath) eqn:E;
      [|reflexivity].
    apply eqb_eq in E. apply (f_equal (@length N)) in E.
    rewrite List.length_app in E. vm_compute (length (Js.lit _)) in E. lia. }
  destruct (Js.startsWith mimeType (Js.lit "image/")).
  - destruct (Extract.sharp_ok tools filePath).
    + rewrite Hdiff. cbn [negb].
      destruct (Extract.recognize tools _) as [text|e'] eqn:E.
      * destruct (Extract.unlink tools _) as [e'|] eqn:Eu; split.
        -- intros [= <-]. right. left. eauto.
        -- intros [[_ H]|[(_ & _ & _ & H)|(H & _)]]; congruence.
        -- discriminate.
        -- intros [[_ H]|[(_ & _ & _ & H)|(H & _)]]; congruence.
      * split.
        -- intros [= <-]. left. auto.
        -- intros [[_ H]|[(_ & _ & (text & H) & _)|(H & _)]]; congruence.
    + rewrite Hsame. cbn [negb].
      destruct (Extract.recognize tools _) as [text|e'] eqn:E; split.
      * discriminate.
      * intros [[_ H]|[(_ & H & _)|(H & _)]]; congruence.
      * intros [= <-]. left. auto.
      * intros [[_ H]|[(_ & H & _)|(H & _)]]; congruence.
  - destruct (Js.eqb mimeType Extract.mime_pdf).
    { split; [discriminate|]. intros [[H _]|[(H & _)|(_ & H & _)]]; discriminate. }
    destruct (Extract.is_wordprocessingml mimeType).
    { split; [intros H; right; right; auto|].
      intros [[H _]|[(H & _)|(_ & _ & _ & H)]]; [discriminate | discriminate | exact H]. }
    split.
    + destruct (Extract.is_other_office mimeType); [|discriminate].
      destruct (Extract.extractRawText tools filePath); discriminate.
    + intros [[H _]|[(H & _)|(_ & _ & H & _)]]; discriminate.
Qed.

(** The recognition of the photo succeeds, but the temporary PNG cannot be
    removed, and the job fails with the message of [unlinkSync]. *)
Lemma advanced_failure_sources_witness :
  Extract.extractTextAdvanced Incidents.tools_unlink_fails Sample.photo_path
    Extract.mime_jpeg
  = Extract.Throw (Extract.ErrorObject Incidents.unlink_message).
Proof.
  apply advanced_failure_sources. right. left.
  repeat split; try (vm_compute; reflexivity). exists Sample.long_text. reflexivity.
Defined.

(** ** A job from the upload to the stored text *)

Section JobLifeFacts.
Import Js Storage Extract Queue Routes Api.

Lemma addJob_idle_starts (d : Z) (p m : jsstring) (now : Z) (s : State) :
  invariant s -> processing s = false ->
  worker (snd (addJob d p m now s)) = AwaitExtract (length (heap s))
  /\ processing (snd (addJob d p m now s)) = true
  /\ (forall r, (r < length (heap s))%nat ->
        heap (snd (addJob d p m now s)) !! r = heap s !! r)
  /\ (forall r, status_at (heap (snd (addJob d p m now s))) r <> Some Pending).
Proof.
  intros Hi Hf. pose proof (idle_when_flag_down s Hi Hf) as Hw.
  assert (Hnp : forall r, status_at (heap s) r <> Some Pending).
  { intros r Hr. destruct (inv_pending s Hi r Hr) as [_ Hn]. now apply Hn. }
  unfold addJob. cbn [snd processing]. rewrite Hf. cbn [negb].
  unfold processQueue. cbn [processing heap queue worker db].
  match goal with |- context [loop_head now ?st] => set (s1 := st) end.
  destruct (loop_head_first now s1) as [(r & Hr & ->)|[Hnone _]].
  - apply find_pending_Some in Hr as [_ Hr]. subst s1. cbn [heap] in *.
    rewrite status_at_app in Hr. destruct (decide (r = length (heap s))) as [->|Hne];
      [|now apply Hnp in Hr].
    cbn [worker processing heap]. split; [reflexivity|]. split; [reflexivity|]. split.
    + intros r Hlt. rewrite list_lookup_alter_ne by lia. now apply lookup_app_l.
    + intros r. rewrite status_at_alter.
      destruct (decide (length (heap s) = r)) as [<-|Hne].
      * rewrite list_lookup_middle by reflexivity. cbn. discriminate.
      * rewrite status_at_app. destruct (decide (r = length (heap s))); [congruence|].
        apply Hnp.
  - exfalso. apply (Hnone (length (heap s))).
    + subst s1. cbn [queue]. apply in_or_app. right. now left.
    + subst s1. cbn [heap]. rewrite status_at_app.
      destruct (decide (length (heap s) = length (heap s))); [reflexivity | congruence].
Qed.

Lemma idle_job_sent (d : Z) (p m : jsstring) (now now2 : Z) (tools : Tools)
      (text : jsstring) (s : State) :
  invariant s -> processing s = false ->
  extractTextAdvanced tools p m = Ok text ->
  worker (run [AddJob d p m now; ExtractDone tools now2] s)
  = AwaitUpdate (length (heap s)) text now2
  /\ db (run [AddJob d p m now; ExtractDone tools now2] s) = db s
  /\ (exists j,
        heap (run [AddJob d p m now; ExtractDone tools now2] s) !! length (heap s)
        = Some j
        /\ job_documentId j = d)
  /\ (forall r, status_at (heap (run [AddJob d p m now; ExtractDone tools now2] s)) r
                <> Some Pending).
Proof.
  intros Hi Hf He. cbn [run fold_left step].
  destruct (addJob_idle_starts d p m now s Hi Hf) as (Hw & Hp & _ & Hnp).
  destruct (addJob_new_job d p m now s) as (j & Hj & _ & Hd & Hpath & Hm & _ & _ & Hdb).
  set (s1 := snd (addJob d p m now s)) in *.
  unfold resume_extract. rewrite Hw, Hj, Hpath, Hm, He. cbn [worker db heap].
  split; [reflexivity|]. split; [exact Hdb|]. split; [eauto | exact Hnp].
Qed.

(** A worker that has settled its job when no job is pending stops. *)
Lemma settled_stops (f : QueueJob -> QueueJob) (now : Z) (s : State) (r : nat)
      (j : QueueJob) :
  heap s !! r = Some j -> job_status (f j) <> Pending ->
  (forall r', status_at (heap s) r' <> Some Pending) ->
  processing (loop_head now {| heap := alter f r (heap s); queue := queue s;
                               processing := processing s; worker := worker s;
                               db := db s |}) = false.
Proof.
  intros Hj Hst Hnp.
  match goal with |- context [loop_head now ?st] => set (s2 := st) end.
  destruct (loop_head_cases now s2) as [(r' & _ & Hr & _)|[_ ->]]; [|reflexivity].
  exfalso. subst s2. cbn [heap] in Hr. rewrite status_at_alter in Hr.
  destruct (decide (r = r')) as [<-|Hne].
  - rewrite Hj in Hr. cbn in Hr. congruence.
  - now apply Hnp in Hr.
Qed.

Lemma idle_job_completes (d : Z) (p m : jsstring) (now now2 now3 : Z) (tools : Tools)
      (text : jsstring) (s : State) :
  invariant s -> processing s = false ->
  extractTextAdvanced tools p m = Ok text ->
  db (run [AddJob d p m now; ExtractDone tools now2; UpdateDone now3] s)
  = {| rows := update_rows d (ocr_update text) now2 (rows (db s));
       next_id := next_id (db s) |}
  /\ (exists j,
        heap (run [AddJob d p m now; ExtractDone tools now2; UpdateDone now3] s)
          !! length (heap s) = Some j
        /\ job_status j = Completed /\ job_documentId j = d
        /\ job_processedAt j = Some now3)
  /\ processing (run [AddJob d p m now; ExtractDone tools now2; UpdateDone now3] s)
     = false.
Proof.
  intros Hi Hf He.
  destruct (idle_job_sent d p m now now2 tools text s Hi Hf He)
    as (Hw & Hdb & (j & Hj & Hd) & Hnp).
  change (run [AddJob d p m now; ExtractDone tools now2; UpdateDone now3] s)
    with (resume_update now3 (run [AddJob d p m now; ExtractDone tools now2] s)).
  set (s2 := run [AddJob d p m now; ExtractDone tools now2] s) in *.
  destruct (resume_update_shape now3 s2 _ _ _ Hw) as [[Hn _]|(j0 & Hj0 & ->)];
    [congruence|].
  rewrite Hj in Hj0. injection Hj0 as <-. cbn [with_db db heap processing].
  split; [now rewrite Hdb, Hd|]. split.
  - exists (mark_completed now3 j). split; [|now repeat split].
    apply settled_lookup; [exact Hj | discriminate].
  - apply (settled_stops _ _ _ _ j); [exact Hj | discriminate | exact Hnp].
Qed.

Lemma idle_job_rejected (d : Z) (p m : jsstring) (now now2 now3 : Z) (tools : Tools)
      (text : jsstring) (e : Thrown) (s : State) :
  invariant s -> processing s = false ->
  extractTextAdvanced tools p m = Ok text ->
  db (run [AddJob d p m now; ExtractDone tools now2; UpdateFailed e now3] s) = db s
  /\ (exists j,
        heap (run [AddJob d p m now; ExtractDone tools now2; UpdateFailed e now3] s)
          !! length (heap s) = Some j
        /\ job_status j = Failed
        /\ job_error j
           = Some (match e with
                   | ErrorObject message => message
                   | OtherValue => lit "Unknown error"
                   end)
        /\ job_documentId j = d)
  /\ processing (run [AddJob d p m now; ExtractDone tools now2; UpdateFailed e now3] s)
     = false.
Proof.
  intros Hi Hf He.
  destruct (idle_job_sent d p m now now2 tools text s Hi Hf He)
    as (Hw & Hdb & (j & Hj & Hd) & Hnp).
  change (run [AddJob d p m now; ExtractDone tools now2; UpdateFailed e now3] s)
    with (reject_update e now3 (run [AddJob d p m now; ExtractDone tools now2] s)).
  set (s2 := run [AddJob d p m now; ExtractDone tools now2] s) in *.
  unfold reject_update. rewrite Hw, <- Hw. split; [|split].
  - now rewrite loop_head_db.
  - exists (mark_failed e now3 j). split; [|destruct e; now repeat split].
    apply settled_lookup; [exact Hj | discriminate].
  - apply (settled_stops _ _ _ _ j); [exact Hj | discriminate | exact Hnp].
Qed.

Lemma upload_job_life (uploadDir : jsstring) (meta : Routes.Metadata)
        (tools tools2 : Extract.Tools) (now now2 now3 : Z) (file : Routes.File)
        (text : jsstring) (s s1 : Queue.State) (document : Storage.Document) :
  Queue.invariant s -> Queue.processing s = false ->
  StorageLaws.db_wf (Queue.db s) ->
  Routes.upload_file uploadDir meta tools now file s = (document, s1) ->
  Api.enqueues uploadDir (file, tools, now) = true ->
  Extract.extractTextAdvanced tools2 (Routes.upload_path uploadDir now file)
    (Routes.mimetype file) = Extract.Ok text ->
  ((exists stored,
      Storage.getDocument (Storage.doc_id document)
        (Queue.db (Queue.run [Queue.ExtractDone tools2 now2; Queue.UpdateDone now3] s1))
      = Some stored
      /\ Storage.doc_extractedText stored = Some text
      /\ Storage.doc_ocrProcessed stored = Some true
      /\ Storage.doc_title stored = Routes.meta_title meta
      /\ Storage.doc_originalName stored = Routes.originalname file
      /\ Storage.doc_filePath stored = Routes.upload_path uploadDir now file)
   /\ (exists j,
         Queue.heap (Queue.run [Queue.ExtractDone tools2 now2; Queue.UpdateDone now3] s1)
           !! length (Queue.heap s) = Some j
         /\ Queue.job_status j = Queue.Completed
         /\ Queue.job_documentId j = Storage.doc_id document)
   /\ Queue.processing
        (Queue.run [Queue.ExtractDone tools2 now2; Queue.UpdateDone now3] s1) = false)
  /\ (forall e,
        Storage.getDocument (Storage.doc_id document)
          (Queue.db (Queue.run [Queue.ExtractDone tools2 now2;
                                Queue.UpdateFailed e now3] s1))
        = Some document
        /\ (exists j,
              Queue.heap (Queue.run [Queue.ExtractDone tools2 now2;
                                     Queue.UpdateFailed e now3] s1)
                !! length (Queue.heap s) = Some j
              /\ Queue.job_status j = Queue.Failed
              /\ Queue.job_error j
                 = Some (match e with
                         | Extract.ErrorObject message => message
                         | Extract.OtherValue => Js.lit "Unknown error"
                         end)
              /\ Queue.job_documentId j = Storage.doc_id document)
        /\ Queue.processing
             (Queue.run [Queue.ExtractDone tools2 now2; Queue.UpdateFailed e now3] s1)
           = false).
Proof.
  intros Hi Hf Hwf Hu He Hx.
  unfold Routes.upload_file in Hu. unfold Api.enqueues in He.
  match type of Hu with
  | context [Storage.createDocument ?i now (Queue.db s)] => set (ins := i) in *
  end.
  pose proof (getDocument_create_new ins now (Queue.db s) Hwf) as Hnew.
  destruct (Storage.createDocument ins now (Queue.db s)) as [row db'] eqn:Ec.
  rewrite He in Hu.
  assert (Hrow : row = fst (Storage.createDocument ins now (Queue.db s)))
    by now rewrite Ec.
  cbn [fst snd] in Hnew.
  set (s0 := {| Queue.heap := Queue.heap s; Queue.queue := Queue.queue s;
                Queue.processing := Queue.processing s; Queue.worker := Queue.worker s;
                Queue.db := db' |}) in *.
  assert (Hdoc : document = row) by (injection Hu as <- _; reflexivity).
  assert (Hs1 : s1 = snd (Queue.addJob (Storage.doc_id row)
                            (Routes.upload_path uploadDir now file)
                            (Routes.mimetype file) now s0))
    by (injection Hu as _ <-; reflexivity).
  clear Hu. subst document s1.
  assert (Hi0 : Queue.invariant s0) by apply (invariant_with_db s db' Hi).
  assert (Hid : Storage.doc_id row = Storage.next_id (Queue.db s))
    by (rewrite Hrow; reflexivity).
  split.
  - destruct (idle_job_completes (Storage.doc_id row)
                (Routes.upload_path uploadDir now file)
                (Routes.mimetype file) now now2 now3 tools2 text s0 Hi0 Hf Hx)
      as (Hdb & (j & Hj & Hst & Hd & _) & Hp).
    cbn [Queue.run fold_left] in Hdb, Hj, Hp. cbn [Queue.step] in Hdb, Hj, Hp.
    cbn [Queue.run fold_left Queue.step]. split; [|split].
    + exists (Storage.apply_update (Queue.ocr_update text) now2 row).
      split; [|rewrite Hrow; now repeat split].
      rewrite Hdb. rewrite getDocument_update_same by reflexivity. cbn [Queue.db s0].
      rewrite Hid, Hnew. reflexivity.
    + exists j. repeat split; assumption.
    + exact Hp.
  - intros e.
    destruct (idle_job_rejected (Storage.doc_id row)
                (Routes.upload_path uploadDir now file)
                (Routes.mimetype file) now now2 now3 tools2 text e s0 Hi0 Hf Hx)
      as (Hdb & (j & Hj & Hst & Hd & Herr) & Hp).
    cbn [Queue.run fold_left] in Hdb, Hj, Hp. cbn [Queue.step] in Hdb, Hj, Hp.
    cbn [Queue.run fold_left Queue.step]. split; [|split].
    + rewrite Hdb. cbn [Queue.db s0]. rewrite Hid. exact Hnew.
    + exists j. repeat split; assumption.
    + exact Hp.
Qed.

Lemma pdf_always_enqueued (tools : Tools) (path : jsstring) :
  needs_advanced mime_pdf (extractText tools path mime_pdf) = true
  /\ extractText tools path mime_pdf = quick_pdf_text
  /\ extractTextAdvanced tools path mime_pdf = Ok advanced_pdf_text.
Proof.
  unfold needs_advanced, extractText, extractTextAdvanced.
  assert (H1 : startsWith mime_pdf (lit "image/") = false) by (vm_compute; reflexivity).
  assert (H2 : eqb mime_pdf mime_pdf = true) by (vm_compute; reflexivity).
  assert (H3 : (length quick_pdf_text <? 100)%nat = true) by (vm_compute; reflexivity).
  rewrite H1, H2, H3. cbn [orb andb]. rewrite orb_true_r. repeat split.
Qed.

End JobLifeFacts.

(** X23. From the upload to the stored text: when the worker is not
    running and an uploaded file meets the enqueue condition, its job is picked
    up at once. If the advanced pass then succeeds and the store fulfils the
    update, the document created by the upload ends with the advanced text and
    the OCR flag true, its other upload fields as they were, and the job is
    completed. If the store rejects the update instead, the document is exactly
    as the upload created it and the job is failed with the store's message. In
    both cases the worker stops. *)
Theorem upload_to_stored_text (uploadDir : jsstring) (meta : Routes.Metadata)
        (tools tools2 : Extract.Tools) (now now2 now3 : Z) (file : Routes.File)
        (text : jsstring) (s s1 : Queue.State) (document : Storage.Document) :
  Queue.invariant s -> Queue.processing s = false ->
  StorageLaws.db_wf (Queue.db s) ->
  Routes.upload_file uploadDir meta tools now file s = (document, s1) ->
  Api.enqueues uploadDir (file, tools, now) = true ->
  Extract.extractTextAdvanced tools2 (Routes.upload_path uploadDir now file)
    (Routes.mimetype file) = Extract.Ok text ->
  ((exists stored,
      Storage.getDocument (Storage.doc_id document)
        (Queue.db (Queue.run [Queue.ExtractDone tools2 now2; Queue.UpdateDone now3] s1))
      = Some stored
      /\ Storage.doc_extractedText stored = Some text
      /\ Storage.doc_ocrProcessed stored = Some true
      /\ Storage.doc_title stored = Routes.meta_title meta
      /\ Storage.doc_originalName stored = Routes.originalname file
      /\ Storage.doc_filePath stored = Routes.upload_path uploadDir now file)
   /\ (exists j,
         Queue.heap (Queue.run [Queue.ExtractDone tools2 now2; Queue.UpdateDone now3] s1)
           !! length (Queue.heap s) = Some j
         /\ Queue.job_status j = Queue.Completed
         /\ Queue.job_documentId j = Storage.doc_id document)
   /\ Queue.processing
        (Queue.run [Queue.ExtractDone tools2 now2; Queue.UpdateDone now3] s1) = false)
  /\ (forall e,
        Storage.getDocument (Storage.doc_id document)
          (Queue.db (Queue.run [Queue.ExtractDone tools2 now2;
                                Queue.UpdateFailed e now3] s1))
        = Some document
        /\ (exists j,
              Queue.heap (Queue.run [Queue.ExtractDone tools2 now2;
                                     Queue.UpdateFailed e now3] s1)
                !! length (Queue.heap s) = Some j
              /\ Queue.job_status j = Queue.Failed
              /\ Queue.job_error j
                 = Some (match e with
                         | Extract.ErrorObject message => message
                         | Extract.OtherValue => Js.lit "Unknown error"
                         end)
              /\ Queue.job_documentId j = Storage.doc_id document)
        /\ Queue.processing
             (Queue.run [Queue.ExtractDone tools2 now2; Queue.UpdateFailed e now3] s1)
           = false).
Proof. apply upload_job_life. Qed.

Lemma upload_to_stored_text_witness :
  exists stored,
    Storage.getDocument 1 (Queue.db Sample.photo_done) = Some stored
    /\ Storage.doc_extractedText stored = Some Sample.long_text
    /\ Storage.doc_ocrProcessed stored = Some true.
Proof.
  assert (Hu : Routes.upload_file Sample.uploadDir Sample.meta0
                 (Sample.tools_ok Sample.long_text) 1700000000000 Sample.photo Queue.init
               = (fst (Routes.upload_file Sample.uploadDir Sample.meta0
                         (Sample.tools_ok Sample.long_text) 1700000000000 Sample.photo
                         Queue.init), Sample.after_photo))
    by (vm_compute; reflexivity).
  assert (Hwf : StorageLaws.db_wf (Queue.db Queue.init))
    by (split; constructor).
  assert (He : Api.enqueues Sample.uploadDir
                 (Sample.photo, Sample.tools_ok Sample.long_text, 1700000000000%Z) = true)
    by (vm_compute; reflexivity).
  assert (Hx : Extract.extractTextAdvanced (Sample.tools_ok Sample.long_text)
                 (Routes.upload_path Sample.uploadDir 1700000000000 Sample.photo)
                 (Routes.mimetype Sample.photo) = Extract.Ok Sample.long_text)
    by (vm_compute; reflexivity).
  destruct (upload_to_stored_text Sample.uploadDir Sample.meta0
              (Sample.tools_ok Sample.long_text) (Sample.tools_ok Sample.long_text)
              1700000000000 1700000001000 1700000002000 Sample.photo Sample.long_text
              Queue.init Sample.after_photo _ invariant_init eq_refl Hwf Hu He Hx)
    as [[(stored & H1 & H2 & H3 & _) _] _].
  exists stored. repeat split; assumption.
Defined.

(** ** Deleting a document *)

Section DeleteFacts.
Import Js Storage Extract Queue Routes Api.

Lemma eqb_false (a b : jsstring) : eqb a b = false <-> a <> b.
Proof.
  split.
  - intros H E. apply eqb_eq in E. congruence.
  - intros H. destruct (eqb a b) eqn:E; [|reflexivity].
    apply eqb_eq in E. contradiction.
Qed.


Lemma exists_false_unlink (disk : list jsstring) (p : jsstring) :
  existsSync disk p = false -> unlinkSync disk p = disk.
Proof.
  unfold existsSync, unlinkSync. induction disk as [|x disk IH]; [reflexivity|].
  cbn [List.filter existsb]. intros H. apply orb_false_iff in H as [H1 H2].
  assert (Hx : eqb x p = false).
  { apply eqb_false. intros ->. apply eqb_false in H1. now apply H1. }
  rewrite Hx. cbn [negb]. now rewrite IH.
Qed.


End DeleteFacts.



(** X25. A job whose document is gone: when the advanced pass succeeds
    for a job whose document id has no row and the store then fulfils the
    update (an update that matches no row is no error), that update changes no
    row and creates none, and the job is still marked completed. *)
Theorem job_of_missing_document (s : Queue.State) (r : nat) (j : Queue.QueueJob)
        (tools : Extract.Tools) (now now' : Z) (text : jsstring) :
  Queue.worker s = Queue.AwaitExtract r ->
  Queue.heap s !! r = Some j ->
  Storage.getDocument (Queue.job_documentId j) (Queue.db s) = None ->
  Extract.extractTextAdvanced tools (Queue.job_filePath j) (Queue.job_mimeType j)
  = Extract.Ok text ->
  Storage.rows
    (Queue.db (Queue.run [Queue.ExtractDone tools now; Queue.UpdateDone now'] s))
  = Storage.rows (Queue.db s)
  /\ Queue.heap (Queue.run [Queue.ExtractDone tools now; Queue.UpdateDone now'] s) !! r
     = Some (Queue.mark_completed now' j).
Proof.
  intros Hw Hj Hd Hx. cbn [Queue.run fold_left Queue.step].
  unfold Queue.resume_extract. rewrite Hw, Hj, Hx.
  match goal with
  | |- context [Queue.resume_update now' ?st] => set (s1 := st)
  end.
  destruct (resume_update_shape now' s1 r text now eq_refl) as [[Hn _]|(j0 & Hj0 & ->)].
  { subst s1. cbn [Queue.heap] in Hn. congruence. }
  assert (Ej : j0 = j) by (subst s1; cbn [Queue.heap] in Hj0; congruence).
  subst j0. cbn [Queue.with_db Queue.db Queue.heap Storage.rows]. split.
  - subst s1. cbn [Queue.db]. now apply update_missing.
  - apply settled_lookup; [exact Hj0 | discriminate].
Qed.

Lemma job_of_missing_document_witness :
  Storage.rows
    (Queue.db (Queue.run [Queue.ExtractDone (Sample.tools_ok Sample.long_text)
                            1700000001000;
                          Queue.UpdateDone 1700000002000]
                 (Queue.run [Queue.AddJob 7 Sample.photo_path Extract.mime_jpeg
                               1700000000500] Queue.init)))
  = [].
Proof.
  refine (proj1 (job_of_missing_document
                   (Queue.run [Queue.AddJob 7 Sample.photo_path Extract.mime_jpeg
                                 1700000000500] Queue.init)
                   0 (Queue.set_status Queue.Processing
                        {| Queue.job_id := Queue.make_job_id 7 1700000000500;
                           Queue.job_documentId := 7;
                           Queue.job_filePath := Sample.photo_path;
                           Queue.job_mimeType := Extract.mime_jpeg;
                           Queue.job_status := Queue.Pending;
                           Queue.job_createdAt := 1700000000500;
                           Queue.job_processedAt := None;
                           Queue.job_error := None |})
                   (Sample.tools_ok Sample.long_text) 1700000001000 1700000002000
                   Sample.long_text _ _ _ _)); vm_compute; reflexivity.
Defined.

(** ** The search request *)

Section SearchRouteFacts.
Import Js Storage Search Api.

Lemma schema_accepts (parseInt : jsstring -> option Z) (rq : SearchRequest)
      (p : SearchParams) :
  searchDocumentSchema parseInt rq = Some p ->
  (1 <= sp_page p)%Z /\ (1 <= sp_limit p <= 100)%Z /\ In (sp_sortBy p) sortKeys
  /\ int_param parseInt (rq_page rq) 1 = Some (sp_page p)
  /\ int_param parseInt (rq_limit rq) 10 = Some (sp_limit p)
  /\ sp_query p = rq_query rq /\ sp_category p = rq_category rq
  /\ sp_department p = rq_department rq
  /\ sp_dateFrom p = rq_dateFrom rq /\ sp_dateTo p = rq_dateTo rq.
Proof.
  unfold searchDocumentSchema.
  destruct (int_param parseInt (rq_page rq) 1) as [page|]; [|discriminate].
  destruct (int_param parseInt (rq_limit rq) 10) as [limit|]; [|discriminate].
  destruct (_ && _) eqn:E; [|discriminate]. intros [= <-].
  cbn [sp_page sp_limit sp_sortBy sp_query sp_category sp_department sp_dateFrom
       sp_dateTo].
  repeat (apply andb_true_iff in E as [E ?]).
  match goal with
  | H : existsb _ _ = true |- _ =>
      apply existsb_exists in H as (k & Hk & Ek); apply eqb_eq in Ek
  end.
  repeat split; try lia; try reflexivity. now rewrite Ek.
Qed.

End SearchRouteFacts.

(** X26. A search request is answered with documents only if its
    parameters pass the validation: the page is at least 1, the page size is
    between 1 and 100 (1 and 10 when the parameter is absent or empty), the sort
    key is one of the five known ones, and the text filters are those of the
    request. The answer then holds at most page-size documents, so never more
    than 100, and never more than the total it reports. *)
Theorem search_route_validated (lower : N -> N)
        (collate_le : jsstring -> jsstring -> bool)
        (parseDate : jsstring -> option Z)
        (scan : list Storage.Document -> list Storage.Document)
        (parseInt : jsstring -> option Z) (rq : Api.SearchRequest)
        (d : Storage.Db) (docs : list Storage.Document) (total : nat) :
  (forall l, Permutation (scan l) l) ->
  Api.searchRoute lower collate_le parseDate scan parseInt rq d = Api.SearchOk docs total ->
  exists p,
    Search.searchDocuments lower collate_le parseDate scan p d = Some (docs, total)
    /\ (1 <= Search.sp_page p)%Z /\ (1 <= Search.sp_limit p <= 100)%Z
    /\ In (Search.sp_sortBy p) Api.sortKeys
    /\ (Search.provided (Api.rq_page rq) = None -> Search.sp_page p = 1%Z)
    /\ (Search.provided (Api.rq_limit rq) = None -> Search.sp_limit p = 10%Z)
    /\ Search.sp_query p = Api.rq_query rq
    /\ (length docs <= Z.to_nat (Search.sp_limit p))%nat
    /\ (length docs <= 100)%nat
    /\ (length docs <= total)%nat.
Proof.
  unfold Api.searchRoute. intros Hscan H.
  destruct (Api.searchDocumentSchema parseInt rq) as [p|] eqn:Es; [|discriminate].
  destruct (Search.searchDocuments lower collate_le parseDate scan p d) as [[docs' total']|]
    eqn:E; [|discriminate].
  injection H as -> ->. exists p.
  destruct (schema_accepts parseInt rq p Es)
    as (Hp & Hl & Hk & Hpage & Hlimit & Hq & _).
  destruct (search_unfold lower collate_le parseDate scan p d docs total E)
    as (from & to & _ & _ & Hd & Ht).
  assert (Hlen : (length docs <= Z.to_nat (Search.sp_limit p))%nat
                 /\ (length docs <= total)%nat).
  { rewrite Hd, Ht. unfold SearchLaws.window. rewrite length_take, length_drop.
    rewrite (Permutation_length (order_by_perm _ _)), (Permutation_length (Hscan _)).
    lia. }
  split; [exact E|]. split; [exact Hp|]. split; [exact Hl|]. split; [exact Hk|].
  split; [|split; [|split; [exact Hq|]]].
  - intros Hn. unfold Api.int_param in Hpage. rewrite Hn in Hpage. congruence.
  - intros Hn. unfold Api.int_param in Hlimit. rewrite Hn in Hlimit. congruence.
  - split; [apply Hlen|]. split; [lia | apply Hlen].
Qed.

Lemma search_route_validated_witness :
  Api.searchRoute Search.ascii_lower Search.codeunit_le Sample.parse_sample
       Search.table_order
    Api.parse_small (Api.request (Some "2"%string) (Some "2"%string) (Some "size"%string))
    Sample.table
  = Api.SearchOk [Sample.doc_plan] 3
  /\ Api.searchRoute Search.ascii_lower Search.codeunit_le Sample.parse_sample
       Search.table_order
       Api.parse_small (Api.request None (Some "500"%string) None) Sample.table
     = Api.SearchBadRequest
  /\ Api.searchRoute Search.ascii_lower Search.codeunit_le Sample.parse_sample
       Search.table_order
       Api.parse_small (Api.request None None (Some "newest"%string)) Sample.table
     = Api.SearchBadRequest
  /\ (length [Sample.doc_plan] <= 100)%nat.
Proof.
  assert (H : Api.searchRoute Search.ascii_lower Search.codeunit_le Sample.parse_sample
       Search.table_order
                Api.parse_small
                (Api.request (Some "2"%string) (Some "2"%string) (Some "size"%string))
                Sample.table
              = Api.SearchOk [Sample.doc_plan] 3) by (vm_compute; reflexivity).
  split; [exact H|]. split; [vm_compute; reflexivity|].
  split; [vm_compute; reflexivity|].
  destruct (search_route_validated _ _ _ Search.table_order _ _ _ _ _
              (fun l => Permutation_refl l) H)
    as (p & _ & _ & _ & _ & _ & _ & _ & _ & H100 & _).
  exact H100.
Defined.

(** ** The page links *)

Section PagerFacts.
Import Pager.





End PagerFacts.



(** ** What the advanced pass stores *)

(** X28. The text the advanced pass returns for an image is the
    recognised text after the cleaning, so it is always in clean form: only
    characters of the allowed class, no line feed, single spaces as the only
    white space, no white space at either end; cleaning it again changes
    nothing. *)
Theorem advanced_image_text_clean (tools : Extract.Tools) (filePath mimeType : jsstring)
        (text : jsstring) :
  Js.startsWith mimeType (Js.lit "image/") = true ->
  Extract.extractTextAdvanced tools filePath mimeType = Extract.Ok text ->
  Clean.clean_form text /\ Clean.cleanOCRText text = text.
Proof.
  intros Hi. unfold Extract.extractTextAdvanced. rewrite Hi.
  destruct (Extract.recognize tools _) as [raw|e]; [|discriminate].
  destruct (Extract.remove_processed tools _ _); [discriminate|].
  intros [= <-]. split; [apply cleanOCRText_clean_form|].
  apply clean_form_fixed, cleanOCRText_clean_form.
Qed.

Lemma advanced_image_text_clean_witness :
  Clean.cleanOCRText (Js.lit "Total:") = Js.lit "Total:".
Proof.
  assert (Hi : Js.startsWith Extract.mime_jpeg (Js.lit "image/") = true)
    by (vm_compute; reflexivity).
  assert (Hx : Extract.extractTextAdvanced (Sample.tools_ok (Js.lit "  Total:  "))
                 Sample.photo_path Extract.mime_jpeg = Extract.Ok (Js.lit "Total:"))
    by (vm_compute; reflexivity).
  exact (proj2 (advanced_image_text_clean _ _ _ _ Hi Hx)).
Defined.

(** X29. No text of a PDF is ever stored: whatever the tools do, the
    upload of a PDF stores the quick placeholder text and creates exactly one
    job; when the worker, idle at the upload, has run that job and the store
    has fulfilled its update, the document holds the advanced placeholder text
    with the OCR flag true; when the store has rejected the update, the
    document still holds the quick placeholder with the flag false. *)
Theorem pdf_upload_gets_placeholder (uploadDir : jsstring) (meta : Routes.Metadata)
        (tools tools2 : Extract.Tools) (now now2 now3 : Z) (file : Routes.File)
        (s s1 : Queue.State) (document : Storage.Document) :
  Queue.invariant s -> Queue.processing s = false ->
  StorageLaws.db_wf (Queue.db s) ->
  Routes.mimetype file = Extract.mime_pdf ->
  Routes.upload_file uploadDir meta tools now file s = (document, s1) ->
  Storage.doc_extractedText document = Some Extract.quick_pdf_text
  /\ Storage.doc_ocrProcessed document = Some false
  /\ Routes.jobs_created s s1 = 1%nat
  /\ (exists stored,
        Storage.getDocument (Storage.doc_id document)
          (Queue.db (Queue.run [Queue.ExtractDone tools2 now2; Queue.UpdateDone now3] s1))
        = Some stored
        /\ Storage.doc_extractedText stored = Some Extract.advanced_pdf_text
        /\ Storage.doc_ocrProcessed stored = Some true)
  /\ (forall e,
        Storage.getDocument (Storage.doc_id document)
          (Queue.db (Queue.run [Queue.ExtractDone tools2 now2;
                                Queue.UpdateFailed e now3] s1))
        = Some document).
Proof.
  intros Hi Hf Hwf Hm Hu.
  destruct (pdf_always_enqueued tools (Routes.upload_path uploadDir now file))
    as (He & Hq & _).
  destruct (pdf_always_enqueued tools2 (Routes.upload_path uploadDir now file))
    as (_ & _ & Hx).
  rewrite <- Hm in He, Hq, Hx.
  pose proof (upload_file_facts uploadDir meta tools now file s) as (Hs & _ & _ & Hlen).
  rewrite Hu in Hs, Hlen. cbn [fst snd] in Hs, Hlen.
  unfold Api.enqueues in Hlen. rewrite He in Hlen.
  destruct Hs as (_ & _ & _ & _ & _ & _ & Ht & Hflag).
  split; [now rewrite Ht, Hq|]. split; [exact Hflag|].
  split; [unfold Routes.jobs_created; lia|].
  destruct (upload_job_life uploadDir meta tools tools2 now now2 now3 file
              Extract.advanced_pdf_text s s1 document Hi Hf Hwf Hu He Hx)
    as [[(stored & H1 & H2 & H3 & _) _] Hrej].
  split; [exists stored; repeat split; assumption|].
  intros e. exact (proj1 (Hrej e)).
Qed.

Lemma pdf_upload_gets_placeholder_witness :
  exists stored,
    Storage.getDocument 1
      (Queue.db
         (Queue.run [Queue.ExtractDone (Sample.tools_fail (Js.lit "x")) 1700000001000;
                     Queue.UpdateDone 1700000002000]
            (snd (Routes.upload_file Sample.uploadDir Sample.meta0
                    (Sample.tools_fail (Js.lit "x")) 1700000000000
                    {| Routes.originalname := Js.lit "plan.pdf";
                       Routes.mimetype := Extract.mime_pdf;
                       Routes.size := 4096 |} Queue.init))))
    = Some stored
    /\ Storage.doc_extractedText stored = Some Extract.advanced_pdf_text.
Proof.
  assert (Hwf : StorageLaws.db_wf (Queue.db Queue.init)) by (split; constructor).
  destruct (pdf_upload_gets_placeholder Sample.uploadDir Sample.meta0
              (Sample.tools_fail (Js.lit "x")) (Sample.tools_fail (Js.lit "x"))
              1700000000000 1700000001000 1700000002000
              {| Routes.originalname := Js.lit "plan.pdf";
                 Routes.mimetype := Extract.mime_pdf;
                 Routes.size := 4096 |} Queue.init _ _
              invariant_init eq_refl Hwf eq_refl (surjective_pairing _))
    as (_ & _ & _ & (stored & H1 & H2 & _) & _).
  exists stored. split; [exact H1 | exact H2].
Defined.
